(** * ndjson-preview: the JSON transformation and line-filtering core

    A shallow embedding of [src/utils/jsonUtils.ts] ([reorderJsonKeys],
    [applyCustomOrder], [getNestedValue], [decodeUriStrings]),
    [src/utils/filterUtils.ts] ([matchesAllFilters], [filterLines]),
    [src/utils/htmlUtils.ts] ([escapeHtml], [escapeJsonForHtml]) and of
    [src/preview/previewPanel.ts] (the transformation step of
    [PreviewPanel.update], and the panel as a state machine over
    commands, window events and webview messages), together with the
    parts of the JavaScript runtime those functions rely on: own-property
    order of ordinary objects, property assignment, object spread,
    [JSON.parse], [decodeURIComponent], [String.prototype.trim],
    [String.prototype.split], [String.prototype.replace] and [String()].

    Conventions.
    - A string is a byte string holding UTF-8.
    - A number is an exact decimal; the functions only carry numbers
      around and print them.  The engine holds a double: for a literal
      that a double does not hold exactly (more than 15 significant
      digits, or a magnitude outside the range of doubles) it prints
      the rounded value, which the model does not follow.
    - An exception is the result [None]; a function that cannot throw
      returns its value.
    - An object is the list of its own properties in enumeration order.
    - What the prototype chains of the engine hold is a parameter
      ([Engine]) of the functions that read properties by name. *)

From Stdlib Require Import ZArith List String Ascii Bool Lia Permutation.
From Stdlib Require Import DecimalString.
Import ListNotations.

Local Open Scope string_scope.
Local Open Scope Z_scope.

(* ================================================================= *)
(** ** Characters and strings *)

Definition code (c : ascii) : Z := Z.of_N (N_of_ascii c).
Definition chr (z : Z) : ascii := ascii_of_N (Z.to_N z).

(** The double quote character (U+0022). *)
Definition dq : ascii := "034"%char.

(** [js] turns every apostrophe of a literal into a double quote, so that
    JSON texts can be written as ['{'a':1}']. *)
Fixpoint js (s : string) : string :=
  match s with
  | EmptyString => EmptyString
  | String c r => String (if Ascii.eqb c "'" then dq else c) (js r)
  end.

Definition is_digit (c : ascii) : bool := (48 <=? code c) && (code c <=? 57).

Fixpoint all_digits (s : string) : bool :=
  match s with
  | EmptyString => true
  | String c r => is_digit c && all_digits r
  end.

(** Value of a string of decimal digits, most significant first. *)
Fixpoint digits_value (acc : Z) (s : string) : Z :=
  match s with
  | EmptyString => acc
  | String c r => digits_value (10 * acc + (code c - 48)) r
  end.

Definition Z_to_string (z : Z) : string :=
  NilZero.string_of_uint (N.to_uint (Z.to_N z)).

Fixpoint repeat_char (c : ascii) (n : nat) : string :=
  match n with
  | O => EmptyString
  | S n' => String c (repeat_char c n')
  end.

Fixpoint drop (n : nat) (s : string) : string :=
  match n, s with
  | S n', String _ r => drop n' r
  | _, _ => s
  end.

Fixpoint take (n : nat) (s : string) : string :=
  match n, s with
  | S n', String c r => String c (take n' r)
  | _, _ => EmptyString
  end.

(* ================================================================= *)
(** ** Numbers

    A JSON number is kept as the exact decimal [mant * 10 ^ expo] with
    [mant] free of trailing zero digits (zero is [0 * 10 ^ 0]).  This is
    the value [JSON.parse] yields for every literal of at most 15
    significant digits; none of the functions below computes with
    numbers, they only carry them around and print them. *)

Record number : Set := mkNumber { mant : Z; expo : Z }.

Fixpoint strip_zeros (fuel : nat) (m e : Z) : number :=
  match fuel with
  | O => mkNumber m e
  | S fuel' =>
      if m =? 0 then mkNumber 0 0
      else if m mod 10 =? 0 then strip_zeros fuel' (m / 10) (e + 1)
      else mkNumber m e
  end.

Definition normalize (m e : Z) : number :=
  strip_zeros (S (Z.to_nat (Z.log2 (Z.abs m)))) m e.

Definition num_of_nat (n : nat) : number := normalize (Z.of_nat n) 0.

(** [Number::toString] (radix 10): [s] is the digit string of the
    mantissa, [k] its length and [n] the position of the decimal point. *)
Definition number_to_string (x : number) : string :=
  if mant x =? 0 then "0"
  else
    let s := Z_to_string (Z.abs (mant x)) in
    let k := Z.of_nat (String.length s) in
    let n := k + expo x in
    let sign := if mant x <? 0 then "-" else "" in
    sign ++
    (if (k <=? n) && (n <=? 21) then s ++ repeat_char "0" (Z.to_nat (n - k))
     else if (0 <? n) && (n <=? 21) then
       take (Z.to_nat n) s ++ "." ++ drop (Z.to_nat n) s
     else if (-6 <? n) && (n <=? 0) then
       "0." ++ repeat_char "0" (Z.to_nat (- n)) ++ s
     else
       let e := (if n - 1 <? 0 then "-" else "+") ++ Z_to_string (Z.abs (n - 1)) in
       if k =? 1 then s ++ "e" ++ e
       else take 1 s ++ "." ++ drop 1 s ++ "e" ++ e).

(* ================================================================= *)
(** ** JSON values *)

Unset Elimination Schemes.
Inductive Json : Set :=
| VNull
| VBool (b : bool)
| VNum (n : number)
| VStr (s : string)
| VArr (items : list Json)
| VObj (record : list (string * Json)).
Set Elimination Schemes.

(** An object is the list of its own properties in the order in which
    [Object.keys] enumerates them. *)
Definition props : Set := list (string * Json).

(** [value !== null && typeof value === 'object'] *)
Definition is_container (v : Json) : bool :=
  match v with
  | VArr _ | VObj _ => true
  | _ => false
  end.

(* ================================================================= *)
(** ** Ordinary objects: own properties and their order *)

(** An array index is a key [k] of decimal digits that is the canonical
    string of its own value, [ToString(ToUint32(k)) = k], the value
    being at most 2^32 - 2.  Own properties whose key is an array index
    are enumerated first, in ascending numeric order; all other string
    keys follow in the order in which they were created
    (OrdinaryOwnPropertyKeys). *)
Definition array_index (k : string) : option Z :=
  if all_digits k && Nat.leb (String.length k) 10 then
    let i := digits_value 0 k in
    if (i <=? 4294967294) && String.eqb (Z_to_string i) k then Some i else None
  else None.

Definition is_index (k : string) : bool :=
  match array_index k with Some _ => true | None => false end.

Definition keys (o : props) : list string := map fst o.

Fixpoint lookup (o : props) (k : string) : option Json :=
  match o with
  | [] => None
  | (k', v) :: r => if String.eqb k' k then Some v else lookup r k
  end.

(** [Object.prototype.hasOwnProperty.call(o, k)] *)
Definition hasOwnProperty (o : props) (k : string) : bool :=
  existsb (String.eqb k) (keys o).

(** [lookup_with f o k] is [f (o[k])] for an own property [k]: the value
    is found and handed to [f] in one traversal. *)
Fixpoint lookup_with {A : Type} (f : Json -> A) (o : props) (k : string)
  : option A :=
  match o with
  | [] => None
  | (k', v) :: r => if String.eqb k' k then Some (f v) else lookup_with f r k
  end.

Fixpoint replace (o : props) (k : string) (v : Json) : props :=
  match o with
  | [] => []
  | (k', v') :: r =>
      if String.eqb k' k then (k', v) :: r else (k', v') :: replace r k v
  end.

(** A new array-index key goes in front of the first key that is not a
    smaller array index. *)
Fixpoint insert_index (o : props) (i : Z) (k : string) (v : Json) : props :=
  match o with
  | [] => [(k, v)]
  | (k', v') :: r =>
      match array_index k' with
      | Some j => if j <? i then (k', v') :: insert_index r i k v
                  else (k, v) :: o
      | None => (k, v) :: o
      end
  end.

(** CreateDataProperty: an existing key keeps its place and takes the
    new value; a new key is placed by the enumeration order. *)
Definition define (o : props) (k : string) (v : Json) : props :=
  if hasOwnProperty o k then replace o k v
  else match array_index k with
       | Some i => insert_index o i k v
       | None => (o ++ [(k, v)])%list
       end.

(** [o[k] = v] on an object created by a literal [{}], for a key that
    is assigned once.  The key ["__proto__"] is not an own property of
    such an object: the assignment reaches the accessor of
    [Object.prototype], which changes (or ignores) the prototype and
    creates no own property. *)
Definition assign (o : props) (k : string) (v : Json) : props :=
  if String.eqb k "__proto__" then o else define o k v.

(** [o[k] = v] where a key can be assigned again.  The flag [setter]
    says that an assignment to ["__proto__"] still reaches the accessor
    of [Object.prototype]: it does until [null], or an object that has
    an own property ["__proto__"], is made the prototype; from then on
    the assignment creates an own property like any other. *)
Definition assign_tracked (st : props * bool) (k : string) (v : Json)
  : props * bool :=
  let (o, setter) := st in
  if String.eqb k "__proto__" && negb (hasOwnProperty o k) && setter then
    (o, match v with
        | VNull => false
        | VObj r => negb (hasOwnProperty r k)
        | _ => true
        end)
  else (define o k v, setter).

(** [{ ...target, ...source }]: the own properties of [source] are
    defined on [target] in enumeration order. *)
Definition spread (target source : props) : props :=
  fold_left (fun t kv => define t (fst kv) (snd kv)) source target.


(* ================================================================= *)
(** ** Runtime library: strings *)

(** The white space and line terminator characters of ECMAScript, in
    UTF-8: TAB, LF, VT, FF, CR, SP, U+00A0, U+1680, U+2000..U+200A,
    U+2028, U+2029, U+202F, U+205F, U+3000, U+FEFF. *)
Definition bytes (l : list Z) : string :=
  fold_right (fun b s => String (chr b) s) EmptyString l.

Definition js_whitespace : list string :=
  map bytes
    ([ [9]; [10]; [11]; [12]; [13]; [32]; [194; 160]; [225; 154; 128] ]
     ++ map (fun b => [226; 128; b]) [128; 129; 130; 131; 132; 133; 134; 135; 136; 137; 138]
     ++ [ [226; 128; 168]; [226; 128; 169]; [226; 128; 175]; [226; 129; 159];
          [227; 128; 128]; [239; 187; 191] ])%list.

(** The rest of [s] after one leading white space character, if any. *)
Definition strip_ws (s : string) : option string :=
  match find (fun w => String.prefix w s) js_whitespace with
  | Some w => Some (drop (String.length w) s)
  | None => None
  end.

Fixpoint trimStart_fuel (fuel : nat) (s : string) : string :=
  match fuel with
  | O => s
  | S fuel' =>
      match strip_ws s with
      | Some r => trimStart_fuel fuel' r
      | None => s
      end
  end.

(** [s.trimStart()] *)
Definition trimStart (s : string) : string := trimStart_fuel (String.length s) s.

(** [s.trimEnd()]: the longest prefix whose remainder is white space only. *)
Fixpoint trimEnd (s : string) : string :=
  match s with
  | EmptyString => EmptyString
  | String c r =>
      if String.eqb (trimStart s) EmptyString then EmptyString
      else String c (trimEnd r)
  end.

(** [s.trim()] *)
Definition trim (s : string) : string := trimEnd (trimStart s).

(** [key.split('.')] *)
Fixpoint split_dot (s : string) : list string :=
  match s with
  | EmptyString => [EmptyString]
  | String c r =>
      if Ascii.eqb c "." then EmptyString :: split_dot r
      else match split_dot r with
           | h :: t => String c h :: t
           | [] => [String c EmptyString]
           end
  end.

(* ================================================================= *)
(** ** Runtime library: [decodeURIComponent] *)

Definition hex_digit (c : ascii) : option Z :=
  let n := code c in
  if (48 <=? n) && (n <=? 57) then Some (n - 48)
  else if (65 <=? n) && (n <=? 70) then Some (n - 55)
  else if (97 <=? n) && (n <=? 102) then Some (n - 87)
  else None.

(** Reads one escape [%XX] at the head of [s]. *)
Definition pct_byte (s : string) : option (Z * string) :=
  match s with
  | String "%" (String h (String l r)) =>
      match hex_digit h, hex_digit l with
      | Some a, Some b => Some (16 * a + b, r)
      | _, _ => None
      end
  | _ => None
  end.

(** Reads [n] escapes that are UTF-8 continuation bytes (10xxxxxx). *)
Fixpoint pct_continuation (n : nat) (s : string) : option (list Z * string) :=
  match n with
  | O => Some ([], s)
  | S n' =>
      match pct_byte s with
      | Some (b, r) =>
          if Z.land b 192 =? 128 then
            match pct_continuation n' r with
            | Some (bs, r') => Some (b :: bs, r')
            | None => None
            end
          else None
      | None => None
      end
  end.

(** Number of bytes announced by the leading byte of a UTF-8 sequence. *)
Definition utf8_length (b : Z) : nat :=
  if Z.land b 224 =? 192 then 2%nat
  else if Z.land b 240 =? 224 then 3%nat
  else if Z.land b 248 =? 240 then 4%nat
  else 0%nat.

Definition utf8_code_point (b : Z) (rest : list Z) : Z :=
  fold_left (fun acc c => 64 * acc + Z.land c 63) rest
    (match utf8_length b with
     | 2%nat => Z.land b 31
     | 3%nat => Z.land b 15
     | _ => Z.land b 7
     end).

(** The sequence is the shortest encoding of a code point that is not a
    surrogate and not above U+10FFFF. *)
Definition utf8_valid (b : Z) (rest : list Z) : bool :=
  let cp := utf8_code_point b rest in
  match utf8_length b with
  | 2%nat => 128 <=? cp
  | 3%nat => (2048 <=? cp) && negb ((55296 <=? cp) && (cp <=? 57343))
  | 4%nat => (65536 <=? cp) && (cp <=? 1114111)
  | _ => false
  end.

Fixpoint decode_uri (fuel : nat) (s : string) : option string :=
  match fuel with
  | O => match s with EmptyString => Some EmptyString | _ => None end
  | S fuel' =>
      match s with
      | EmptyString => Some EmptyString
      | String c r =>
          if Ascii.eqb c "%" then
            match pct_byte s with
            | None => None
            | Some (b, r1) =>
                if b <? 128 then option_map (String (chr b)) (decode_uri fuel' r1)
                else
                  match utf8_length b with
                  | O => None
                  | S n =>
                      match pct_continuation n r1 with
                      | None => None
                      | Some (bs, r2) =>
                          if utf8_valid b bs
                          then option_map (append (bytes (b :: bs))) (decode_uri fuel' r2)
                          else None
                      end
                  end
            end
          else option_map (String c) (decode_uri fuel' r)
      end
  end.

(** [decodeURIComponent(s)]; [None] stands for the URIError it throws on
    a malformed escape sequence. *)
Definition decodeURIComponent (s : string) : option string :=
  decode_uri (String.length s) s.

(* ================================================================= *)
(** ** Runtime library: [JSON.parse] *)

Definition is_json_ws (c : ascii) : bool :=
  let n := code c in (n =? 32) || (n =? 9) || (n =? 10) || (n =? 13).

Fixpoint skip_ws (s : string) : string :=
  match s with
  | String c r => if is_json_ws c then skip_ws r else s
  | EmptyString => s
  end.

Definition utf8_encode (cp : Z) : string :=
  if cp <? 128 then bytes [cp]
  else if cp <? 2048 then bytes [192 + cp / 64; 128 + cp mod 64]
  else if cp <? 65536 then
    bytes [224 + cp / 4096; 128 + (cp / 64) mod 64; 128 + cp mod 64]
  else
    bytes [240 + cp / 262144; 128 + (cp / 4096) mod 64;
           128 + (cp / 64) mod 64; 128 + cp mod 64].

(** Four hexadecimal digits at the head of [s]. *)
Definition hex4 (s : string) : option (Z * string) :=
  match s with
  | String a (String b (String c (String d r))) =>
      match hex_digit a, hex_digit b, hex_digit c, hex_digit d with
      | Some x, Some y, Some z, Some w => Some (4096 * x + 256 * y + 16 * z + w, r)
      | _, _, _, _ => None
      end
  | _ => None
  end.

(** The code point written by the escape whose four digits start [s]
    (a surrogate pair is read as one code point). *)
Definition unicode_escape (s : string) : option (Z * string) :=
  match hex4 s with
  | None => None
  | Some (hi, r) =>
      if (55296 <=? hi) && (hi <=? 56319) then
        match r with
        | String "\" (String "u" r1) =>
            match hex4 r1 with
            | Some (lo, r2) =>
                if (56320 <=? lo) && (lo <=? 57343)
                then Some (65536 + 1024 * (hi - 55296) + (lo - 56320), r2)
                else Some (hi, r)
            | None => Some (hi, r)
            end
        | _ => Some (hi, r)
        end
      else Some (hi, r)
  end.

(** The characters of a string literal after its opening quote, and the
    text after its closing quote. *)
Fixpoint parse_string_body (fuel : nat) (s : string) : option (string * string) :=
  match fuel with
  | O => None
  | S fuel' =>
      match s with
      | EmptyString => None
      | String c r =>
          if Ascii.eqb c dq then Some (EmptyString, r)
          else if Ascii.eqb c "\" then
            match r with
            | EmptyString => None
            | String e r1 =>
                let simple (x : Z) :=
                  match parse_string_body fuel' r1 with
                  | Some (t, r2) => Some (String (chr x) t, r2)
                  | None => None
                  end in
                if Ascii.eqb e dq then simple 34
                else if Ascii.eqb e "\" then simple 92
                else if Ascii.eqb e "/" then simple 47
                else if Ascii.eqb e "b" then simple 8
                else if Ascii.eqb e "f" then simple 12
                else if Ascii.eqb e "n" then simple 10
                else if Ascii.eqb e "r" then simple 13
                else if Ascii.eqb e "t" then simple 9
                else if Ascii.eqb e "u" then
                  match unicode_escape r1 with
                  | Some (cp, r2) =>
                      match parse_string_body fuel' r2 with
                      | Some (t, r3) => Some (utf8_encode cp ++ t, r3)
                      | None => None
                      end
                  | None => None
                  end
                else None
            end
          else if code c <? 32 then None
          else
            match parse_string_body fuel' r with
            | Some (t, r1) => Some (String c t, r1)
            | None => None
            end
      end
  end.

Fixpoint span_digits (s : string) : string * string :=
  match s with
  | String c r =>
      if is_digit c then let (d, t) := span_digits r in (String c d, t)
      else (EmptyString, s)
  | EmptyString => (EmptyString, EmptyString)
  end.

(** A number literal: [-? int frac? exp?]. *)
Definition parse_number (s : string) : option (number * string) :=
  let (neg, s1) := match s with
                   | String "-" r => (true, r)
                   | _ => (false, s)
                   end in
  let (int, s2) := match s1 with
                   | String "0" r => ("0", r)
                   | _ => span_digits s1
                   end in
  if String.eqb int EmptyString then None
  else
    let frac := match s2 with
                | String "." r =>
                    let (d, t) := span_digits r in
                    if String.eqb d EmptyString then None else Some (d, t)
                | _ => Some (EmptyString, s2)
                end in
    match frac with
    | None => None
    | Some (fr, s3) =>
        let exp := match s3 with
                   | String c r =>
                       if Ascii.eqb c "e" || Ascii.eqb c "E" then
                         let (sg, r1) := match r with
                                         | String "-" t => (-1, t)
                                         | String "+" t => (1, t)
                                         | _ => (1, r)
                                         end in
                         let (d, t) := span_digits r1 in
                         if String.eqb d EmptyString then None
                         else Some (sg * digits_value 0 d, t)
                       else Some (0, s3)
                   | EmptyString => Some (0, s3)
                   end in
        match exp with
        | None => None
        | Some (ex, s4) =>
            let m := digits_value 0 (int ++ fr) in
            Some (normalize (if neg then - m else m)
                            (ex - Z.of_nat (String.length fr)), s4)
        end
    end.

Definition literal (w : string) (v : Json) (s : string) : option (Json * string) :=
  if String.prefix w s then Some (v, drop (String.length w) s) else None.

(** The text after the character [c] when [s] starts with it. *)
Definition after (c : ascii) (s : string) : option string :=
  match s with
  | String c' r => if Ascii.eqb c' c then Some r else None
  | EmptyString => None
  end.

(** One JSON value at the head of [s] (after white space), and the text
    after it.  The members of an object are defined in source order, so
    a repeated key keeps its first place and its last value. *)
Fixpoint parse_value (fuel : nat) (s : string) {struct fuel}
  : option (Json * string) :=
  match fuel with
  | O => None
  | S fuel' =>
      match skip_ws s with
      | EmptyString => None
      | String c r =>
          if Ascii.eqb c "{" then
            match after "}" (skip_ws r) with
            | Some r' => Some (VObj [], r')
            | None => parse_members fuel' r []
            end
          else if Ascii.eqb c "[" then
            match after "]" (skip_ws r) with
            | Some r' => Some (VArr [], r')
            | None => parse_elements fuel' r []
            end
          else if Ascii.eqb c dq then
            match parse_string_body (String.length r) r with
            | Some (t, r') => Some (VStr t, r')
            | None => None
            end
          else if Ascii.eqb c "t" then literal "true" (VBool true) (String c r)
          else if Ascii.eqb c "f" then literal "false" (VBool false) (String c r)
          else if Ascii.eqb c "n" then literal "null" VNull (String c r)
          else
            match parse_number (String c r) with
            | Some (n, r') => Some (VNum n, r')
            | None => None
            end
      end
  end
with parse_elements (fuel : nat) (s : string) (acc : list Json) {struct fuel}
  : option (Json * string) :=
  match fuel with
  | O => None
  | S fuel' =>
      match parse_value fuel' s with
      | Some (v, r) =>
          match after "," (skip_ws r) with
          | Some r' => parse_elements fuel' r' (acc ++ [v])%list
          | None =>
              match after "]" (skip_ws r) with
              | Some r' => Some (VArr (acc ++ [v])%list, r')
              | None => None
              end
          end
      | None => None
      end
  end
with parse_members (fuel : nat) (s : string) (acc : props) {struct fuel}
  : option (Json * string) :=
  match fuel with
  | O => None
  | S fuel' =>
      match after dq (skip_ws s) with
      | Some r =>
          match parse_string_body (String.length r) r with
          | Some (k, r1) =>
              match after ":" (skip_ws r1) with
              | Some r2 =>
                  match parse_value fuel' r2 with
                  | Some (v, r3) =>
                      match after "," (skip_ws r3) with
                      | Some r4 => parse_members fuel' r4 (define acc k v)
                      | None =>
                          match after "}" (skip_ws r3) with
                          | Some r4 => Some (VObj (define acc k v), r4)
                          | None => None
                          end
                      end
                  | None => None
                  end
              | None => None
              end
          | None => None
          end
      | None => None
      end
  end.

(** [JSON.parse(s)]; [None] stands for the SyntaxError it throws. *)
Definition JSON_parse (s : string) : option Json :=
  match parse_value (2 * String.length s + 2) s with
  | Some (v, r) => if String.eqb (skip_ws r) EmptyString then Some v else None
  | None => None
  end.

(* ================================================================= *)
(** ** jsonUtils.ts: key reordering *)

(** The body of the loop of [reorderJsonKeys] over [Object.keys(record)]:
    the buckets [(primitives, objects)] after one more entry. *)
Definition bucket_step (recurse : Json -> Json) (buckets : props * props)
           (entry : string * Json) : props * props :=
  let (primitives, objects) := buckets in
  let (key, value) := entry in
  if is_container value
  then (primitives, assign objects key (recurse value))
  else (assign primitives key value, objects).

(** [reorderJsonKeys(obj)]: the loop fills the two buckets and the
    result is [{ ...primitives, ...objects }]. *)
Fixpoint reorderJsonKeys (obj : Json) : Json :=
  match obj with
  | VArr items => VArr (map reorderJsonKeys items)
  | VObj record =>
      let buckets := fold_left (bucket_step reorderJsonKeys) record ([], []) in
      VObj (spread (spread [] (fst buckets)) (snd buckets))
  | _ => obj
  end.

(** [order.includes(key)] *)
Definition includes (order : list string) (key : string) : bool :=
  existsb (String.eqb key) order.

(** The body of the first loop of [applyCustomOrder], over [order]: a
    name can occur again in [order], so the prototype of [ordered] is
    tracked. *)
Definition ordered_step (recurse : Json -> Json) (record : props)
           (ordered : props * bool) (key : string) : props * bool :=
  match lookup_with recurse record key with
  | Some value' => assign_tracked ordered key value'
  | None => ordered
  end.

(** The body of its second loop, over [Object.keys(record)]. *)
Definition remaining_step (recurse : Json -> Json) (order : list string)
           (remaining : props) (entry : string * Json) : props :=
  let (key, value) := entry in
  if negb (includes order key)
  then assign remaining key (recurse value)
  else remaining.

(** [applyCustomOrder(obj, order)]: the first loop fills [ordered], the
    second [remaining]; the result is [{ ...ordered, ...remaining }]. *)
Fixpoint applyCustomOrder (obj : Json) (order : list string) : Json :=
  match obj with
  | VArr items => VArr (map (fun item => applyCustomOrder item order) items)
  | VObj record =>
      let recurse (value : Json) :=
        if is_container value then applyCustomOrder value order else value in
      let ordered :=
        fst (fold_left (ordered_step recurse record) order ([], true)) in
      let remaining := fold_left (remaining_step recurse order) record [] in
      VObj (spread (spread [] ordered) remaining)
  | _ => obj
  end.

(* ================================================================= *)
(** ** jsonUtils.ts: string decoding *)

(** [trimmed.length > 0 && (trimmed[0] === '{' || trimmed[0] === '[')] *)
Definition looks_like_json (trimmed : string) : bool :=
  match trimmed with
  | String c _ => Ascii.eqb c "{" || Ascii.eqb c "["
  | EmptyString => false
  end.

(** The percent-decoded form of a string leaf, the leaf itself when
    [decodeURIComponent] throws. *)
Definition decoded_of (s : string) : string :=
  match decodeURIComponent s with
  | Some decoded => decoded
  | None => s
  end.

(** [result[key] = recurse(record[key])], the body of the loop of
    [decodeUriStrings] over [Object.keys(record)]. *)
Definition assign_entry (recurse : Json -> Json) (result : props)
           (entry : string * Json) : props :=
  assign result (fst entry) (recurse (snd entry)).

(** [decodeUriStrings] with [budget] the number of embedded-JSON unwraps
    still allowed ([maxDepth] when it is positive, 0 otherwise).  The
    inner loop [walk] is the function at an unchanged budget.  The
    argument is data, so the branch for [undefined] has no counterpart:
    [JSON.parse] never yields it. *)
Fixpoint decode_with (budget : nat) (obj : Json) {struct budget} : Json :=
  match budget with
  | O => obj
  | S budget' =>
      (fix walk (obj : Json) : Json :=
         match obj with
         | VStr s =>
             let decoded := decoded_of s in
             if looks_like_json (trimStart decoded) then
               match JSON_parse decoded with
               | Some parsed => decode_with budget' parsed
               | None => VStr decoded
               end
             else VStr decoded
         | VArr items => VArr (map walk items)
         | VObj record =>
             VObj (fold_left (assign_entry walk) record [])
         | _ => obj
         end) obj
  end.

(** [decodeUriStrings(obj, maxDepth)] *)
Definition decodeUriStrings (obj : Json) (maxDepth : Z) : Json :=
  decode_with (Z.to_nat maxDepth) obj.

(** [decodeUriStrings(obj)]: [maxDepth] defaults to 10. *)
Definition decodeUriStrings_default (obj : Json) : Json :=
  decodeUriStrings obj 10.

(** The same computation, which also reports the largest number of
    embedded-JSON unwraps made along one path of recursive calls. *)
Fixpoint decode_traced (budget : nat) (obj : Json) {struct budget}
  : Json * nat :=
  match budget with
  | O => (obj, O)
  | S budget' =>
      (fix walk (obj : Json) : Json * nat :=
         match obj with
         | VStr s =>
             let decoded := decoded_of s in
             if looks_like_json (trimStart decoded) then
               match JSON_parse decoded with
               | Some parsed =>
                   let (r, n) := decode_traced budget' parsed in (r, S n)
               | None => (VStr decoded, O)
               end
             else (VStr decoded, O)
         | VArr items =>
             let rs := map walk items in
             (VArr (map fst rs), list_max (map snd rs))
         | VObj record =>
             let rs := map (fun entry : string * Json =>
                              (fst entry, walk (snd entry))) record in
             (VObj (fold_left
                      (fun (result : props) (e : string * (Json * nat)) =>
                         assign result (fst e) (fst (snd e)))
                      rs []),
              list_max (map (fun e : string * (Json * nat) => snd (snd e)) rs))
         | _ => (obj, O)
         end) obj
  end.

(* ================================================================= *)
(** ** Values at run time

    Besides the data that [JSON.parse] builds, a property access can
    yield [undefined] or a value of the engine itself (a built-in
    function or a prototype object reached through the prototype
    chain).  What the prototype chains hold depends on the engine and
    its version, so it is a parameter:
    - [inherited v k] is [v[k]] for a key [k] that is not an own
      property of the object or array [v], and every [v[k]] for a
      string, number or boolean [v] ([JUndefined] when no member has
      that name);
    - [host_get h k] is [h[k]] ([None] when a getter throws);
    - [host_to_string h] is [String(h)] ([None] when it throws). *)

Inductive jsval (host : Type) : Type :=
| JUndefined
| JData (v : Json)
| JHost (h : host).
Arguments JUndefined {host}.
Arguments JData {host} v.
Arguments JHost {host} h.

Record Engine : Type := mkEngine {
  host : Type;
  inherited : Json -> string -> jsval host;
  host_get : host -> string -> option (jsval host);
  host_to_string : host -> option string
}.

(** An engine whose prototype objects have no members. *)
Definition bare_engine : Engine :=
  {| host := Empty_set;
     inherited := fun _ _ => JUndefined;
     host_get := fun _ _ => Some JUndefined;
     host_to_string := fun _ => None |}.

(** [String(v)] for data; [None] stands for the TypeError thrown when an
    object cannot be converted to a primitive.
    - An array is converted by [Array.prototype.join]: [null] elements
      give the empty string, the others are converted in turn.
    - An object is converted by [Object.prototype.toString] unless it
      has an own property [toString]: its value is data, hence not
      callable, [valueOf] does not yield a primitive either, and the
      conversion throws. *)
Fixpoint to_string (v : Json) : option string :=
  match v with
  | VNull => Some "null"
  | VBool b => Some (if b then "true" else "false")
  | VNum n => Some (number_to_string n)
  | VStr s => Some s
  | VArr items =>
      (fix join (items : list Json) : option string :=
         match items with
         | [] => Some EmptyString
         | x :: rest =>
             match (match x with VNull => Some EmptyString | _ => to_string x end) with
             | None => None
             | Some a =>
                 match rest with
                 | [] => Some a
                 | _ :: _ =>
                     match join rest with
                     | Some b => Some (a ++ "," ++ b)
                     | None => None
                     end
                 end
             end
         end) items
  | VObj record =>
      if hasOwnProperty record "toString" then None
      else Some "[object Object]"
  end.

(** The string an array element contributes to [join]. *)
Definition element_string (x : Json) : option string :=
  match x with
  | VNull => Some EmptyString
  | _ => to_string x
  end.

Section Filtering.
Variable E : Engine.

(** [String(value)] *)
Definition String_of (v : jsval (host E)) : option string :=
  match v with
  | JUndefined => Some "undefined"
  | JData d => to_string d
  | JHost h => host_to_string E h
  end.

(** [value[k]] for a [value] that is neither [null] nor [undefined]. *)
Definition get_member (v : Json) (k : string) : jsval (host E) :=
  match v with
  | VObj record =>
      match lookup record k with
      | Some x => JData x
      | None => inherited E v k
      end
  | VArr items =>
      match array_index k with
      | Some i =>
          match nth_error items (Z.to_nat i) with
          | Some x => JData x
          | None => inherited E v k
          end
      | None =>
          if String.eqb k "length"
          then JData (VNum (num_of_nat (List.length items)))
          else inherited E v k
      end
  | _ => inherited E v k
  end.

(** The loop of [getNestedValue] over the segments still to resolve;
    [None] stands for an exception thrown by a getter. *)
Fixpoint walk_path (value : jsval (host E)) (segments : list string)
  : option (jsval (host E)) :=
  match segments with
  | [] => Some value
  | k :: rest =>
      match value with
      | JUndefined | JData VNull => Some JUndefined
      | JData v => walk_path (get_member v k) rest
      | JHost h =>
          match host_get E h k with
          | Some value' => walk_path value' rest
          | None => None
          end
      end
  end.

(** [getNestedValue(obj, key)] *)
Definition getNestedValue (obj : jsval (host E)) (key : string)
  : option (jsval (host E)) :=
  walk_path obj (split_dot key).
End Filtering.

(* ================================================================= *)
(** ** filterUtils.ts *)

Record Filter : Set := mkFilter { key : string; value : string }.

Section FilterUtils.
Variable E : Engine.

(** The test of one filter in the loop of [matchesAllFilters]:
    [Some false] when the body returns [false], [Some true] when the
    loop goes on, [None] when an exception is thrown. *)
Definition filter_passes (json : jsval (host E)) (filter : Filter)
  : option bool :=
  match getNestedValue E json (key filter) with
  | None => None
  | Some JUndefined => Some false
  | Some found =>
      match String_of E found with
      | None => None
      | Some s => Some (String.eqb s (value filter))
      end
  end.

(** [matchesAllFilters(json, filters)] *)
Fixpoint matchesAllFilters (json : jsval (host E)) (filters : list Filter)
  : option bool :=
  match filters with
  | [] => Some true
  | filter :: rest =>
      match filter_passes json filter with
      | Some true => matchesAllFilters json rest
      | Some false => Some false
      | None => None
      end
  end.

(** The body of the loop of [filterLines]: [result] after [line]. *)
Definition filterLines_step (filters : list Filter) (result : list string)
           (line : string) : list string :=
  let trimmed := trim line in
  if String.eqb trimmed EmptyString then result
  else
    match JSON_parse trimmed with
    | Some json =>
        match matchesAllFilters (JData json) filters with
        | Some true => (result ++ [trimmed])%list
        | Some false => result
        | None => result
        end
    | None => result
    end.

(** [filterLines(lines, filters)] *)
Definition filterLines (lines : list string) (filters : list Filter)
  : list string :=
  fold_left (filterLines_step filters) lines [].
End FilterUtils.

(* ================================================================= *)
(** ** PreviewPanel.update: what is handed to the renderer *)

Record PreviewState : Set := mkPreviewState {
  reorderKeys : bool;
  wordWrap : bool;
  uriDecode : bool;
  customOrder : list string;
  activeFilters : list Filter
}.

Inductive Rendered : Set :=
| EmptyLine
| ParseFailure
| Parsed (json : Json).

(** The [json] option passed to [getWebviewContent] for the text of the
    selected line. *)
Definition update (state : PreviewState) (text : string) : Rendered :=
  let lineText := trim text in
  if String.eqb lineText EmptyString then EmptyLine
  else
    match JSON_parse lineText with
    | None => ParseFailure
    | Some json =>
        let json :=
          if (0 <? List.length (customOrder state))%nat
          then applyCustomOrder json (customOrder state)
          else if reorderKeys state then reorderJsonKeys json
          else json in
        let json :=
          if uriDecode state then decodeUriStrings_default json else json in
        Parsed json
    end.

(* ================================================================= *)
(** ** Notions used to state the properties *)

(** Induction over JSON values, with the hypothesis available for every
    element of an array and every member of an object. *)
Fixpoint Json_ind (P : Json -> Prop)
    (Hnull : P VNull)
    (Hbool : forall b, P (VBool b))
    (Hnum : forall n, P (VNum n))
    (Hstr : forall s, P (VStr s))
    (Harr : forall items, Forall P items -> P (VArr items))
    (Hobj : forall record, Forall (fun e => P (snd e)) record -> P (VObj record))
    (v : Json) {struct v} : P v :=
  let rec := Json_ind P Hnull Hbool Hnum Hstr Harr Hobj in
  match v with
  | VNull => Hnull
  | VBool b => Hbool b
  | VNum n => Hnum n
  | VStr s => Hstr s
  | VArr items =>
      Harr items
        ((fix all (l : list Json) : Forall P l :=
            match l with
            | [] => Forall_nil P
            | x :: r => Forall_cons x (rec x) (all r)
            end) items)
  | VObj record =>
      Hobj record
        ((fix all (l : list (string * Json)) : Forall (fun e => P (snd e)) l :=
            match l with
            | [] => Forall_nil _
            | e :: r => Forall_cons e (rec (snd e)) (all r)
            end) record)
  end.

(** The members of an object value (none for other values). *)
Definition members (v : Json) : props :=
  match v with
  | VObj record => record
  | _ => []
  end.

(** Keys that are neither array indices nor ["__proto__"]: the keys for
    which creation order is enumeration order and assignment creates an
    own property. *)
Definition is_plain (k : string) : bool :=
  negb (is_index k) && negb (String.eqb k "__proto__").

Definition plain_keys (o : props) : list string := filter is_plain (keys o).

(** [l] without the later occurrences of repeated entries. *)
Fixpoint dedup (l : list string) : list string :=
  match l with
  | [] => []
  | k :: r => k :: filter (fun x => negb (String.eqb x k)) (dedup r)
  end.

(** [k1] occurs in [l] at a smaller position than some occurrence of [k2]. *)
Fixpoint occurs_before (l : list string) (k1 k2 : string) : bool :=
  match l with
  | [] => false
  | x :: r =>
      (String.eqb x k1 && existsb (String.eqb k2) r) || occurs_before r k1 k2
  end.

(** No object at any depth has a key ["__proto__"]. *)
Fixpoint proto_free (v : Json) : bool :=
  match v with
  | VArr items => forallb proto_free items
  | VObj record =>
      forallb (fun e : string * Json =>
                 negb (String.eqb (fst e) "__proto__") && proto_free (snd e))
              record
  | _ => true
  end.

(** The lines [filterLines] is specified to keep. *)
Definition selected (E : Engine) (filters : list Filter) (line : string) : bool :=
  negb (String.eqb (trim line) EmptyString)
  && match JSON_parse (trim line) with
     | Some json =>
         match matchesAllFilters E (JData json) filters with
         | Some true => true
         | _ => false
         end
     | None => false
     end.

(** Every property written by a loop is the image of the member of
    [record] with the same key. *)
Definition image_of_member (recurse : Json -> Json) (record : props)
           (e : string * Json) : Prop :=
  exists v, lookup record (fst e) = Some v /\ snd e = recurse v.

(** A plain key of [record] that [acc] does not hold yet. *)
Definition fresh_plain (record acc : props) (k : string) : bool :=
  is_plain k && hasOwnProperty record k && negb (hasOwnProperty acc k).

(** The members with a primitive value, and those with a container. *)
Definition primitive_members (o : props) : props :=
  filter (fun e => negb (is_container (snd e))) o.

Definition container_members (o : props) : props :=
  filter (fun e => is_container (snd e)) o.

(** The segment holds no dot: [split('.')] leaves it whole. *)
Fixpoint dot_free (s : string) : bool :=
  match s with
  | EmptyString => true
  | String c r => negb (Ascii.eqb c ".") && dot_free r
  end.

(** The value of a JSON text written with apostrophes ([VNull] if it
    does not parse), and integer numbers, to write examples. *)
Definition parsed (text : string) : Json :=
  match JSON_parse (js text) with
  | Some v => v
  | None => VNull
  end.

Definition num (z : Z) : Json := VNum (normalize z 0).

(** [k] may stand before [k'] in the enumeration of own keys. *)
Definition key_before (k k' : string) : bool :=
  match array_index k, array_index k' with
  | Some i, Some j => i <? j
  | Some _, None => true
  | None, Some _ => false
  | None, None => true
  end.

(** The list is in the order of [Object.keys]: array indices first, in
    ascending order. *)
Fixpoint enumeration_order (l : list string) : bool :=
  match l with
  | [] => true
  | k :: r => forallb (key_before k) r && enumeration_order r
  end.

(** The values that stand for JavaScript data: in every object, at
    every depth, the keys are pairwise distinct and listed in
    enumeration order. *)
Unset Elimination Schemes.
Inductive well_formed : Json -> Prop :=
| wf_null : well_formed VNull
| wf_bool (b : bool) : well_formed (VBool b)
| wf_num (n : number) : well_formed (VNum n)
| wf_str (s : string) : well_formed (VStr s)
| wf_arr (items : list Json) :
    Forall well_formed items -> well_formed (VArr items)
| wf_obj (record : props) :
    NoDup (keys record) ->
    enumeration_order (keys record) = true ->
    Forall (fun e => well_formed (snd e)) record ->
    well_formed (VObj record).
Set Elimination Schemes.

(** [map_strings g v] replaces every string leaf [s] of [v] by [g s] and
    leaves everything else, keys and their order included, as it is. *)
Fixpoint map_strings (g : string -> Json) (v : Json) : Json :=
  match v with
  | VStr s => g s
  | VArr items => VArr (map (map_strings g) items)
  | VObj record => VObj (map (fun e => (fst e, map_strings g (snd e))) record)
  | _ => v
  end.

(** [out] lists the keys of [record] as the order list asks: among the
    keys that are neither array indices nor ["__proto__"], the keys
    named in the list stand in the sequence of their first occurrences
    in it and before the keys it does not name, which keep their
    relative order; no key is invented or repeated and no key other
    than ["__proto__"] is lost. *)
Definition custom_precedence (order : list string) (record out : props) : Prop :=
  (forall k1 k2,
      is_plain k1 = true -> is_plain k2 = true ->
      In k1 (keys record) -> In k2 (keys record) ->
      occurs_before (dedup order) k1 k2 = true ->
      occurs_before (keys out) k1 k2 = true)
  /\ (forall k1 k2,
      is_plain k1 = true -> is_plain k2 = true ->
      In k1 (keys record) -> In k2 (keys record) ->
      In k1 order -> ~ In k2 order ->
      occurs_before (keys out) k1 k2 = true)
  /\ (forall k1 k2,
      is_plain k1 = true -> is_plain k2 = true ->
      ~ In k1 order -> ~ In k2 order ->
      occurs_before (keys record) k1 k2 = true ->
      occurs_before (keys out) k1 k2 = true)
  /\ (forall k, In k (keys out) -> In k (keys record))
  /\ (forall k, In k (keys record) -> k <> "__proto__" -> In k (keys out))
  /\ NoDup (keys out).

(** [v'] is [v] with every object, at every depth, inside objects and
    inside arrays, reordered as the order list asks: a primitive is
    unchanged, an array has the same length and its elements are related
    one by one, and an object satisfies [custom_precedence] while each
    of its keys holds a value related to the original value. *)
Unset Elimination Schemes.
Inductive custom_ordered (order : list string) : Json -> Json -> Prop :=
| co_primitive (v : Json) :
    is_container v = false -> custom_ordered order v v
| co_array (items items' : list Json) :
    Forall2 (custom_ordered order) items items' ->
    custom_ordered order (VArr items) (VArr items')
| co_object (record out : props) :
    custom_precedence order record out ->
    (forall k v', lookup out k = Some v' ->
                  exists v, lookup record k = Some v /\ custom_ordered order v v') ->
    custom_ordered order (VObj record) (VObj out).
Set Elimination Schemes.

(* ================================================================= *)
(** ** [src/utils/htmlUtils.ts] *)

(** [text.replace(/c/g, rep)] for a pattern of one character and a
    replacement text without [$]: every occurrence of [c] is replaced,
    left to right, and what was inserted is not scanned again. *)
Fixpoint replace_all (c : ascii) (rep : string) (text : string) : string :=
  match text with
  | EmptyString => EmptyString
  | String x r =>
      if Ascii.eqb x c then rep ++ replace_all c rep r
      else String x (replace_all c rep r)
  end.

(** [escapeHtml(text)]: the five replacements, in the order in which
    the source chains them. *)
Definition escapeHtml (text : string) : string :=
  replace_all "'" "&#039;"
    (replace_all dq "&quot;"
       (replace_all ">" "&gt;"
          (replace_all "<" "&lt;"
             (replace_all "&" "&amp;" text)))).

(** [escapeJsonForHtml(jsonString)]: the replacement text is the six
    characters of the JSON escape of [<]. *)
Definition escapeJsonForHtml (jsonString : string) : string :=
  replace_all "<" "\u003c" jsonString.

(** *** Notions used to state the properties of the escaping functions *)

(** The five characters [escapeHtml] looks for. *)
Definition html_special (c : ascii) : bool :=
  Ascii.eqb c "&" || Ascii.eqb c "<" || Ascii.eqb c ">" ||
  Ascii.eqb c dq || Ascii.eqb c "'".

(** The entity that stands for a character, in one pass. *)
Definition entity_of (c : ascii) : string :=
  if Ascii.eqb c "&" then "&amp;"
  else if Ascii.eqb c "<" then "&lt;"
  else if Ascii.eqb c ">" then "&gt;"
  else if Ascii.eqb c dq then "&quot;"
  else if Ascii.eqb c "'" then "&#039;"
  else String c EmptyString.

(** The text with each character replaced by its entity, in one pass. *)
Fixpoint escape_each (text : string) : string :=
  match text with
  | EmptyString => EmptyString
  | String c r => entity_of c ++ escape_each r
  end.

(** The character [c] occurs in the text. *)
Fixpoint occurs (c : ascii) (text : string) : bool :=
  match text with
  | EmptyString => false
  | String x r => Ascii.eqb x c || occurs c r
  end.

(** One of the five characters occurs in the text. *)
Fixpoint has_special (text : string) : bool :=
  match text with
  | EmptyString => false
  | String x r => html_special x || has_special r
  end.

Definition entities : list string :=
  ["&amp;"; "&lt;"; "&gt;"; "&quot;"; "&#039;"].

(** [p] is a prefix of the text. *)
Fixpoint starts_with (p text : string) : bool :=
  match p, text with
  | EmptyString, _ => true
  | String a p', String b r => Ascii.eqb a b && starts_with p' r
  | String _ _, EmptyString => false
  end.

(** Every ampersand of the text starts one of the five entities. *)
Fixpoint ampersands_are_entities (text : string) : bool :=
  match text with
  | EmptyString => true
  | String c r =>
      (if Ascii.eqb c "&"
       then existsb (fun e => starts_with e text) entities
       else true)
      && ampersands_are_entities r
  end.

(** *** Notions used to state the properties of the reordering functions *)

(** The key holds a primitive value in [record]. *)
Definition holds_primitive (record : props) (k : string) : bool :=
  match lookup record k with
  | Some v => negb (is_container v)
  | None => false
  end.

(** The names of [order] that are own keys of [record], each once, in
    the sequence of their first occurrences. *)
Definition named_keys (order : list string) (record : props) : list string :=
  filter (hasOwnProperty record) (dedup order).

(** Two order lists name the same keys in the same sequence, for every
    object of the value. *)
Fixpoint same_named_keys (order order' : list string) (v : Json) : bool :=
  match v with
  | VArr items => forallb (same_named_keys order order') items
  | VObj record =>
      (if list_eq_dec string_dec (named_keys order record) (named_keys order' record)
       then true else false)
      && forallb (fun e : string * Json => same_named_keys order order' (snd e)) record
  | _ => true
  end.

(** *** Notions used to state the properties of [decodeUriStrings] *)

(** A string that decoding leaves alone: it holds no percent sign and
    does not start, after white space, with a brace or a bracket. *)
Definition plain_string (s : string) : bool :=
  negb (occurs "%" s) && negb (looks_like_json (trimStart s)).

(** Every string leaf of the value is a plain string. *)
Fixpoint plain_leaves (v : Json) : bool :=
  match v with
  | VStr s => plain_string s
  | VArr items => forallb plain_leaves items
  | VObj record => forallb (fun e : string * Json => plain_leaves (snd e)) record
  | _ => true
  end.

(* ================================================================= *)
(** ** [src/preview/previewPanel.ts]: the panel and the messages of the
       webview

    The panel keeps a reference to the editor it rendered last and reads
    the document and the cursor of that editor again whenever it
    renders, so an editor is an identity ([nat]) and what the editors
    hold at the time of a call is an argument of the call.  The
    decorations, the library URIs and what [createFilteredView] does
    after its first [await] (the document handle it keeps, the editor it
    shows, the information message) are left out. *)

Record TextEditor : Set := mkTextEditor {
  document : list string;
  selection : nat
}.

(** [editor.document.lineAt(editor.selection.active.line).text] *)
Definition lineAt (editor : TextEditor) : string :=
  nth (selection editor) (document editor) EmptyString.

(** The options [update] hands to [getWebviewContent]; [json] stands
    for the fields [json] and [isError]. *)
Record WebviewContentOptions : Set := mkOptions {
  json : Rendered;
  lineNumber : nat;
  reorderEnabled : bool;
  wordWrapEnabled : bool;
  uriDecodeEnabled : bool;
  customOrder_option : list string;
  filters_option : list Filter
}.

(** A message of the webview, by its [command]. *)
Inductive Message : Set :=
| toggleReorder (value : bool)
| toggleWordWrap (value : bool)
| toggleUriDecode (value : bool)
| setCustomOrder (value : list string)
| setFilters (value : list Filter)
| other_command.

(** The line feed and the carriage return. *)
Definition LF : ascii := "010"%char.
Definition CR : ascii := "013"%char.

(** What the panel asks the window to do about the filtered view:
    [vscode.workspace.openTextDocument({ content, language: 'jsonl' })]
    with the text [content], or a call of [closeFilteredView()]. *)
Inductive Request : Set :=
| openTextDocument (content : string)
| closeFilteredView.

Record PreviewPanel : Set := mkPreviewPanel {
  state : PreviewState;
  globalState : option (list string);
  panel : bool;
  lastEditor : option nat;
  html : option WebviewContentOptions;
  requests : list Request
}.

(** [new PreviewPanel(context)], for what [context.globalState] holds
    under ['ndjson-preview.customOrder']. *)
Definition constructor (stored : option (list string)) : PreviewPanel :=
  {| state := {| reorderKeys := false;
                 wordWrap := false;
                 uriDecode := false;
                 customOrder := match stored with Some order => order | None => [] end;
                 activeFilters := [] |};
     globalState := stored;
     panel := false;
     lastEditor := None;
     html := None;
     requests := [] |}.

Definition with_state (p : PreviewPanel) (s : PreviewState) : PreviewPanel :=
  {| state := s; globalState := globalState p; panel := panel p;
     lastEditor := lastEditor p; html := html p; requests := requests p |}.

Definition with_request (p : PreviewPanel) (r : Request) : PreviewPanel :=
  {| state := state p; globalState := globalState p; panel := panel p;
     lastEditor := lastEditor p; html := html p;
     requests := (requests p ++ [r])%list |}.

Section Panel.
Variable E : Engine.
(** What each editor holds now. *)
Variable editors : nat -> TextEditor.

(** [update(editor)] *)
Definition PreviewPanel_update (p : PreviewPanel) (editor : nat) : PreviewPanel :=
  if panel p then
    {| state := state p; globalState := globalState p; panel := panel p;
       lastEditor := Some editor;
       html := Some {| json := update (state p) (lineAt (editors editor));
                       lineNumber := selection (editors editor) + 1;
                       reorderEnabled := reorderKeys (state p);
                       wordWrapEnabled := wordWrap (state p);
                       uriDecodeEnabled := uriDecode (state p);
                       customOrder_option := customOrder (state p);
                       filters_option := activeFilters (state p) |};
       requests := requests p |}
  else p.

(** [show()], for the active text editor of the window. *)
Definition show (p : PreviewPanel) (activeTextEditor : option nat) : PreviewPanel :=
  match activeTextEditor with
  | None => p
  | Some editor =>
      PreviewPanel_update
        {| state := state p; globalState := globalState p; panel := true;
           lastEditor := lastEditor p; html := html p; requests := requests p |}
        editor
  end.

(** The callback of [panel.onDidDispose]. *)
Definition onDidDispose (p : PreviewPanel) : PreviewPanel :=
  {| state := state p; globalState := globalState p; panel := false;
     lastEditor := lastEditor p; html := None; requests := requests p |}.

(** [createFilteredView(editor)], up to its first [await]: the text
    of every line of the document is collected, and the document
    asked for holds [filteredResult.join('\n')]. *)
Definition createFilteredView (p : PreviewPanel) (editor : nat) : PreviewPanel :=
  let lines := document (editors editor) in
  let filteredResult := filterLines E lines (activeFilters (state p)) in
  let content := String.concat (String LF EmptyString) filteredResult in
  with_request p (openTextDocument content).

(** [if (this.lastEditor) { this.update(this.lastEditor); }] *)
Definition refresh (p : PreviewPanel) : PreviewPanel :=
  match lastEditor p with
  | Some editor => PreviewPanel_update p editor
  | None => p
  end.

(** [handleMessage(message)] *)
Definition handleMessage (p : PreviewPanel) (message : Message) : PreviewPanel :=
  let s := state p in
  match message with
  | toggleReorder value =>
      refresh (with_state p {| reorderKeys := value; wordWrap := wordWrap s;
                               uriDecode := uriDecode s;
                               customOrder := customOrder s;
                               activeFilters := activeFilters s |})
  | toggleWordWrap value =>
      refresh (with_state p {| reorderKeys := reorderKeys s; wordWrap := value;
                               uriDecode := uriDecode s;
                               customOrder := customOrder s;
                               activeFilters := activeFilters s |})
  | toggleUriDecode value =>
      refresh (with_state p {| reorderKeys := reorderKeys s; wordWrap := wordWrap s;
                               uriDecode := value;
                               customOrder := customOrder s;
                               activeFilters := activeFilters s |})
  | setCustomOrder value =>
      let p1 := with_state p {| reorderKeys := reorderKeys s; wordWrap := wordWrap s;
                                uriDecode := uriDecode s;
                                customOrder := value;
                                activeFilters := activeFilters s |} in
      refresh {| state := state p1; globalState := Some value; panel := panel p1;
                 lastEditor := lastEditor p1; html := html p1;
                 requests := requests p1 |}
  | setFilters value =>
      let p1 := with_state p {| reorderKeys := reorderKeys s; wordWrap := wordWrap s;
                                uriDecode := uriDecode s;
                                customOrder := customOrder s;
                                activeFilters := value |} in
      match lastEditor p1 with
      | Some editor =>
          let p2 := if (0 <? List.length value)%nat
                    then createFilteredView p1 editor
                    else with_request p1 closeFilteredView in
          PreviewPanel_update p2 editor
      | None => p1
      end
  | other_command => p
  end.
End Panel.

(** One thing that happens to the panel: a command or an event of the
    window (with what the editors hold at that time), or a message of
    the webview. *)
Inductive Event : Type :=
| ev_show (editors : nat -> TextEditor) (activeTextEditor : option nat)
| ev_update (editors : nat -> TextEditor) (editor : nat)
| ev_message (editors : nat -> TextEditor) (message : Message)
| ev_dispose.

Definition react (E : Engine) (p : PreviewPanel) (e : Event) : PreviewPanel :=
  match e with
  | ev_show editors activeTextEditor => show editors p activeTextEditor
  | ev_update editors editor => PreviewPanel_update editors p editor
  | ev_message editors message => handleMessage E editors p message
  | ev_dispose => onDidDispose p
  end.

(** The panel after a sequence of events. *)
Definition run (E : Engine) (stored : option (list string)) (events : list Event)
  : PreviewPanel :=
  fold_left (react E) events (constructor stored).

(** *** Notions used to state the properties of the panel *)

(** A window for examples: every editor shows the same four lines,
    with the cursor on the second. *)
Definition sample_editors (_ : nat) : TextEditor :=
  {| document := [js "{'s':'on','n':1}"; js " {'n':2,'s':'on'} ";
                  js "{'s':'off'}"; "-"];
     selection := 1 |}.

(** The lines of a document that holds the text [content], as the
    editor splits it: at every line feed, carriage return followed by
    line feed, and lone carriage return.  The empty text is one empty
    line. *)
Fixpoint text_lines (content : string) : list string :=
  match content with
  | EmptyString => [EmptyString]
  | String c r =>
      if Ascii.eqb c LF then EmptyString :: text_lines r
      else if Ascii.eqb c CR then
        match r with
        | String c' r' =>
            if Ascii.eqb c' LF then EmptyString :: text_lines r'
            else EmptyString :: text_lines r
        | EmptyString => EmptyString :: text_lines r
        end
      else
        match text_lines r with
        | h :: t => String c h :: t
        | [] => [String c EmptyString]
        end
  end.

(** The text holds no line break, as the text of a line of a document
    does. *)
Definition break_free (s : string) : bool :=
  negb (occurs LF s) && negb (occurs CR s).

(** The documents an event reads are lists of lines. *)
Definition documents_of_lines (e : Event) : Prop :=
  match e with
  | ev_message editors _ =>
      forall editor, Forall (fun l => break_free l = true) (document (editors editor))
  | _ => True
  end.

(** The document asked for is empty, or every one of its lines is a
    trimmed, non-empty text that parses as JSON. *)
Definition sound_request (r : Request) : Prop :=
  match r with
  | openTextDocument content =>
      content = EmptyString
      \/ Forall (fun l => trim l = l /\ l <> EmptyString
                          /\ exists json, JSON_parse l = Some json)
                (text_lines content)
  | closeFilteredView => True
  end.


(* ================================================================= *)
(** * Properties *)

Local Open Scope list_scope.

(** ** Own properties under [define], [assign] and [spread] *)

Lemma hasOwnProperty_In (o : props) (k : string) :
  hasOwnProperty o k = true <-> In k (keys o).
Proof.
  unfold hasOwnProperty. rewrite existsb_exists. split.
  - intros (x & Hin & Heq). apply String.eqb_eq in Heq. now subst.
  - intros Hin. exists k. split; [assumption | apply String.eqb_refl].
Qed.

Lemma hasOwnProperty_false (o : props) (k : string) :
  hasOwnProperty o k = false <-> ~ In k (keys o).
Proof.
  rewrite <- hasOwnProperty_In. destruct (hasOwnProperty o k); split; congruence.
Qed.

Lemma includes_In (order : list string) (k : string) :
  includes order k = true <-> In k order.
Proof.
  unfold includes. rewrite existsb_exists. split.
  - intros (x & Hin & Heq). apply String.eqb_eq in Heq. now subst.
  - intros Hin. exists k. split; [assumption | apply String.eqb_refl].
Qed.

Lemma keys_replace (o : props) (k : string) (v : Json) :
  keys (replace o k v) = keys o.
Proof.
  induction o as [| [k' v'] r IH]; simpl; [reflexivity |].
  destruct (String.eqb k' k); simpl; [reflexivity | now rewrite IH].
Qed.

Lemma keys_app (a b : props) : keys (a ++ b) = (keys a ++ keys b)%list.
Proof. apply map_app. Qed.

Lemma keys_insert_index_perm (o : props) (i : Z) (k : string) (v : Json) :
  Permutation (keys (insert_index o i k v)) (k :: keys o).
Proof.
  induction o as [| [k' v'] r IH]; simpl; [reflexivity |].
  destruct (array_index k') as [j |]; [| reflexivity].
  destruct (j <? i); [| reflexivity].
  simpl. rewrite IH. apply perm_swap.
Qed.

Lemma filter_keys_insert_index (P : string -> bool) (o : props) (i : Z)
      (k : string) (v : Json) :
  P k = false ->
  filter P (keys (insert_index o i k v)) = filter P (keys o).
Proof.
  intros Hk. induction o as [| [k' v'] r IH]; simpl.
  - now rewrite Hk.
  - destruct (array_index k') as [j |].
    + destruct (j <? i); simpl; [now rewrite IH | now rewrite Hk].
    + simpl. now rewrite Hk.
Qed.

Lemma is_plain_not_index (k : string) (i : Z) :
  array_index k = Some i -> is_plain k = false.
Proof. intros H. unfold is_plain, is_index. now rewrite H. Qed.

Lemma In_keys_define (o : props) (k : string) (v : Json) (k' : string) :
  In k' (keys (define o k v)) <-> k' = k \/ In k' (keys o).
Proof.
  unfold define. destruct (hasOwnProperty o k) eqn:Hown.
  - rewrite keys_replace. apply hasOwnProperty_In in Hown.
    split; [auto | intros [-> | H]; assumption].
  - destruct (array_index k) as [i |].
    + split; intros H.
      * apply (Permutation_in _ (keys_insert_index_perm o i k v)) in H.
        destruct H; auto.
      * apply (Permutation_in _ (Permutation_sym (keys_insert_index_perm o i k v))).
        destruct H; [left | right]; auto.
    + rewrite keys_app, in_app_iff. simpl. intuition.
Qed.

Lemma NoDup_keys_define (o : props) (k : string) (v : Json) :
  NoDup (keys o) -> NoDup (keys (define o k v)).
Proof.
  intros Hnd. unfold define. destruct (hasOwnProperty o k) eqn:Hown.
  - now rewrite keys_replace.
  - apply hasOwnProperty_false in Hown. destruct (array_index k) as [i |].
    + apply (Permutation_NoDup (Permutation_sym (keys_insert_index_perm o i k v))).
      now constructor.
    + rewrite keys_app. simpl. apply NoDup_app; [assumption | repeat constructor; auto |].
      intros x Hx [<- | []]. contradiction.
Qed.

Lemma plain_keys_define (o : props) (k : string) (v : Json) :
  plain_keys (define o k v) =
  if is_plain k && negb (hasOwnProperty o k)
  then (plain_keys o ++ [k])%list else plain_keys o.
Proof.
  unfold plain_keys, define. destruct (hasOwnProperty o k) eqn:Hown.
  - rewrite keys_replace, andb_false_r. reflexivity.
  - rewrite andb_true_r. destruct (array_index k) as [i |] eqn:Hidx.
    + rewrite (is_plain_not_index _ _ Hidx).
      apply filter_keys_insert_index, (is_plain_not_index _ _ Hidx).
    + rewrite keys_app, filter_app. simpl.
      destruct (is_plain k); [reflexivity | apply app_nil_r].
Qed.

Lemma is_plain_proto : is_plain "__proto__" = false.
Proof. reflexivity. Qed.

Lemma assign_proto (o : props) (v : Json) : assign o "__proto__" v = o.
Proof. reflexivity. Qed.

Lemma assign_other (o : props) (k : string) (v : Json) :
  k <> "__proto__" -> assign o k v = define o k v.
Proof.
  intros H. unfold assign. apply String.eqb_neq in H. now rewrite H.
Qed.

Lemma is_plain_not_proto (k : string) : is_plain k = true -> k <> "__proto__".
Proof.
  unfold is_plain. intros H ->. now rewrite andb_false_r in H.
Qed.

Lemma plain_keys_assign (o : props) (k : string) (v : Json) :
  plain_keys (assign o k v) =
  if is_plain k && negb (hasOwnProperty o k)
  then (plain_keys o ++ [k])%list else plain_keys o.
Proof.
  unfold assign. destruct (String.eqb k "__proto__") eqn:Hp.
  - apply String.eqb_eq in Hp. subst. reflexivity.
  - apply plain_keys_define.
Qed.

Lemma In_keys_assign (o : props) (k : string) (v : Json) (k' : string) :
  In k' (keys (assign o k v)) <->
  (k' = k /\ k <> "__proto__") \/ In k' (keys o).
Proof.
  unfold assign. destruct (String.eqb k "__proto__") eqn:Hp.
  - apply String.eqb_eq in Hp. subst. intuition.
  - apply String.eqb_neq in Hp. rewrite In_keys_define. intuition.
Qed.

Lemma NoDup_keys_assign (o : props) (k : string) (v : Json) :
  NoDup (keys o) -> NoDup (keys (assign o k v)).
Proof.
  unfold assign. destruct (String.eqb k "__proto__"); [auto |].
  apply NoDup_keys_define.
Qed.

Lemma In_keys_spread (t s : props) (k : string) :
  In k (keys (spread t s)) <-> In k (keys t) \/ In k (keys s).
Proof.
  unfold spread. revert t. induction s as [| [k' v'] r IH]; intros t; simpl.
  - intuition.
  - rewrite IH, In_keys_define. simpl. intuition.
Qed.

Lemma NoDup_keys_spread (t s : props) :
  NoDup (keys t) -> NoDup (keys (spread t s)).
Proof.
  unfold spread. revert t. induction s as [| [k' v'] r IH]; intros t Ht; simpl.
  - assumption.
  - apply IH, NoDup_keys_define, Ht.
Qed.

(** Spreading a source whose keys are all new appends its plain keys. *)
Lemma plain_keys_spread (t s : props) :
  NoDup (keys s) ->
  (forall k, In k (keys s) -> ~ In k (keys t)) ->
  plain_keys (spread t s) = plain_keys t ++ plain_keys s.
Proof.
  unfold spread. revert t. induction s as [| [k v] r IH]; intros t Hnd Hnew; simpl.
  - now rewrite app_nil_r.
  - simpl in Hnd. inversion Hnd as [| ? ? Hk Hr]; subst.
    rewrite IH; [| assumption |].
    + rewrite plain_keys_define.
      assert (Hown : hasOwnProperty t k = false).
      { apply hasOwnProperty_false, Hnew. now left. }
      rewrite Hown, andb_true_r. unfold plain_keys. simpl.
      destruct (is_plain k); simpl; [now rewrite <- app_assoc | reflexivity].
    + intros k' Hk' Hin. apply In_keys_define in Hin. destruct Hin as [-> | Hin].
      * contradiction.
      * apply (Hnew k'); [now right | assumption].
Qed.

Lemma Forall_define (P : string * Json -> Prop) (o : props) (k : string) (v : Json) :
  Forall P o -> P (k, v) -> Forall P (define o k v).
Proof.
  intros Ho Hkv. unfold define. destruct (hasOwnProperty o k).
  - induction Ho as [| [k' v'] r Hx Hr IH]; simpl; [constructor |].
    destruct (String.eqb k' k) eqn:Heq.
    + apply String.eqb_eq in Heq. subst. now constructor.
    + now constructor.
  - destruct (array_index k) as [i |].
    + induction Ho as [| [k' v'] r Hx Hr IH]; simpl; [now repeat constructor |].
      destruct (array_index k') as [j |]; [destruct (j <? i) |];
        repeat (constructor; try assumption).
    + apply Forall_app. split; [assumption | now repeat constructor].
Qed.

Lemma Forall_assign (P : string * Json -> Prop) (o : props) (k : string) (v : Json) :
  Forall P o -> P (k, v) -> Forall P (assign o k v).
Proof.
  intros Ho Hkv. unfold assign. destruct (String.eqb k "__proto__"); [assumption |].
  now apply Forall_define.
Qed.

Lemma Forall_spread (P : string * Json -> Prop) (t s : props) :
  Forall P t -> Forall P s -> Forall P (spread t s).
Proof.
  unfold spread. intros Ht Hs. revert t Ht.
  induction Hs as [| [k v] r Hx Hr IH]; intros t Ht; simpl; [assumption |].
  apply IH, Forall_define; assumption.
Qed.

Lemma lookup_In (o : props) (k : string) (v : Json) :
  lookup o k = Some v -> In (k, v) o.
Proof.
  induction o as [| [k' v'] r IH]; simpl; [discriminate |].
  destruct (String.eqb k' k) eqn:Heq.
  - apply String.eqb_eq in Heq. intros [= ->]. subst. now left.
  - intros H. right. now apply IH.
Qed.

Lemma In_lookup (o : props) (k : string) (v : Json) :
  NoDup (keys o) -> In (k, v) o -> lookup o k = Some v.
Proof.
  induction o as [| [k' v'] r IH]; simpl; [contradiction |].
  intros Hnd [Heq | Hin]; inversion Hnd as [| ? ? Hk Hr]; subst.
  - injection Heq as -> ->. now rewrite String.eqb_refl.
  - destruct (String.eqb k' k) eqn:Heq.
    + apply String.eqb_eq in Heq. subst. exfalso. apply Hk.
      change k with (fst (k, v)). now apply in_map.
    + now apply IH.
Qed.

Lemma lookup_None (o : props) (k : string) :
  lookup o k = None <-> ~ In k (keys o).
Proof.
  induction o as [| [k' v'] r IH]; simpl; [intuition |].
  destruct (String.eqb k' k) eqn:Heq.
  - apply String.eqb_eq in Heq. subst. split; [discriminate | intros H; exfalso; auto].
  - apply String.eqb_neq in Heq. rewrite IH. intuition.
Qed.

Lemma lookup_with_lookup {A : Type} (f : Json -> A) (o : props) (k : string) :
  lookup_with f o k = option_map f (lookup o k).
Proof.
  induction o as [| [k' v'] r IH]; simpl; [reflexivity |].
  destruct (String.eqb k' k); [reflexivity | assumption].
Qed.

(** ** Lists: [filter], [dedup], [occurs_before] *)

Lemma fold_left_ext {A B : Type} (f g : A -> B -> A) (l : list B) (a : A) :
  (forall x y, f x y = g x y) -> fold_left f l a = fold_left g l a.
Proof.
  intros H. revert a. induction l as [| y r IH]; intros a; simpl; [reflexivity |].
  now rewrite H, IH.
Qed.

Lemma bool_eq_iff (a b : bool) : (a = true <-> b = true) -> a = b.
Proof. destruct a, b; intuition congruence. Qed.

Lemma filter_andb {A : Type} (P R : A -> bool) (l : list A) :
  filter (fun x => P x && R x) l = filter P (filter R l).
Proof.
  induction l as [| x r IH]; simpl; [reflexivity |].
  destruct (R x); simpl.
  - rewrite andb_true_r. destruct (P x); now rewrite IH.
  - now rewrite andb_false_r.
Qed.

Lemma In_dedup (l : list string) (k : string) : In k (dedup l) <-> In k l.
Proof.
  induction l as [| x r IH]; simpl; [reflexivity |].
  rewrite filter_In, IH. destruct (String.eqb k x) eqn:Heq.
  - apply String.eqb_eq in Heq. subst. intuition.
  - apply String.eqb_neq in Heq. simpl. intuition congruence.
Qed.

Lemma NoDup_dedup (l : list string) : NoDup (dedup l).
Proof.
  induction l as [| x r IH]; simpl; constructor.
  - rewrite filter_In, String.eqb_refl. simpl. intros [_ H]. discriminate.
  - now apply NoDup_filter.
Qed.

Lemma existsb_eqb_In (l : list string) (k : string) :
  existsb (String.eqb k) l = true <-> In k l.
Proof. apply includes_In. Qed.

Lemma occurs_before_app_both (l1 l2 : list string) (k1 k2 : string) :
  In k1 l1 -> In k2 l2 -> occurs_before (l1 ++ l2) k1 k2 = true.
Proof.
  intros H1 H2. induction l1 as [| x r IH]; simpl; [contradiction |].
  destruct H1 as [-> | H1].
  - rewrite String.eqb_refl. simpl.
    replace (existsb (String.eqb k2) (r ++ l2)) with true; [reflexivity |].
    symmetry. apply existsb_eqb_In, in_or_app. now right.
  - rewrite (IH H1). apply orb_true_r.
Qed.

Lemma occurs_before_app_l (l1 l2 : list string) (k1 k2 : string) :
  occurs_before l1 k1 k2 = true -> occurs_before (l1 ++ l2) k1 k2 = true.
Proof.
  induction l1 as [| x r IH]; simpl; [discriminate |].
  intros H. apply orb_true_iff in H. apply orb_true_iff.
  destruct H as [H | H]; [left | right; now apply IH].
  apply andb_true_iff in H. destruct H as [Hx Hk]. rewrite Hx. simpl.
  apply existsb_eqb_In, in_or_app. left. now apply existsb_eqb_In.
Qed.

Lemma occurs_before_app_r (l1 l2 : list string) (k1 k2 : string) :
  occurs_before l2 k1 k2 = true -> occurs_before (l1 ++ l2) k1 k2 = true.
Proof.
  intros H. induction l1 as [| x r IH]; simpl; [assumption |].
  rewrite IH. apply orb_true_r.
Qed.

Lemma occurs_before_filter (P : string -> bool) (l : list string) (k1 k2 : string) :
  P k1 = true -> P k2 = true ->
  occurs_before l k1 k2 = true -> occurs_before (filter P l) k1 k2 = true.
Proof.
  intros H1 H2. induction l as [| x r IH]; simpl; [discriminate |].
  intros H. apply orb_true_iff in H. destruct H as [H | H].
  - apply andb_true_iff in H. destruct H as [Hx Hk].
    apply String.eqb_eq in Hx. subst x. rewrite H1. simpl.
    rewrite String.eqb_refl. simpl.
    replace (existsb (String.eqb k2) (filter P r)) with true; [reflexivity |].
    symmetry. apply existsb_eqb_In, filter_In. split; [| assumption].
    now apply existsb_eqb_In.
  - destruct (P x); simpl; [rewrite (IH H); apply orb_true_r | now apply IH].
Qed.

Lemma occurs_before_unfilter (P : string -> bool) (l : list string) (k1 k2 : string) :
  occurs_before (filter P l) k1 k2 = true -> occurs_before l k1 k2 = true.
Proof.
  induction l as [| x r IH]; simpl; [discriminate |].
  destruct (P x); simpl; intros H.
  - apply orb_true_iff in H. apply orb_true_iff. destruct H as [H | H]; [left | right; auto].
    apply andb_true_iff in H. destruct H as [Hx Hk]. rewrite Hx. simpl.
    apply existsb_eqb_In. apply existsb_eqb_In in Hk. apply filter_In in Hk. tauto.
  - rewrite (IH H). apply orb_true_r.
Qed.

Lemma occurs_before_In (l : list string) (k1 k2 : string) :
  occurs_before l k1 k2 = true -> In k1 l /\ In k2 l.
Proof.
  induction l as [| x r IH]; simpl; [discriminate |].
  intros H. apply orb_true_iff in H. destruct H as [H | H].
  - apply andb_true_iff in H. destruct H as [Hx Hk].
    apply String.eqb_eq in Hx. apply existsb_eqb_In in Hk. auto.
  - destruct (IH H). auto.
Qed.

(** In a list without repetition, occurring before is asymmetric. *)
Lemma occurs_before_asym (l : list string) (k1 k2 : string) :
  NoDup l -> occurs_before l k1 k2 = true -> occurs_before l k2 k1 = false.
Proof.
  intros Hnd. induction Hnd as [| x r Hx Hr IH]; simpl; [discriminate |].
  intros H. apply orb_true_iff in H. destruct H as [H | H].
  - apply andb_true_iff in H. destruct H as [Heq Hk].
    apply String.eqb_eq in Heq. subst x. apply existsb_eqb_In in Hk.
    destruct (String.eqb k1 k2) eqn:E.
    { apply String.eqb_eq in E. subst. contradiction. }
    simpl. destruct (occurs_before r k2 k1) eqn:Hb; [| reflexivity].
    apply occurs_before_In in Hb. tauto.
  - rewrite (IH H). destruct (String.eqb x k2) eqn:E; [| reflexivity].
    apply String.eqb_eq in E. subst. apply occurs_before_In in H. tauto.
Qed.

(** ** Enumeration order *)

Lemma array_index_canonical (k : string) (i : Z) :
  array_index k = Some i -> k = Z_to_string i.
Proof.
  unfold array_index.
  destruct (all_digits k && Nat.leb (String.length k) 10); [| discriminate].
  destruct (digits_value 0 k <=? 4294967294); simpl; [| discriminate].
  destruct (String.eqb (Z_to_string (digits_value 0 k)) k) eqn:E; [| discriminate].
  apply String.eqb_eq in E. intros [= <-]. now symmetry.
Qed.

Lemma array_index_inj (k k' : string) (i : Z) :
  array_index k = Some i -> array_index k' = Some i -> k = k'.
Proof.
  intros H H'. apply array_index_canonical in H, H'. congruence.
Qed.

Lemma key_before_plain (k k' : string) :
  array_index k' = None -> key_before k k' = true.
Proof. intros H. unfold key_before. rewrite H. now destruct (array_index k). Qed.

Lemma key_before_trans_index (k k' y : string) (i : Z) :
  array_index k = Some i ->
  (forall j, array_index k' = Some j -> i < j) ->
  key_before k' y = true -> key_before k y = true.
Proof.
  unfold key_before. intros Hk Hlt. rewrite Hk.
  destruct (array_index k') as [j |], (array_index y) as [j' |];
    try reflexivity; try discriminate.
  intros H. apply Z.ltb_lt in H. apply Z.ltb_lt. specialize (Hlt j eq_refl). lia.
Qed.

Lemma enumeration_order_snoc (l : list string) (k : string) :
  enumeration_order l = true ->
  (forall x, In x l -> key_before x k = true) ->
  enumeration_order (l ++ [k]) = true.
Proof.
  induction l as [| x r IH]; simpl; [reflexivity |].
  intros H Hk. apply andb_true_iff in H. destruct H as [Hx Hr].
  apply andb_true_iff. split.
  - rewrite forallb_app, Hx. simpl. rewrite (Hk x); auto.
  - apply IH; auto.
Qed.

Lemma enumeration_order_app (l1 l2 : list string) :
  enumeration_order (l1 ++ l2) = true ->
  enumeration_order l1 = true
  /\ (forall x y, In x l1 -> In y l2 -> key_before x y = true).
Proof.
  induction l1 as [| k r IH]; simpl.
  - intros _. split; [reflexivity | contradiction].
  - intros H. apply andb_true_iff in H. destruct H as [Hk Hr].
    rewrite forallb_app in Hk. apply andb_true_iff in Hk. destruct Hk as [Hk1 Hk2].
    destruct (IH Hr) as [Hr1 Hr2]. split.
    + now rewrite Hk1, Hr1.
    + intros x y [<- | Hx] Hy; [| now apply Hr2].
      rewrite forallb_forall in Hk2. now apply Hk2.
Qed.

Lemma insert_index_snoc (o : props) (i : Z) (k : string) (v : Json) :
  array_index k = Some i ->
  (forall x, In x (keys o) -> key_before x k = true) ->
  insert_index o i k v = o ++ [(k, v)].
Proof.
  intros Hk. induction o as [| [k' v'] r IH]; simpl; intros Hb; [reflexivity |].
  assert (H := Hb k' (or_introl eq_refl)). unfold key_before in H. rewrite Hk in H.
  destruct (array_index k') as [j |]; [| discriminate].
  rewrite H, IH; auto.
Qed.

(** A new key that may stand after all the others is put at the end. *)
Lemma define_snoc (o : props) (k : string) (v : Json) :
  ~ In k (keys o) ->
  (forall x, In x (keys o) -> key_before x k = true) ->
  define o k v = o ++ [(k, v)].
Proof.
  intros Hnew Hb. unfold define.
  apply hasOwnProperty_false in Hnew. rewrite Hnew.
  destruct (array_index k) as [i |] eqn:Hk; [| reflexivity].
  now apply insert_index_snoc.
Qed.

Lemma enumeration_order_insert_index (o : props) (i : Z) (k : string) (v : Json) :
  array_index k = Some i ->
  ~ In k (keys o) ->
  enumeration_order (keys o) = true ->
  enumeration_order (keys (insert_index o i k v)) = true.
Proof.
  intros Hk. induction o as [| [k' v'] r IH]; simpl; intros Hnew Ho; [reflexivity |].
  apply andb_true_iff in Ho. destruct Ho as [Hhead Htail].
  assert (Hafter : (forall j, array_index k' = Some j -> i < j) ->
                   enumeration_order (k :: k' :: keys r) = true).
  { intros Hlt. simpl. rewrite Hhead, Htail, !andb_true_r.
    apply andb_true_iff. split.
    - unfold key_before. rewrite Hk. destruct (array_index k') as [j |]; [| reflexivity].
      apply Z.ltb_lt. now apply Hlt.
    - apply forallb_forall. intros y Hy. rewrite forallb_forall in Hhead.
      apply (key_before_trans_index k k' y i Hk Hlt). now apply Hhead. }
  destruct (array_index k') as [j |] eqn:Hk'.
  - destruct (j <? i) eqn:Hji.
    + simpl. apply andb_true_iff. split; [| apply IH; tauto].
      apply forallb_forall. intros y Hy.
      apply (Permutation_in _ (keys_insert_index_perm r i k v)) in Hy.
      destruct Hy as [<- | Hy].
      * unfold key_before. now rewrite Hk', Hk.
      * rewrite forallb_forall in Hhead. now apply Hhead.
    + apply Hafter. intros j' [= <-]. apply Z.ltb_ge in Hji.
      assert (j <> i); [| lia].
      intros ->. apply Hnew. left. exact (array_index_inj _ _ _ Hk' Hk).
  - apply Hafter. discriminate.
Qed.

Lemma enumeration_order_define (o : props) (k : string) (v : Json) :
  enumeration_order (keys o) = true ->
  enumeration_order (keys (define o k v)) = true.
Proof.
  intros Ho. unfold define. destruct (hasOwnProperty o k) eqn:Hown.
  - now rewrite keys_replace.
  - apply hasOwnProperty_false in Hown.
    destruct (array_index k) as [i |] eqn:Hk.
    + now apply enumeration_order_insert_index.
    + rewrite keys_app. simpl. apply enumeration_order_snoc; [assumption |].
      intros x _. now apply key_before_plain.
Qed.

Lemma enumeration_order_assign (o : props) (k : string) (v : Json) :
  enumeration_order (keys o) = true ->
  enumeration_order (keys (assign o k v)) = true.
Proof.
  unfold assign. destruct (String.eqb k "__proto__"); [auto |].
  apply enumeration_order_define.
Qed.

Lemma enumeration_order_spread (t s : props) :
  enumeration_order (keys t) = true ->
  enumeration_order (keys (spread t s)) = true.
Proof.
  unfold spread. revert t. induction s as [| [k v] r IH]; intros t Ht; simpl;
    [assumption |].
  apply IH, enumeration_order_define, Ht.
Qed.

Lemma enumeration_order_fold {A : Type} (step : props -> A -> props)
      (l : list A) (acc : props) :
  (forall o x, enumeration_order (keys o) = true ->
               enumeration_order (keys (step o x)) = true) ->
  enumeration_order (keys acc) = true ->
  enumeration_order (keys (fold_left step l acc)) = true.
Proof.
  intros Hstep. revert acc. induction l as [| x r IH]; intros acc Hacc; simpl;
    [assumption |].
  apply IH, Hstep, Hacc.
Qed.

(** A loop that assigns the entries of a well-formed object without the
    key ["__proto__"] rebuilds them one after the other. *)
Lemma assign_loop_exact (f : Json -> Json) (rest acc : props) :
  NoDup (keys acc ++ keys rest) ->
  enumeration_order (keys acc ++ keys rest) = true ->
  ~ In "__proto__"%string (keys rest) ->
  fold_left (assign_entry f) rest acc =
  acc ++ map (fun e => (fst e, f (snd e))) rest.
Proof.
  revert acc. induction rest as [| [k v] r IH]; intros acc Hnd Ho Hp; simpl.
  - now rewrite app_nil_r.
  - simpl in Hnd, Ho, Hp.
    assert (Hstep : assign_entry f acc (k, v) = acc ++ [(k, f v)]).
    { unfold assign_entry. simpl. rewrite assign_other; [| intros ->; tauto].
      apply define_snoc.
      - apply NoDup_remove_2 in Hnd. intros H. apply Hnd, in_or_app. now left.
      - intros x Hx. apply enumeration_order_app in Ho. destruct Ho as [_ Ho].
        apply Ho; [assumption | now left]. }
    rewrite Hstep, IH.
    + now rewrite <- app_assoc.
    + rewrite keys_app, <- app_assoc. exact Hnd.
    + rewrite keys_app, <- app_assoc. exact Ho.
    + tauto.
Qed.

(** ** The two loops of [applyCustomOrder] *)

Lemma assign_tracked_fst (st : props * bool) (k : string) (v : Json) :
  (k = "__proto__"%string /\ fst (assign_tracked st k v) = fst st)
  \/ fst (assign_tracked st k v) = define (fst st) k v.
Proof.
  destruct st as [o setter]. unfold assign_tracked.
  destruct (String.eqb k "__proto__") eqn:Hp; simpl; [| now right].
  apply String.eqb_eq in Hp.
  destruct (negb (hasOwnProperty o k) && setter); simpl; [now left | now right].
Qed.

Lemma assign_tracked_other (st : props * bool) (k : string) (v : Json) :
  k <> "__proto__"%string -> fst (assign_tracked st k v) = define (fst st) k v.
Proof.
  intros Hk. destruct (assign_tracked_fst st k v) as [[Hp _] | H];
    [contradiction | exact H].
Qed.

Lemma plain_keys_assign_tracked (st : props * bool) (k : string) (v : Json) :
  plain_keys (fst (assign_tracked st k v)) =
  if is_plain k && negb (hasOwnProperty (fst st) k)
  then plain_keys (fst st) ++ [k] else plain_keys (fst st).
Proof.
  destruct (assign_tracked_fst st k v) as [[-> ->] | ->].
  - reflexivity.
  - apply plain_keys_define.
Qed.

Lemma In_keys_assign_tracked (st : props * bool) (k : string) (v : Json)
      (x : string) :
  (In x (keys (fst (assign_tracked st k v))) -> x = k \/ In x (keys (fst st)))
  /\ (In x (keys (fst st)) -> In x (keys (fst (assign_tracked st k v))))
  /\ (x = k -> k <> "__proto__"%string ->
      In x (keys (fst (assign_tracked st k v)))).
Proof.
  destruct (assign_tracked_fst st k v) as [[Hp ->] | ->].
  - subst k. tauto.
  - rewrite In_keys_define. tauto.
Qed.

Lemma NoDup_keys_assign_tracked (st : props * bool) (k : string) (v : Json) :
  NoDup (keys (fst st)) -> NoDup (keys (fst (assign_tracked st k v))).
Proof.
  destruct (assign_tracked_fst st k v) as [[_ ->] | ->];
    [auto | apply NoDup_keys_define].
Qed.

Lemma Forall_assign_tracked (P : string * Json -> Prop) (st : props * bool)
      (k : string) (v : Json) :
  Forall P (fst st) -> P (k, v) -> Forall P (fst (assign_tracked st k v)).
Proof.
  destruct (assign_tracked_fst st k v) as [[_ ->] | ->];
    [auto | apply Forall_define].
Qed.

Section CustomOrderLoops.
Variable recurse : Json -> Json.
Variable record : props.
Variable order : list string.

Lemma ordered_step_cases (st : props * bool) (k : string) :
  (lookup record k = None /\ ordered_step recurse record st k = st) \/
  (exists v, lookup record k = Some v /\
             ordered_step recurse record st k = assign_tracked st k (recurse v)).
Proof.
  unfold ordered_step. rewrite lookup_with_lookup.
  destruct (lookup record k) as [v |]; simpl; [right; eauto | left; auto].
Qed.

Lemma hasOwnProperty_lookup (k : string) :
  hasOwnProperty record k = match lookup record k with Some _ => true | None => false end.
Proof.
  destruct (lookup record k) eqn:H.
  - apply hasOwnProperty_In. apply lookup_In in H.
    change k with (fst (k, j)). now apply in_map.
  - apply hasOwnProperty_false. now apply lookup_None.
Qed.

Lemma ordered_step_fresh (st : props * bool) (k x : string) :
  fresh_plain record (fst (ordered_step recurse record st k)) x =
  fresh_plain record (fst st) x && negb (String.eqb x k).
Proof.
  unfold fresh_plain.
  destruct (ordered_step_cases st k) as [[Hl ->] | (v & Hl & ->)].
  - destruct (String.eqb x k) eqn:E; [| now rewrite andb_true_r].
    apply String.eqb_eq in E. subst x.
    rewrite hasOwnProperty_lookup, Hl. simpl. now rewrite !andb_false_r.
  - destruct (String.eqb x k) eqn:E.
    + apply String.eqb_eq in E. subst x. rewrite andb_false_r.
      destruct (is_plain k) eqn:Hplain; [| reflexivity].
      rewrite (assign_tracked_other _ _ _ (is_plain_not_proto _ Hplain)).
      replace (hasOwnProperty (define (fst st) k (recurse v)) k) with true.
      * now rewrite andb_false_r.
      * symmetry. apply hasOwnProperty_In, In_keys_define. now left.
    + rewrite andb_true_r. do 2 f_equal. apply bool_eq_iff.
      apply String.eqb_neq in E. rewrite !hasOwnProperty_In.
      pose proof (In_keys_assign_tracked st k (recurse v) x) as (H1 & H2 & _).
      split; [| exact H2]. intros H. destruct (H1 H); [contradiction | assumption].
Qed.

Lemma ordered_step_plain_keys (st : props * bool) (k : string) :
  plain_keys (fst (ordered_step recurse record st k)) =
  plain_keys (fst st) ++ (if fresh_plain record (fst st) k then [k] else []).
Proof.
  unfold fresh_plain.
  destruct (ordered_step_cases st k) as [[Hl ->] | (v & Hl & ->)].
  - rewrite hasOwnProperty_lookup, Hl, andb_false_r. simpl. now rewrite app_nil_r.
  - rewrite plain_keys_assign_tracked, hasOwnProperty_lookup, Hl, andb_true_r.
    destruct (is_plain k && negb (hasOwnProperty (fst st) k)); [reflexivity |].
    now rewrite app_nil_r.
Qed.

Lemma ordered_loop_plain_keys (l : list string) (st : props * bool) :
  plain_keys (fst (fold_left (ordered_step recurse record) l st)) =
  plain_keys (fst st) ++ filter (fresh_plain record (fst st)) (dedup l).
Proof.
  revert st. induction l as [| k r IH]; intros st; simpl.
  - now rewrite app_nil_r.
  - rewrite IH, ordered_step_plain_keys, <- app_assoc. f_equal.
    rewrite (filter_ext _ _ (ordered_step_fresh st k)), filter_andb.
    destruct (fresh_plain record (fst st) k); reflexivity.
Qed.

(** The keys of [ordered] are names of [order] that [record] holds,
    and every such name other than ["__proto__"] is among them. *)
Lemma ordered_loop_In (l : list string) (st : props * bool) (x : string) :
  (In x (keys (fst (fold_left (ordered_step recurse record) l st))) ->
   In x (keys (fst st)) \/ (In x l /\ In x (keys record)))
  /\ (In x (keys (fst st)) \/
      (In x l /\ In x (keys record) /\ x <> "__proto__"%string) ->
      In x (keys (fst (fold_left (ordered_step recurse record) l st)))).
Proof.
  revert st. induction l as [| k r IH]; intros st; simpl.
  - tauto.
  - destruct (IH (ordered_step recurse record st k)) as [IH1 IH2].
    destruct (ordered_step_cases st k) as [[Hl Hst] | (v & Hl & Hst)];
      rewrite Hst in *.
    + apply lookup_None in Hl. split.
      * intros H. destruct (IH1 H); tauto.
      * intros [H | ([<- | H] & Hrec & Hp)]; [| contradiction |]; apply IH2; tauto.
    + assert (Hk : In k (keys record)).
      { apply lookup_In in Hl. change k with (fst (k, v)). now apply in_map. }
      pose proof (In_keys_assign_tracked st k (recurse v) x) as (H1 & H2 & H3).
      split.
      * intros H. destruct (IH1 H) as [H' | H']; [| tauto].
        destruct (H1 H') as [-> | H'']; tauto.
      * intros [H | ([<- | H] & Hrec & Hp)]; apply IH2; auto.
Qed.

Lemma ordered_loop_NoDup (l : list string) (st : props * bool) :
  NoDup (keys (fst st)) ->
  NoDup (keys (fst (fold_left (ordered_step recurse record) l st))).
Proof.
  revert st. induction l as [| k r IH]; intros st Hst; simpl; [assumption |].
  apply IH. destruct (ordered_step_cases st k) as [[Hl ->] | (v & Hl & ->)];
    [assumption | now apply NoDup_keys_assign_tracked].
Qed.

Lemma ordered_loop_image (l : list string) (st : props * bool) :
  Forall (image_of_member recurse record) (fst st) ->
  Forall (image_of_member recurse record)
         (fst (fold_left (ordered_step recurse record) l st)).
Proof.
  revert st. induction l as [| k r IH]; intros st Hst; simpl; [assumption |].
  apply IH. destruct (ordered_step_cases st k) as [[Hl ->] | (v & Hl & ->)];
    [assumption |].
  apply Forall_assign_tracked; [assumption | exists v; auto].
Qed.

Lemma ordered_loop_enumeration (l : list string) (st : props * bool) :
  enumeration_order (keys (fst st)) = true ->
  enumeration_order
    (keys (fst (fold_left (ordered_step recurse record) l st))) = true.
Proof.
  revert st. induction l as [| k r IH]; intros st Hst; simpl; [assumption |].
  apply IH. destruct (ordered_step_cases st k) as [[Hl ->] | (v & Hl & ->)];
    [assumption |].
  destruct (assign_tracked_fst st k (recurse v)) as [[_ ->] | ->];
    [assumption | now apply enumeration_order_define].
Qed.

(** The second loop, run over a part [rest] of the members. *)
Lemma remaining_loop_In (rest acc : props) (x : string) :
  In x (keys (fold_left (remaining_step recurse order) rest acc)) <->
  In x (keys acc) \/ (In x (keys rest) /\ ~ In x order /\ x <> "__proto__").
Proof.
  revert acc. induction rest as [| [k v] r IH]; intros acc; simpl.
  - tauto.
  - rewrite IH. destruct (includes order k) eqn:Hinc; simpl.
    + apply includes_In in Hinc. intuition (subst; tauto).
    + assert (~ In k order).
      { intros H. apply includes_In in H. congruence. }
      rewrite In_keys_assign. intuition (subst; tauto).
Qed.

Lemma remaining_loop_NoDup (rest acc : props) :
  NoDup (keys acc) ->
  NoDup (keys (fold_left (remaining_step recurse order) rest acc)).
Proof.
  revert acc. induction rest as [| [k v] r IH]; intros acc Hacc; simpl; [assumption |].
  apply IH. destruct (includes order k); simpl;
    [assumption | now apply NoDup_keys_assign].
Qed.

Lemma remaining_loop_plain_keys (rest acc : props) :
  NoDup (keys rest) ->
  (forall k, In k (keys rest) -> ~ In k (keys acc)) ->
  plain_keys (fold_left (remaining_step recurse order) rest acc) =
  plain_keys acc ++
  filter (fun k => is_plain k && negb (includes order k)) (keys rest).
Proof.
  revert acc. induction rest as [| [k v] r IH]; intros acc Hnd Hnew; simpl.
  - now rewrite app_nil_r.
  - inversion Hnd as [| ? ? Hk Hr]; subst.
    assert (Hown : hasOwnProperty acc k = false).
    { apply hasOwnProperty_false, Hnew. now left. }
    rewrite IH; [| assumption |].
    + destruct (includes order k); simpl.
      * now rewrite andb_false_r.
      * rewrite plain_keys_assign, Hown, !andb_true_r.
        destruct (is_plain k); [now rewrite <- app_assoc | reflexivity].
    + intros x Hx Hin. destruct (includes order k); simpl in Hin.
      * apply (Hnew x); [now right | assumption].
      * apply In_keys_assign in Hin. destruct Hin as [[-> _] | Hin];
          [contradiction | apply (Hnew x); [now right | assumption]].
Qed.

Lemma remaining_loop_image (rest acc : props) :
  Forall (fun e => lookup record (fst e) = Some (snd e)) rest ->
  Forall (image_of_member recurse record) acc ->
  Forall (image_of_member recurse record) (fold_left (remaining_step recurse order) rest acc).
Proof.
  intros Hrest. revert acc.
  induction Hrest as [| [k v] r Hkv Hr IH]; intros acc Hacc; simpl; [assumption |].
  apply IH. destruct (includes order k); simpl; [assumption |].
  apply Forall_assign; [assumption | exists v; auto].
Qed.
End CustomOrderLoops.

Lemma members_lookup (record : props) :
  NoDup (keys record) ->
  Forall (fun e => lookup record (fst e) = Some (snd e)) record.
Proof.
  intros Hnd. apply Forall_forall. intros [k v] Hin. simpl.
  now apply In_lookup.
Qed.

(** ** [applyCustomOrder] on an object *)

Lemma applyCustomOrder_recurse (order : list string) (v : Json) :
  (if is_container v then applyCustomOrder v order else v) = applyCustomOrder v order.
Proof. destruct v; reflexivity. Qed.

Lemma applyCustomOrder_members (record : props) (order : list string) :
  members (applyCustomOrder (VObj record) order) =
  spread (spread [] (fst (fold_left (ordered_step (fun v => applyCustomOrder v order) record)
                                    order ([], true))))
         (fold_left (remaining_step (fun v => applyCustomOrder v order) order) record []).
Proof.
  simpl. f_equal; [do 2 f_equal |]; apply fold_left_ext.
  - intros acc k. unfold ordered_step. rewrite !lookup_with_lookup.
    destruct (lookup record k) as [v |]; simpl; [| reflexivity].
    now rewrite applyCustomOrder_recurse.
  - intros acc [k v]. unfold remaining_step.
    now rewrite applyCustomOrder_recurse.
Qed.

Lemma applyCustomOrder_plain_keys (record : props) (order : list string) :
  NoDup (keys record) ->
  plain_keys (members (applyCustomOrder (VObj record) order)) =
  filter (fun k => is_plain k && hasOwnProperty record k) (dedup order) ++
  filter (fun k => is_plain k && negb (includes order k)) (keys record).
Proof.
  intros Hnd. rewrite applyCustomOrder_members.
  set (recurse := fun v => applyCustomOrder v order).
  rewrite plain_keys_spread.
  - rewrite plain_keys_spread.
    + rewrite ordered_loop_plain_keys, remaining_loop_plain_keys; simpl.
      * f_equal. apply filter_ext. intros k. unfold fresh_plain. simpl.
        now rewrite andb_true_r.
      * assumption.
      * auto.
    + apply ordered_loop_NoDup. constructor.
    + auto.
  - apply remaining_loop_NoDup. constructor.
  - intros k Hk Hin. apply remaining_loop_In in Hk. apply In_keys_spread in Hin.
    destruct Hin as [[] | Hin]. apply ordered_loop_In in Hin.
    simpl in Hk, Hin. tauto.
Qed.

(** No key is invented, and no key other than ["__proto__"] is lost. *)
Lemma applyCustomOrder_keys_In (record : props) (order : list string) (k : string) :
  (In k (keys (members (applyCustomOrder (VObj record) order))) ->
   In k (keys record))
  /\ (In k (keys record) -> k <> "__proto__"%string ->
      In k (keys (members (applyCustomOrder (VObj record) order)))).
Proof.
  rewrite applyCustomOrder_members, !In_keys_spread, remaining_loop_In.
  pose proof (ordered_loop_In (fun v => applyCustomOrder v order) record order
                              ([], true) k) as [H1 H2].
  simpl in *. split.
  - intros [[[] | H] | H]; [apply H1 in H |]; tauto.
  - intros Hk Hp. destruct (in_dec string_dec k order) as [Hin | Hout].
    + left. right. apply H2. tauto.
    + right. tauto.
Qed.

Lemma applyCustomOrder_keys_NoDup (record : props) (order : list string) :
  NoDup (keys (members (applyCustomOrder (VObj record) order))).
Proof.
  rewrite applyCustomOrder_members. apply NoDup_keys_spread, NoDup_keys_spread.
  constructor.
Qed.

Lemma applyCustomOrder_values (record : props) (order : list string) :
  NoDup (keys record) ->
  Forall (image_of_member (fun v => applyCustomOrder v order) record)
         (members (applyCustomOrder (VObj record) order)).
Proof.
  intros Hnd. rewrite applyCustomOrder_members.
  apply Forall_spread; [apply Forall_spread; [constructor |] |].
  - apply ordered_loop_image. constructor.
  - apply remaining_loop_image; [now apply members_lookup | constructor].
Qed.

Lemma applyCustomOrder_lookup (record : props) (order : list string)
      (k : string) (v' : Json) :
  NoDup (keys record) ->
  lookup (members (applyCustomOrder (VObj record) order)) k = Some v' ->
  exists v, lookup record k = Some v /\ v' = applyCustomOrder v order.
Proof.
  intros Hnd Hl. apply lookup_In in Hl.
  pose proof (applyCustomOrder_values record order Hnd) as Hall.
  rewrite Forall_forall in Hall. exact (Hall _ Hl).
Qed.

(** The output object lists the keys as the order list asks. *)
Lemma applyCustomOrder_custom_precedence (record : props) (order : list string) :
  NoDup (keys record) ->
  custom_precedence order record (members (applyCustomOrder (VObj record) order)).
Proof.
  intros Hnd. set (out := members (applyCustomOrder (VObj record) order)).
  pose proof (applyCustomOrder_plain_keys record order Hnd) as Hplain.
  fold out in Hplain. unfold plain_keys in Hplain.
  assert (Hnot : forall k, ~ In k order -> negb (includes order k) = true).
  { intros k Hk. apply negb_true_iff. destruct (includes order k) eqn:E; [| reflexivity].
    apply includes_In in E. contradiction. }
  unfold custom_precedence. repeat split.
  - intros k1 k2 P1 P2 I1 I2 Hb.
    apply (occurs_before_unfilter is_plain). rewrite Hplain.
    apply occurs_before_app_l, occurs_before_filter; [| | assumption].
    + rewrite P1. now apply hasOwnProperty_In.
    + rewrite P2. now apply hasOwnProperty_In.
  - intros k1 k2 P1 P2 I1 I2 O1 O2.
    apply (occurs_before_unfilter is_plain). rewrite Hplain.
    apply occurs_before_app_both; apply filter_In; split.
    + now apply In_dedup.
    + rewrite P1. now apply hasOwnProperty_In.
    + assumption.
    + rewrite P2. now apply Hnot.
  - intros k1 k2 P1 P2 O1 O2 Hb.
    apply (occurs_before_unfilter is_plain). rewrite Hplain.
    apply occurs_before_app_r, occurs_before_filter; [| | assumption].
    + rewrite P1. now apply Hnot.
    + rewrite P2. now apply Hnot.
  - intros k Hk. now apply (applyCustomOrder_keys_In record order k).
  - intros k Hk Hp. now apply (applyCustomOrder_keys_In record order k).
  - apply applyCustomOrder_keys_NoDup.
Qed.

Lemma Forall2_map_image {A B : Type} (R : A -> B -> Prop) (f : A -> B) (l : list A) :
  Forall (fun x => R x (f x)) l -> Forall2 R l (map f l).
Proof. induction 1; cbn [map]; constructor; assumption. Qed.

(** Every object of the value, inside objects and inside arrays, is
    reordered as the order list asks. *)
Lemma applyCustomOrder_custom_ordered (v : Json) (order : list string) :
  well_formed v -> custom_ordered order v (applyCustomOrder v order).
Proof.
  induction v as [| b | n | s | items IH | record IH] using Json_ind;
    intros Hwf; try (now apply co_primitive).
  - inversion Hwf as [| | | | ? Hitems |]; subst.
    cbn [applyCustomOrder]. apply co_array. apply Forall2_map_image.
    rewrite Forall_forall in *. intros x Hx. exact (IH x Hx (Hitems x Hx)).
  - inversion Hwf as [| | | | | ? Hnd Hord Hmem]; subst.
    change (applyCustomOrder (VObj record) order)
      with (VObj (members (applyCustomOrder (VObj record) order))).
    apply co_object; [now apply applyCustomOrder_custom_precedence|].
    intros k v' Hl.
    destruct (applyCustomOrder_lookup record order k v' Hnd Hl) as (v & Hv & ->).
    exists v. split; [assumption|].
    apply lookup_In in Hv. rewrite Forall_forall in IH, Hmem.
    exact (IH _ Hv (Hmem _ Hv)).
Qed.

(** C3, as amended.  For an object with distinct keys and any order list,
    among the keys that are neither array indices nor ["__proto__"]:
    keys of the object named in the order list come out in the sequence
    of their first occurrences in that list; every key absent from the
    list comes after every key named in it, and the absent keys keep
    their original relative order.  No key is invented or repeated
    (names of the order list that the object lacks are skipped), every
    key other than ["__proto__"] is kept, and each key holds
    [applyCustomOrder] of its original value with the same order list.
    An array is mapped element by element with the same list and a
    primitive is returned as it is, so in a well-formed value every
    object at every depth, inside objects and inside arrays, is
    reordered in this way ([custom_ordered]). *)
Theorem applyCustomOrder_precedence (record : props) (order : list string) :
  NoDup (keys record) ->
  let out := members (applyCustomOrder (VObj record) order) in
  (forall k1 k2,
      is_plain k1 = true -> is_plain k2 = true ->
      In k1 (keys record) -> In k2 (keys record) ->
      occurs_before (dedup order) k1 k2 = true ->
      occurs_before (keys out) k1 k2 = true)
  /\ (forall k1 k2,
      is_plain k1 = true -> is_plain k2 = true ->
      In k1 (keys record) -> In k2 (keys record) ->
      In k1 order -> ~ In k2 order ->
      occurs_before (keys out) k1 k2 = true)
  /\ (forall k1 k2,
      is_plain k1 = true -> is_plain k2 = true ->
      ~ In k1 order -> ~ In k2 order ->
      occurs_before (keys record) k1 k2 = true ->
      occurs_before (keys out) k1 k2 = true)
  /\ (forall k, In k (keys out) -> In k (keys record))
  /\ (forall k, In k (keys record) -> k <> "__proto__" -> In k (keys out))
  /\ NoDup (keys out)
  /\ (forall k v',
      lookup out k = Some v' ->
      exists v, lookup record k = Some v /\ v' = applyCustomOrder v order)
  /\ (forall items,
      applyCustomOrder (VArr items) order
      = VArr (map (fun item => applyCustomOrder item order) items))
  /\ (forall v, is_container v = false -> applyCustomOrder v order = v)
  /\ (forall v, well_formed v -> custom_ordered order v (applyCustomOrder v order)).
Proof.
  intros Hnd out.
  destruct (applyCustomOrder_custom_precedence record order Hnd)
    as (H1 & H2 & H3 & H4 & H5 & H6).
  split; [exact H1|]. split; [exact H2|]. split; [exact H3|].
  split; [exact H4|]. split; [exact H5|]. split; [exact H6|].
  split; [intros k v'; now apply applyCustomOrder_lookup|].
  split; [reflexivity|].
  split; [intros v Hv; now destruct v|].
  intros v. apply applyCustomOrder_custom_ordered.
Qed.

(** ** Loops that assign every entry of a list *)

Section AssignLoop.
Variable f : Json -> Json.

Lemma assign_loop_In (rest acc : props) (x : string) :
  In x (keys (fold_left (assign_entry f) rest acc)) <->
  In x (keys acc) \/ (In x (keys rest) /\ x <> "__proto__").
Proof.
  revert acc. induction rest as [| [k v] r IH]; intros acc; simpl.
  - tauto.
  - rewrite IH. unfold assign_entry. simpl. rewrite In_keys_assign.
    intuition (subst; tauto).
Qed.

Lemma assign_loop_NoDup (rest acc : props) :
  NoDup (keys acc) -> NoDup (keys (fold_left (assign_entry f) rest acc)).
Proof.
  revert acc. induction rest as [| [k v] r IH]; intros acc Hacc; simpl; [assumption |].
  apply IH. now apply NoDup_keys_assign.
Qed.

Lemma assign_loop_plain_keys (rest acc : props) :
  NoDup (keys rest) ->
  (forall k, In k (keys rest) -> ~ In k (keys acc)) ->
  plain_keys (fold_left (assign_entry f) rest acc) = plain_keys acc ++ plain_keys rest.
Proof.
  revert acc. induction rest as [| [k v] r IH]; intros acc Hnd Hnew; simpl.
  - now rewrite app_nil_r.
  - inversion Hnd as [| ? ? Hk Hr]; subst.
    assert (Hown : hasOwnProperty acc k = false).
    { apply hasOwnProperty_false, Hnew. now left. }
    rewrite IH; [| assumption |].
    + unfold assign_entry. simpl. rewrite plain_keys_assign, Hown, andb_true_r.
      unfold plain_keys. simpl.
      destruct (is_plain k); simpl; [now rewrite <- app_assoc | reflexivity].
    + intros x Hx Hin. unfold assign_entry in Hin. simpl in Hin.
      apply In_keys_assign in Hin. destruct Hin as [[-> _] | Hin];
        [contradiction | apply (Hnew x); [now right | assumption]].
Qed.

Lemma assign_loop_Forall (P : string * Json -> Prop) (rest acc : props) :
  Forall (fun e => P (fst e, f (snd e))) rest ->
  Forall P acc ->
  Forall P (fold_left (assign_entry f) rest acc).
Proof.
  intros Hrest. revert acc.
  induction Hrest as [| [k v] r Hkv Hr IH]; intros acc Hacc; simpl; [assumption |].
  apply IH, Forall_assign; assumption.
Qed.
End AssignLoop.

(** ** [reorderJsonKeys] on an object *)

(** The loop of [reorderJsonKeys] fills each bucket from its own part of
    the members. *)
Lemma bucket_loop (recurse : Json -> Json) (rest primitives objects : props) :
  fold_left (bucket_step recurse) rest (primitives, objects) =
  (fold_left (assign_entry (fun v => v)) (primitive_members rest) primitives,
   fold_left (assign_entry recurse) (container_members rest) objects).
Proof.
  revert primitives objects.
  induction rest as [| [k v] r IH]; intros p o; simpl; [reflexivity |].
  destruct (is_container v); simpl; apply IH.
Qed.

Lemma keys_filter_NoDup (P : string * Json -> bool) (o : props) :
  NoDup (keys o) -> NoDup (keys (filter P o)).
Proof.
  induction o as [| [k v] r IH]; simpl; intros Hnd; [constructor |].
  inversion Hnd as [| ? ? Hk Hr]; subst.
  destruct (P (k, v)); simpl; [constructor |]; auto.
  intros Hin. apply Hk. unfold keys in *. apply in_map_iff in Hin.
  destruct Hin as ([k' v'] & Heq & Hin). simpl in Heq. subst k'.
  apply filter_In in Hin. apply in_map_iff. exists (k, v'). tauto.
Qed.

Lemma In_keys_filter (P : string * Json -> bool) (o : props) (k : string) :
  In k (keys (filter P o)) -> In k (keys o).
Proof.
  unfold keys. rewrite !in_map_iff. intros (e & Heq & Hin).
  apply filter_In in Hin. exists e. tauto.
Qed.

Lemma In_keys_partition (o : props) (k : string) :
  In k (keys o) <->
  In k (keys (primitive_members o)) \/ In k (keys (container_members o)).
Proof.
  unfold keys, primitive_members, container_members. rewrite !in_map_iff. split.
  - intros ([k' v] & Heq & Hin). destruct (is_container v) eqn:Hc.
    + right. exists (k', v). rewrite filter_In. auto.
    + left. exists (k', v). rewrite filter_In. simpl. rewrite Hc. auto.
  - intros [(e & Heq & Hin) | (e & Heq & Hin)]; apply filter_In in Hin;
      exists e; tauto.
Qed.

Lemma partition_disjoint (o : props) (k : string) :
  NoDup (keys o) ->
  In k (keys (primitive_members o)) -> ~ In k (keys (container_members o)).
Proof.
  unfold keys, primitive_members, container_members. rewrite !in_map_iff.
  intros Hnd ([k1 v1] & Heq1 & Hin1) ([k2 v2] & Heq2 & Hin2).
  simpl in *. subst k1 k2. apply filter_In in Hin1, Hin2. simpl in *.
  destruct Hin1 as [Hin1 Hc1], Hin2 as [Hin2 Hc2].
  apply (In_lookup _ _ _ Hnd) in Hin1, Hin2. rewrite Hin1 in Hin2.
  injection Hin2 as ->. rewrite Hc2 in Hc1. discriminate.
Qed.

Lemma reorderJsonKeys_members (record : props) :
  members (reorderJsonKeys (VObj record)) =
  spread (spread [] (fold_left (assign_entry (fun v => v))
                               (primitive_members record) []))
         (fold_left (assign_entry reorderJsonKeys) (container_members record) []).
Proof. simpl. now rewrite bucket_loop. Qed.

Lemma reorderJsonKeys_primitive (v : Json) :
  is_container v = false -> reorderJsonKeys v = v.
Proof. destruct v; simpl; congruence. Qed.

(** Among the keys that are neither array indices nor ["__proto__"], the
    keys of primitive members come first and those of container members
    follow, each group in its original order. *)
Lemma reorderJsonKeys_plain_keys (record : props) :
  NoDup (keys record) ->
  plain_keys (members (reorderJsonKeys (VObj record))) =
  plain_keys (primitive_members record) ++ plain_keys (container_members record).
Proof.
  intros Hnd. rewrite reorderJsonKeys_members.
  assert (Hp := keys_filter_NoDup (fun e => negb (is_container (snd e))) record Hnd).
  assert (Hc := keys_filter_NoDup (fun e => is_container (snd e)) record Hnd).
  rewrite plain_keys_spread.
  - rewrite plain_keys_spread.
    + rewrite (assign_loop_plain_keys (fun v => v)), assign_loop_plain_keys; auto.
    + apply (assign_loop_NoDup (fun v => v)). constructor.
    + auto.
  - apply assign_loop_NoDup. constructor.
  - intros k Hk Hin. apply assign_loop_In in Hk. apply In_keys_spread in Hin.
    destruct Hin as [[] | Hin]. apply (assign_loop_In (fun v => v)) in Hin.
    simpl in Hk, Hin. apply (partition_disjoint record k Hnd); tauto.
Qed.

(** No key other than ["__proto__"] is lost and none is invented or
    repeated. *)
Lemma reorderJsonKeys_keys_In (record : props) (k : string) :
  In k (keys (members (reorderJsonKeys (VObj record)))) <->
  In k (keys record) /\ k <> "__proto__".
Proof.
  rewrite reorderJsonKeys_members, !In_keys_spread,
    (assign_loop_In reorderJsonKeys), (assign_loop_In (fun v => v)),
    (In_keys_partition record k).
  simpl. tauto.
Qed.

Lemma reorderJsonKeys_keys_NoDup (record : props) :
  NoDup (keys (members (reorderJsonKeys (VObj record)))).
Proof.
  rewrite reorderJsonKeys_members. apply NoDup_keys_spread, NoDup_keys_spread.
  constructor.
Qed.

(** Each key holds the reordered image of its original value. *)
Lemma reorderJsonKeys_values (record : props) (k : string) (v' : Json) :
  NoDup (keys record) ->
  lookup (members (reorderJsonKeys (VObj record))) k = Some v' ->
  exists v, lookup record k = Some v /\ v' = reorderJsonKeys v.
Proof.
  intros Hnd Hl. apply lookup_In in Hl. revert Hl.
  assert (Hall : Forall (image_of_member reorderJsonKeys record)
                        (members (reorderJsonKeys (VObj record)))).
  { rewrite reorderJsonKeys_members.
    apply Forall_spread; [apply Forall_spread; [constructor |] |].
    - apply (assign_loop_Forall (fun v => v)); [| constructor].
      apply Forall_forall. intros [k0 v0] Hin. apply filter_In in Hin.
      destruct Hin as [Hin Hc]. simpl in *. exists v0. split.
      + now apply In_lookup.
      + symmetry. apply reorderJsonKeys_primitive.
        now apply negb_true_iff in Hc.
    - apply assign_loop_Forall; [| constructor].
      apply Forall_forall. intros [k0 v0] Hin. apply filter_In in Hin.
      destruct Hin as [Hin Hc]. simpl in *. exists v0. split; [| reflexivity].
      now apply In_lookup. }
  rewrite Forall_forall in Hall. intros Hin. apply (Hall (k, v') Hin).
Qed.

(** The claim of primitives first, for the keys that are neither array
    indices nor ["__proto__"]: such a key with a primitive value comes
    before every such key with a container value, and inside each of the
    two groups the original order is kept. *)
Lemma reorderJsonKeys_primitives_first (record : props) :
  NoDup (keys record) ->
  let out := members (reorderJsonKeys (VObj record)) in
  (forall k1 v1 k2 v2,
      is_plain k1 = true -> is_plain k2 = true ->
      In (k1, v1) record -> is_container v1 = false ->
      In (k2, v2) record -> is_container v2 = true ->
      occurs_before (keys out) k1 k2 = true)
  /\ (forall k1 k2,
      is_plain k1 = true -> is_plain k2 = true ->
      occurs_before (keys (primitive_members record)) k1 k2 = true ->
      occurs_before (keys out) k1 k2 = true)
  /\ (forall k1 k2,
      is_plain k1 = true -> is_plain k2 = true ->
      occurs_before (keys (container_members record)) k1 k2 = true ->
      occurs_before (keys out) k1 k2 = true).
Proof.
  intros Hnd out.
  pose proof (reorderJsonKeys_plain_keys record Hnd) as Hplain.
  fold out in Hplain. unfold plain_keys in Hplain.
  split; [| split].
  - intros k1 v1 k2 v2 P1 P2 I1 C1 I2 C2.
    apply (occurs_before_unfilter is_plain). rewrite Hplain.
    apply occurs_before_app_both; apply filter_In; (split; [| assumption]).
    + change k1 with (fst (k1, v1)). apply in_map, filter_In. simpl.
      now rewrite C1.
    + change k2 with (fst (k2, v2)). apply in_map, filter_In. simpl. auto.
  - intros k1 k2 P1 P2 Hb.
    apply (occurs_before_unfilter is_plain). rewrite Hplain.
    now apply occurs_before_app_l, occurs_before_filter.
  - intros k1 k2 P1 P2 Hb.
    apply (occurs_before_unfilter is_plain). rewrite Hplain.
    now apply occurs_before_app_r, occurs_before_filter.
Qed.

(** ** [decodeUriStrings] *)

Lemma decode_with_arr (budget : nat) (items : list Json) :
  decode_with (S budget) (VArr items) = VArr (map (decode_with (S budget)) items).
Proof. reflexivity. Qed.

Lemma decode_with_obj (budget : nat) (record : props) :
  decode_with (S budget) (VObj record) =
  VObj (fold_left (assign_entry (decode_with (S budget))) record []).
Proof. reflexivity. Qed.

Lemma decode_with_str (budget : nat) (s : string) :
  decode_with (S budget) (VStr s) =
  if looks_like_json (trimStart (decoded_of s)) then
    match JSON_parse (decoded_of s) with
    | Some parsed => decode_with budget parsed
    | None => VStr (decoded_of s)
    end
  else VStr (decoded_of s).
Proof. reflexivity. Qed.

Lemma decode_traced_arr (budget : nat) (items : list Json) :
  decode_traced (S budget) (VArr items) =
  (VArr (map fst (map (decode_traced (S budget)) items)),
   list_max (map snd (map (decode_traced (S budget)) items))).
Proof. reflexivity. Qed.

Lemma decode_traced_obj (budget : nat) (record : props) :
  decode_traced (S budget) (VObj record) =
  let rs := map (fun entry : string * Json =>
                   (fst entry, decode_traced (S budget) (snd entry))) record in
  (VObj (fold_left (fun (result : props) (e : string * (Json * nat)) =>
                      assign result (fst e) (fst (snd e))) rs []),
   list_max (map (fun e : string * (Json * nat) => snd (snd e)) rs)).
Proof. reflexivity. Qed.

Lemma decode_traced_str (budget : nat) (s : string) :
  decode_traced (S budget) (VStr s) =
  if looks_like_json (trimStart (decoded_of s)) then
    match JSON_parse (decoded_of s) with
    | Some parsed => let (r, n) := decode_traced budget parsed in (r, S n)
    | None => (VStr (decoded_of s), O)
    end
  else (VStr (decoded_of s), O).
Proof. reflexivity. Qed.

Lemma list_max_bound (l : list nat) (b : nat) :
  Forall (fun n => (n <= b)%nat) l -> (list_max l <= b)%nat.
Proof.
  induction 1 as [| n r Hn Hr IH]; simpl; [lia |].
  apply Nat.max_lub; assumption.
Qed.

Lemma fold_left_map {A B C : Type} (g : A -> C -> A) (h : B -> C)
      (l : list B) (a : A) :
  fold_left g (map h l) a = fold_left (fun a x => g a (h x)) l a.
Proof.
  revert a. induction l as [| x r IH]; intros a; simpl; [reflexivity | apply IH].
Qed.

Lemma fold_left_ext_in {A B : Type} (f g : A -> B -> A) (l : list B) (a : A) :
  Forall (fun y => forall x, f x y = g x y) l ->
  fold_left f l a = fold_left g l a.
Proof.
  intros H. revert a. induction H as [| y r Hy Hr IH]; intros a; simpl;
    [reflexivity |].
  now rewrite Hy, IH.
Qed.

(** The traced computation returns what [decodeUriStrings] returns and
    never counts more unwraps than the budget. *)
Lemma decode_traced_spec (budget : nat) (obj : Json) :
  fst (decode_traced budget obj) = decode_with budget obj
  /\ (snd (decode_traced budget obj) <= budget)%nat.
Proof.
  revert obj. induction budget as [| b IHb]; intros obj.
  - simpl. split; [reflexivity | lia].
  - induction obj as [| bo | n | s | items IH | record IH] using Json_ind;
      try (simpl; split; [reflexivity | lia]).
    + rewrite decode_traced_str, decode_with_str.
      destruct (looks_like_json (trimStart (decoded_of s))); [| simpl; split; [reflexivity | lia]].
      destruct (JSON_parse (decoded_of s)) as [parsed |]; [| simpl; split; [reflexivity | lia]].
      destruct (IHb parsed) as [Hv Hn].
      destruct (decode_traced b parsed) as [r n]. simpl in *. split; [assumption | lia].
    + rewrite decode_traced_arr, decode_with_arr. simpl. split.
      * f_equal. rewrite map_map. apply map_ext_Forall.
        eapply Forall_impl; [| exact IH]. intros x Hx. apply Hx.
      * apply list_max_bound. rewrite map_map. apply Forall_map.
        eapply Forall_impl; [| exact IH]. intros x Hx. apply Hx.
    + rewrite decode_traced_obj, decode_with_obj. simpl. split.
      * f_equal. rewrite fold_left_map. apply fold_left_ext_in.
        eapply Forall_impl; [| exact IH]. intros e [He _] acc. unfold assign_entry. cbn [fst snd].
        f_equal. exact He.
      * apply list_max_bound. rewrite map_map. apply Forall_map.
        eapply Forall_impl; [| exact IH]. intros e He. apply He.
Qed.

Lemma decodeUriStrings_positive (maxDepth : Z) :
  0 < maxDepth -> exists b, Z.to_nat maxDepth = S b /\ Z.to_nat (maxDepth - 1) = b.
Proof. intros H. exists (Z.to_nat (maxDepth - 1)). lia. Qed.

Lemma decodeUriStrings_exhausted (obj : Json) (maxDepth : Z) :
  maxDepth <= 0 -> decodeUriStrings obj maxDepth = obj.
Proof.
  intros Hd. unfold decodeUriStrings. replace (Z.to_nat maxDepth) with O by lia.
  reflexivity.
Qed.

Lemma decodeUriStrings_array (items : list Json) (maxDepth : Z) :
  0 < maxDepth ->
  decodeUriStrings (VArr items) maxDepth =
  VArr (map (fun item => decodeUriStrings item maxDepth) items).
Proof.
  intros Hd. unfold decodeUriStrings.
  destruct (decodeUriStrings_positive maxDepth Hd) as (b & -> & _).
  apply decode_with_arr.
Qed.

Lemma decodeUriStrings_object (record : props) (maxDepth : Z) :
  0 < maxDepth ->
  decodeUriStrings (VObj record) maxDepth =
  VObj (fold_left (assign_entry (fun v => decodeUriStrings v maxDepth)) record []).
Proof.
  intros Hd. unfold decodeUriStrings.
  destruct (decodeUriStrings_positive maxDepth Hd) as (b & -> & _).
  apply decode_with_obj.
Qed.

Lemma decodeUriStrings_unwrap (s : string) (maxDepth : Z) (parsed : Json) :
  0 < maxDepth ->
  looks_like_json (trimStart (decoded_of s)) = true ->
  JSON_parse (decoded_of s) = Some parsed ->
  decodeUriStrings (VStr s) maxDepth = decodeUriStrings parsed (maxDepth - 1).
Proof.
  intros Hd Hl Hp. unfold decodeUriStrings.
  destruct (decodeUriStrings_positive maxDepth Hd) as (b & -> & ->).
  now rewrite decode_with_str, Hl, Hp.
Qed.

Lemma decodeUriStrings_leaf (s : string) (maxDepth : Z) :
  0 < maxDepth ->
  looks_like_json (trimStart (decoded_of s)) = false
  \/ JSON_parse (decoded_of s) = None ->
  decodeUriStrings (VStr s) maxDepth = VStr (decoded_of s).
Proof.
  intros Hd H. unfold decodeUriStrings.
  destruct (decodeUriStrings_positive maxDepth Hd) as (b & -> & _).
  rewrite decode_with_str. destruct H as [-> | H]; [reflexivity |].
  rewrite H. now destruct (looks_like_json _).
Qed.

(** C5.  With [maxDepth <= 0] the value is returned as it is, strings
    included.  With a positive [maxDepth], arrays and objects are mapped
    at the same budget, a string that unwraps embedded JSON continues on
    the parsed value with [maxDepth - 1], and a string that does not is
    a leaf of the recursion.  The function is total, and along every
    path of recursive calls at most [maxDepth] unwraps are made. *)
Theorem decodeUriStrings_budget :
  (forall obj maxDepth, maxDepth <= 0 -> decodeUriStrings obj maxDepth = obj)
  /\ (forall items maxDepth,
        0 < maxDepth ->
        decodeUriStrings (VArr items) maxDepth =
        VArr (map (fun item => decodeUriStrings item maxDepth) items))
  /\ (forall record maxDepth,
        0 < maxDepth ->
        decodeUriStrings (VObj record) maxDepth =
        VObj (fold_left (assign_entry (fun v => decodeUriStrings v maxDepth)) record []))
  /\ (forall s maxDepth parsed,
        0 < maxDepth ->
        looks_like_json (trimStart (decoded_of s)) = true ->
        JSON_parse (decoded_of s) = Some parsed ->
        decodeUriStrings (VStr s) maxDepth = decodeUriStrings parsed (maxDepth - 1))
  /\ (forall s maxDepth,
        0 < maxDepth ->
        looks_like_json (trimStart (decoded_of s)) = false
        \/ JSON_parse (decoded_of s) = None ->
        decodeUriStrings (VStr s) maxDepth = VStr (decoded_of s))
  /\ (forall obj maxDepth,
        fst (decode_traced (Z.to_nat maxDepth) obj) = decodeUriStrings obj maxDepth
        /\ Z.of_nat (snd (decode_traced (Z.to_nat maxDepth) obj)) <= Z.max 0 maxDepth).
Proof.
  split; [exact decodeUriStrings_exhausted |].
  split; [exact decodeUriStrings_array |].
  split; [exact decodeUriStrings_object |].
  split; [exact decodeUriStrings_unwrap |].
  split; [exact decodeUriStrings_leaf |].
  intros obj maxDepth.
  destruct (decode_traced_spec (Z.to_nat maxDepth) obj) as [Hv Hn].
  split; [exact Hv | lia].
Qed.

(** C4, as amended.  When percent-decoding of a string leaf fails, the
    original string takes the place of the decoded one and nothing is
    thrown: the leaf is returned exactly as it was, unless [maxDepth] is
    positive and the original string starts (after white space) with a
    brace or bracket and parses as JSON, in which case the parsed value
    is decoded with [maxDepth - 1] and returned. *)
Theorem decodeUriStrings_malformed (s : string) (maxDepth : Z) :
  decodeURIComponent s = None ->
  (maxDepth <= 0 \/ looks_like_json (trimStart s) = false \/ JSON_parse s = None ->
   decodeUriStrings (VStr s) maxDepth = VStr s)
  /\ (forall parsed,
        0 < maxDepth ->
        looks_like_json (trimStart s) = true ->
        JSON_parse s = Some parsed ->
        decodeUriStrings (VStr s) maxDepth = decodeUriStrings parsed (maxDepth - 1)).
Proof.
  intros Hfail.
  assert (Hd : decoded_of s = s) by (unfold decoded_of; now rewrite Hfail).
  split.
  - intros [Hle | H].
    + now apply decodeUriStrings_exhausted.
    + destruct (Z_lt_le_dec 0 maxDepth) as [Hpos | Hle];
        [| now apply decodeUriStrings_exhausted].
      rewrite <- Hd at 2. apply decodeUriStrings_leaf; [assumption |].
      now rewrite Hd.
  - intros parsed Hpos Hl Hp.
    apply decodeUriStrings_unwrap; [assumption | |]; now rewrite Hd.
Qed.

(** On an object, decoding keeps every key other than ["__proto__"],
    invents none, and keeps the order of the keys that are not array
    indices. *)
Lemma decodeUriStrings_object_keys (record : props) (maxDepth : Z) :
  0 < maxDepth ->
  NoDup (keys record) ->
  let out := members (decodeUriStrings (VObj record) maxDepth) in
  (forall k, In k (keys out) <-> In k (keys record) /\ k <> "__proto__")
  /\ plain_keys out = plain_keys record
  /\ NoDup (keys out).
Proof.
  intros Hd Hnd out. subst out.
  rewrite (decodeUriStrings_object _ _ Hd).
  cbn [members]. set (f := fun v => decodeUriStrings v maxDepth).
  split; [| split].
  - intros k. rewrite (assign_loop_In f). simpl. tauto.
  - rewrite (assign_loop_plain_keys f); auto.
  - apply (assign_loop_NoDup f). constructor.
Qed.

(** ** [getNestedValue] *)

Lemma split_dot_dot_free (s : string) : dot_free s = true -> split_dot s = [s].
Proof.
  induction s as [| c r IH]; simpl; [reflexivity |].
  intros H. apply andb_true_iff in H. destruct H as [Hc Hr].
  apply negb_true_iff in Hc. rewrite Hc, (IH Hr). reflexivity.
Qed.

Lemma all_digits_dot_free (s : string) : all_digits s = true -> dot_free s = true.
Proof.
  induction s as [| c r IH]; simpl; [reflexivity |].
  intros H. apply andb_true_iff in H. destruct H as [Hc Hr].
  rewrite (IH Hr), andb_true_r. apply negb_true_iff.
  destruct (Ascii.eqb c ".") eqn:E; [| reflexivity].
  apply Ascii.eqb_eq in E. subst c. discriminate.
Qed.

Lemma array_index_dot_free (s : string) (i : Z) :
  array_index s = Some i -> dot_free s = true.
Proof.
  unfold array_index. destruct s as [| c r]; [discriminate |].
  destruct (all_digits (String c r)) eqn:Hd; [| discriminate].
  intros _. now apply all_digits_dot_free.
Qed.

Lemma split_dot_nonempty (s : string) : split_dot s <> [].
Proof.
  induction s as [| c r IH]; simpl; [discriminate |].
  destruct (Ascii.eqb c "."); [discriminate |].
  destruct (split_dot r); discriminate.
Qed.

Lemma split_dot_app (p s : string) :
  split_dot (p ++ String "." s)%string = split_dot p ++ split_dot s.
Proof.
  induction p as [| c r IH]; simpl; [reflexivity |].
  destruct (Ascii.eqb c "."); [now rewrite IH |].
  rewrite IH. pose proof (split_dot_nonempty r) as Hne.
  destruct (split_dot r) as [| h t]; [contradiction | reflexivity].
Qed.

Lemma walk_path_app (E : Engine) (l1 l2 : list string) (v w : jsval (host E)) :
  walk_path E v l1 = Some w ->
  walk_path E v (l1 ++ l2) = walk_path E w l2.
Proof.
  revert v. induction l1 as [| k r IH]; intros v; simpl.
  - intros [= ->]. reflexivity.
  - destruct v as [| d | h].
    + intros [= <-]. destruct l2; reflexivity.
    + destruct d; try apply IH. intros [= <-]. destruct l2; reflexivity.
    + destruct (host_get E h k); [apply IH | discriminate].
Qed.

(** C7, as amended.  When the value reached so far is an array, a
    segment that is the canonical decimal form of an index below the
    length of the array yields that element, the segment [length] yields
    the number of elements, and every other segment without a dot
    yields what the prototype chain of the array holds under that name,
    which is NOT_FOUND exactly when it holds nothing. *)
Theorem getNestedValue_array (E : Engine) (items : list Json) :
  (forall segment i x,
      array_index segment = Some i ->
      nth_error items (Z.to_nat i) = Some x ->
      getNestedValue E (JData (VArr items)) segment = Some (JData x))
  /\ getNestedValue E (JData (VArr items)) "length" =
     Some (JData (VNum (num_of_nat (List.length items))))
  /\ (forall segment,
      dot_free segment = true ->
      segment <> "length" ->
      (forall i, array_index segment = Some i ->
                 nth_error items (Z.to_nat i) = None) ->
      getNestedValue E (JData (VArr items)) segment =
      Some (inherited E (VArr items) segment))
  /\ (forall root path segment,
      getNestedValue E root path = Some (JData (VArr items)) ->
      getNestedValue E root (path ++ "." ++ segment)%string =
      getNestedValue E (JData (VArr items)) segment).
Proof.
  unfold getNestedValue. split; [| split; [| split]].
  - intros segment i x Hi Hx.
    rewrite (split_dot_dot_free _ (array_index_dot_free _ _ Hi)).
    simpl. now rewrite Hi, Hx.
  - reflexivity.
  - intros segment Hfree Hlen Hout. rewrite (split_dot_dot_free _ Hfree). simpl.
    destruct (array_index segment) as [i |].
    + now rewrite (Hout i eq_refl).
    + apply String.eqb_neq in Hlen. now rewrite Hlen.
  - intros root path segment Hpath.
    change (path ++ "." ++ segment)%string with (path ++ String "." segment)%string.
    rewrite split_dot_app.
    now apply walk_path_app.
Qed.

(** ** [matchesAllFilters] and [filterLines] *)

Lemma filterLines_step_selected (E : Engine) (filters : list Filter)
      (result : list string) (line : string) :
  filterLines_step E filters result line =
  result ++ (if selected E filters line then [trim line] else []).
Proof.
  unfold filterLines_step, selected.
  destruct (String.eqb (trim line) EmptyString); simpl; [now rewrite app_nil_r |].
  destruct (JSON_parse (trim line)) as [json |]; [| now rewrite app_nil_r].
  destruct (matchesAllFilters E (JData json) filters) as [[|] |];
    simpl; now rewrite ?app_nil_r.
Qed.

(** C8.  [filterLines] returns, in their original order, the trimmed
    texts of exactly the lines that are not empty after trimming, parse
    as JSON and satisfy [matchesAllFilters]; every other line is dropped
    without an error, and nothing is reordered, merged or cut off. *)
Theorem filterLines_selects (E : Engine) (lines : list string)
        (filters : list Filter) :
  filterLines E lines filters = map trim (filter (selected E filters) lines).
Proof.
  unfold filterLines.
  enough (Hloop : forall result,
             fold_left (filterLines_step E filters) lines result =
             result ++ map trim (filter (selected E filters) lines))
    by apply Hloop.
  induction lines as [| line rest IH]; intros result; simpl.
  - now rewrite app_nil_r.
  - rewrite IH, filterLines_step_selected, <- app_assoc.
    destruct (selected E filters line); reflexivity.
Qed.

Lemma to_string_arr_cons (x : Json) (rest : list Json) :
  to_string (VArr (x :: rest)) =
  match element_string x with
  | None => None
  | Some a =>
      match rest with
      | [] => Some a
      | _ :: _ =>
          match to_string (VArr rest) with
          | Some b => Some (a ++ "," ++ b)%string
          | None => None
          end
      end
  end.
Proof. destruct x; reflexivity. Qed.

Lemma to_string_join (items : list Json) (strings : list string) :
  Forall2 (fun x s => element_string x = Some s) items strings ->
  to_string (VArr items) = Some (String.concat "," strings).
Proof.
  induction 1 as [| x s items strings Hx Hrest IH]; [reflexivity |].
  rewrite to_string_arr_cons, Hx. destruct Hrest as [| y t items' strings' Hy Hr].
  - reflexivity.
  - rewrite IH. reflexivity.
Qed.

Lemma matchesAllFilters_single (E : Engine) (json : jsval (host E))
      (filter : Filter) (d : Json) :
  getNestedValue E json (key filter) = Some (JData d) ->
  matchesAllFilters E json [filter] =
  match to_string d with
  | Some s => Some (String.eqb s (value filter))
  | None => None
  end.
Proof.
  intros H. simpl. unfold filter_passes. rewrite H. simpl.
  destruct (to_string d) as [s |]; [| reflexivity].
  destruct (String.eqb s (value filter)); reflexivity.
Qed.

Lemma Some_eqb_true (a b : string) :
  Some (String.eqb a b) = Some true <-> b = a.
Proof.
  split.
  - intros H. assert (H' : String.eqb a b = true) by congruence.
    apply String.eqb_eq in H'. now symmetry.
  - intros ->. now rewrite String.eqb_refl.
Qed.

(** C10, as amended.  A path that resolves to a container is compared
    through [String()] like any other value.  A resolved array whose
    elements convert to strings ([null] elements to the empty string)
    satisfies the filter exactly when the filter value is those strings
    joined by commas; a resolved object without an own key [toString]
    satisfies it exactly when the filter value is [[object Object]]. *)
Theorem matchesAllFilters_container (E : Engine) (json : jsval (host E))
        (filter : Filter) :
  (forall items strings,
      getNestedValue E json (key filter) = Some (JData (VArr items)) ->
      Forall2 (fun x s => element_string x = Some s) items strings ->
      (matchesAllFilters E json [filter] = Some true <->
       value filter = String.concat "," strings))
  /\ (forall record,
      getNestedValue E json (key filter) = Some (JData (VObj record)) ->
      hasOwnProperty record "toString" = false ->
      (matchesAllFilters E json [filter] = Some true <->
       value filter = "[object Object]"%string)).
Proof.
  split.
  - intros items strings Hget Hall.
    rewrite (matchesAllFilters_single E json filter _ Hget), (to_string_join _ _ Hall).
    apply Some_eqb_true.
  - intros record Hget Hown.
    rewrite (matchesAllFilters_single E json filter _ Hget).
    cbn [to_string]. rewrite Hown. apply Some_eqb_true.
Qed.

(** ** [PreviewPanel.update] *)

(** C9.  With a non-empty custom order, the parsed line is reordered by
    [applyCustomOrder] alone, whatever [reorderKeys] says; without one,
    [reorderJsonKeys] is applied when [reorderKeys] is set.  String
    decoding, when enabled, runs afterwards on the value that the
    reordering returned. *)
Theorem update_custom_order_wins (state : PreviewState) (text : string)
        (json : Json) :
  trim text <> EmptyString ->
  JSON_parse (trim text) = Some json ->
  let decode (reordered : Json) :=
    if uriDecode state then decodeUriStrings_default reordered else reordered in
  (customOrder state <> [] ->
   update state text = Parsed (decode (applyCustomOrder json (customOrder state))))
  /\ (customOrder state = [] -> reorderKeys state = true ->
      update state text = Parsed (decode (reorderJsonKeys json)))
  /\ (customOrder state = [] -> reorderKeys state = false ->
      update state text = Parsed (decode json)).
Proof.
  intros Hne Hparse decode. unfold update.
  apply String.eqb_neq in Hne. rewrite Hne, Hparse.
  split; [| split].
  - intros Horder. destruct (customOrder state) as [| k r];
      [contradiction | reflexivity].
  - intros -> ->. reflexivity.
  - intros -> ->. reflexivity.
Qed.

(** ** Parsed values are well formed *)

Lemma literal_well_formed (w : string) (v : Json) (s : string) (x : Json) (r : string) :
  well_formed v -> literal w v s = Some (x, r) -> well_formed x.
Proof.
  unfold literal. intros Hv. destruct (String.prefix w s); [| discriminate].
  now intros [= <- _].
Qed.

Lemma parse_well_formed (fuel : nat) :
  (forall s v r, parse_value fuel s = Some (v, r) -> well_formed v)
  /\ (forall s acc v r,
        Forall well_formed acc ->
        parse_elements fuel s acc = Some (v, r) -> well_formed v)
  /\ (forall s acc v r,
        NoDup (keys acc) ->
        enumeration_order (keys acc) = true ->
        Forall (fun e => well_formed (snd e)) acc ->
        parse_members fuel s acc = Some (v, r) -> well_formed v).
Proof.
  induction fuel as [| fuel (IHv & IHe & IHm)].
  - repeat split; intros; discriminate.
  - split; [| split].
    + intros s v r. simpl.
      destruct (skip_ws s) as [| c t]; [discriminate |].
      destruct (Ascii.eqb c "{").
      { destruct (after "}" (skip_ws t)).
        - intros [= <- _]. constructor; [constructor | reflexivity | constructor].
        - apply IHm; [constructor | reflexivity | constructor]. }
      destruct (Ascii.eqb c "[").
      { destruct (after "]" (skip_ws t)).
        - intros [= <- _]. constructor. constructor.
        - apply IHe. constructor. }
      destruct (Ascii.eqb c dq).
      { destruct (parse_string_body _ t) as [[x y] |]; [| discriminate].
        intros [= <- _]. constructor. }
      destruct (Ascii.eqb c "t"); [apply literal_well_formed; constructor |].
      destruct (Ascii.eqb c "f"); [apply literal_well_formed; constructor |].
      destruct (Ascii.eqb c "n"); [apply literal_well_formed; constructor |].
      destruct (parse_number _) as [[n y] |]; [| discriminate].
      intros [= <- _]. constructor.
    + intros s acc v r Hacc. simpl.
      destruct (parse_value fuel s) as [[x t] |] eqn:Hx; [| discriminate].
      assert (Hall : Forall well_formed (acc ++ [x])).
      { apply Forall_app. split; [assumption |]. repeat constructor.
        exact (IHv _ _ _ Hx). }
      destruct (after "," (skip_ws t)); [now apply IHe |].
      destruct (after "]" (skip_ws t)); [| discriminate].
      intros [= <- _]. now constructor.
    + intros s acc v r Hnd Hord Hacc. simpl.
      destruct (after dq (skip_ws s)) as [t |]; [| discriminate].
      destruct (parse_string_body _ t) as [[k t1] |]; [| discriminate].
      destruct (after ":" (skip_ws t1)) as [t2 |]; [| discriminate].
      destruct (parse_value fuel t2) as [[x t3] |] eqn:Hx; [| discriminate].
      assert (Hnd' : NoDup (keys (define acc k x))) by now apply NoDup_keys_define.
      assert (Hord' : enumeration_order (keys (define acc k x)) = true)
        by now apply enumeration_order_define.
      assert (Hall : Forall (fun e => well_formed (snd e)) (define acc k x)).
      { apply Forall_define; [assumption |]. exact (IHv _ _ _ Hx). }
      destruct (after "," (skip_ws t3)); [now apply IHm |].
      destruct (after "}" (skip_ws t3)); [| discriminate].
      intros [= <- _]. now constructor.
Qed.

(** Every value that [JSON.parse] returns has distinct keys in each of
    its objects. *)
Lemma JSON_parse_well_formed (s : string) (v : Json) :
  JSON_parse s = Some v -> well_formed v.
Proof.
  unfold JSON_parse.
  destruct (parse_value _ s) as [[x r] |] eqn:Hx; [| discriminate].
  destruct (String.eqb (skip_ws r) EmptyString); [| discriminate].
  intros [= <-]. exact (proj1 (parse_well_formed _) _ _ _ Hx).
Qed.

(** ** The transformations return well-formed values *)

Lemma well_formed_primitive (v : Json) : is_container v = false -> well_formed v.
Proof. destruct v; simpl; try discriminate; constructor. Qed.

Lemma remaining_loop_filter (recurse : Json -> Json) (order : list string)
      (rest acc : props) :
  fold_left (remaining_step recurse order) rest acc =
  fold_left (assign_entry recurse)
            (filter (fun e => negb (includes order (fst e))) rest) acc.
Proof.
  revert acc. induction rest as [| [k v] r IH]; intros acc; simpl; [reflexivity |].
  destruct (includes order k); simpl; apply IH.
Qed.

Lemma reorderJsonKeys_well_formed (v : Json) : well_formed (reorderJsonKeys v).
Proof.
  induction v as [| b | n | s | items IH | record IH] using Json_ind;
    try (now simpl; constructor).
  - simpl. constructor. apply Forall_map. exact IH.
  - change (well_formed (VObj (members (reorderJsonKeys (VObj record))))).
    constructor; [apply reorderJsonKeys_keys_NoDup | |];
      rewrite reorderJsonKeys_members.
    { apply enumeration_order_spread, enumeration_order_spread. reflexivity. }
    apply Forall_spread; [apply Forall_spread; [constructor |] |].
    + apply (assign_loop_Forall (fun v => v)); [| constructor].
      apply Forall_forall. intros e He. apply filter_In in He. simpl.
      apply well_formed_primitive. now apply negb_true_iff.
    + apply assign_loop_Forall; [| constructor].
      apply Forall_forall. intros e He. apply filter_In in He. simpl.
      rewrite Forall_forall in IH. now apply IH.
Qed.

Lemma applyCustomOrder_well_formed (v : Json) (order : list string) :
  well_formed (applyCustomOrder v order).
Proof.
  induction v as [| b | n | s | items IH | record IH] using Json_ind;
    try (now simpl; constructor).
  - simpl. constructor. apply Forall_map. exact IH.
  - change (well_formed (VObj (members (applyCustomOrder (VObj record) order)))).
    constructor; [apply applyCustomOrder_keys_NoDup | |];
      rewrite applyCustomOrder_members.
    { apply enumeration_order_spread, enumeration_order_spread. reflexivity. }
    rewrite Forall_forall in IH.
    apply Forall_spread; [apply Forall_spread; [constructor |] |].
    + assert (H := ordered_loop_image (fun v => applyCustomOrder v order)
                     record order ([], true) (Forall_nil _)).
      eapply Forall_impl; [| exact H].
      intros [k x] (v & Hl & Hx). simpl in *. subst x.
      apply lookup_In in Hl. exact (IH _ Hl).
    + rewrite remaining_loop_filter. apply assign_loop_Forall; [| constructor].
      apply Forall_forall. intros e He. apply filter_In in He. simpl.
      now apply IH.
Qed.

Lemma decode_with_well_formed (budget : nat) (v : Json) :
  well_formed v -> well_formed (decode_with budget v).
Proof.
  revert v. induction budget as [| b IHb]; intros v; [trivial |].
  induction v as [| bo | n | s | items IH | record IH] using Json_ind;
    intros Hv; try exact Hv.
  - rewrite decode_with_str.
    destruct (looks_like_json _); [| constructor].
    destruct (JSON_parse (decoded_of s)) as [parsed |] eqn:Hp; [| constructor].
    apply IHb. exact (JSON_parse_well_formed _ _ Hp).
  - rewrite decode_with_arr. constructor. apply Forall_map.
    inversion Hv as [| | | | ? Hitems |]; subst.
    rewrite Forall_forall in *. intros x Hx. apply IH; auto.
  - rewrite decode_with_obj.
    inversion Hv as [| | | | | ? Hnd Hord Hmem]; subst.
    constructor.
    + apply assign_loop_NoDup. constructor.
    + apply enumeration_order_fold; [| reflexivity].
      intros o x. apply enumeration_order_assign.
    + apply assign_loop_Forall; [| constructor].
      rewrite Forall_forall in *. intros e He. simpl. apply IH; auto.
Qed.

Lemma decodeUriStrings_well_formed (v : Json) (maxDepth : Z) :
  well_formed v -> well_formed (decodeUriStrings v maxDepth).
Proof. apply decode_with_well_formed. Qed.

(** ** What [decodeUriStrings] changes *)

Lemma proto_free_members (record : props) :
  proto_free (VObj record) = true ->
  ~ In "__proto__"%string (keys record)
  /\ Forall (fun e => proto_free (snd e) = true) record.
Proof.
  simpl. rewrite forallb_forall. intros H. split.
  - unfold keys. rewrite in_map_iff. intros (e & He & Hin).
    specialize (H e Hin). apply andb_true_iff in H. destruct H as [H _].
    rewrite He in H. discriminate.
  - apply Forall_forall. intros e Hin. specialize (H e Hin).
    apply andb_true_iff in H. tauto.
Qed.

(** On a well-formed object without the key ["__proto__"] the loop of
    [decodeUriStrings] rebuilds the members in place: same keys, same
    order, every value decoded. *)
Lemma decodeUriStrings_object_exact (record : props) (maxDepth : Z) :
  0 < maxDepth ->
  NoDup (keys record) ->
  enumeration_order (keys record) = true ->
  ~ In "__proto__"%string (keys record) ->
  decodeUriStrings (VObj record) maxDepth =
  VObj (map (fun e => (fst e, decodeUriStrings (snd e) maxDepth)) record).
Proof.
  intros Hd Hnd Hord Hp. rewrite (decodeUriStrings_object _ _ Hd).
  now rewrite (assign_loop_exact (fun v => decodeUriStrings v maxDepth)).
Qed.

(** X22.  On a well-formed value in which no object has a key ["__proto__"],
    [decodeUriStrings] alters string leaves only: numbers, booleans and
    [null] are returned as they are, and every object keeps its keys
    and their order. *)
Lemma decodeUriStrings_alters_strings_only (v : Json) (maxDepth : Z) :
  0 < maxDepth ->
  well_formed v ->
  proto_free v = true ->
  decodeUriStrings v maxDepth =
  map_strings (fun s => decodeUriStrings (VStr s) maxDepth) v.
Proof.
  intros Hd.
  induction v as [| b | n | s | items IH | record IH] using Json_ind;
    intros Hv Hp; try reflexivity.
  - unfold decodeUriStrings.
    destruct (decodeUriStrings_positive maxDepth Hd) as (k & -> & _). reflexivity.
  - unfold decodeUriStrings.
    destruct (decodeUriStrings_positive maxDepth Hd) as (k & -> & _). reflexivity.
  - unfold decodeUriStrings.
    destruct (decodeUriStrings_positive maxDepth Hd) as (k & -> & _). reflexivity.
  - rewrite (decodeUriStrings_array _ _ Hd). simpl. f_equal.
    inversion Hv as [| | | | ? Hitems |]; subst.
    simpl in Hp. rewrite forallb_forall in Hp.
    apply map_ext_in. intros x Hx. rewrite Forall_forall in IH, Hitems.
    apply IH; auto.
  - inversion Hv as [| | | | | ? Hnd Hord Hmem]; subst.
    destruct (proto_free_members record Hp) as [Hkey Hfree].
    rewrite (decodeUriStrings_object_exact _ _ Hd Hnd Hord Hkey). simpl. f_equal.
    apply map_ext_in. intros e He. f_equal.
    rewrite Forall_forall in IH, Hmem, Hfree. apply IH; auto.
Qed.
(* ================================================================= *)
(** ** HTML escaping *)

Lemma string_app_assoc (a b c : string) :
  ((a ++ b) ++ c = a ++ (b ++ c))%string.
Proof. induction a as [|x a IH]; simpl; [reflexivity | now rewrite IH]. Qed.

Lemma replace_all_app (c : ascii) (rep a b : string) :
  replace_all c rep (a ++ b) = (replace_all c rep a ++ replace_all c rep b)%string.
Proof.
  induction a as [|x a IH]; simpl; [reflexivity|].
  rewrite IH. destruct (Ascii.eqb x c); simpl; [|reflexivity].
  now rewrite string_app_assoc.
Qed.

Lemma escapeHtml_char (c : ascii) :
  escapeHtml (String c EmptyString) = entity_of c.
Proof.
  unfold escapeHtml, entity_of. cbn [replace_all].
  destruct (Ascii.eqb c "&") eqn:E1; [reflexivity|]. cbn [replace_all].
  destruct (Ascii.eqb c "<") eqn:E2; [reflexivity|]. cbn [replace_all].
  destruct (Ascii.eqb c ">") eqn:E3; [reflexivity|]. cbn [replace_all].
  destruct (Ascii.eqb c dq) eqn:E4; [reflexivity|]. cbn [replace_all].
  destruct (Ascii.eqb c "'") eqn:E5; reflexivity.
Qed.

Lemma escapeHtml_cons (c : ascii) (r : string) :
  escapeHtml (String c r) = (entity_of c ++ escapeHtml r)%string.
Proof.
  rewrite <- escapeHtml_char.
  change (String c r) with (String c EmptyString ++ r)%string.
  unfold escapeHtml. now rewrite !replace_all_app.
Qed.

(** What [entity_of] gives: one of the five entities, or the character. *)
Lemma entity_of_cases (c : ascii) :
  c = "&"%char \/ c = "<"%char \/ c = ">"%char \/ c = dq \/ c = "'"%char \/
  (html_special c = false /\ entity_of c = String c EmptyString).
Proof.
  unfold html_special, entity_of.
  destruct (Ascii.eqb c "&") eqn:E1; [apply Ascii.eqb_eq in E1; tauto|].
  destruct (Ascii.eqb c "<") eqn:E2; [apply Ascii.eqb_eq in E2; tauto|].
  destruct (Ascii.eqb c ">") eqn:E3; [apply Ascii.eqb_eq in E3; tauto|].
  destruct (Ascii.eqb c dq) eqn:E4; [apply Ascii.eqb_eq in E4; tauto|].
  destruct (Ascii.eqb c "'") eqn:E5; [apply Ascii.eqb_eq in E5; tauto|].
  repeat right. split; reflexivity.
Qed.

Ltac entity_cases c :=
  destruct (entity_of_cases c) as [->|[->|[->|[->|[->|[? ?]]]]]].

Lemma occurs_app (c : ascii) (a b : string) :
  occurs c (a ++ b) = occurs c a || occurs c b.
Proof.
  induction a as [|x a IH]; simpl; [reflexivity|].
  rewrite IH. now rewrite orb_assoc.
Qed.

Lemma html_special_false (c : ascii) :
  html_special c = false ->
  Ascii.eqb c "&" = false /\ Ascii.eqb c "<" = false /\ Ascii.eqb c ">" = false /\
  Ascii.eqb c dq = false /\ Ascii.eqb c "'" = false.
Proof.
  unfold html_special. intros H.
  repeat (apply orb_false_iff in H; destruct H as [H ?]). tauto.
Qed.

Lemma occurs_entity_of (c x : ascii) :
  html_special x = true -> x <> "&"%char -> occurs x (entity_of c) = false.
Proof.
  intros Hx Hamp.
  assert (Hx' : x = "<"%char \/ x = ">"%char \/ x = dq \/ x = "'"%char).
  { entity_cases x; try tauto. congruence. }
  entity_cases c;
    try (destruct Hx' as [->|[->|[->| ->]]]; reflexivity).
  match goal with H : entity_of c = _ |- _ => rewrite H end. simpl.
  rewrite orb_false_r. apply Ascii.eqb_neq. intros ->.
  rewrite Hx in *. discriminate.
Qed.

Lemma ampersands_entity_of (c : ascii) (r : string) :
  ampersands_are_entities (entity_of c ++ r) = ampersands_are_entities r.
Proof.
  entity_cases c; try reflexivity.
  match goal with H : entity_of c = _ |- _ => rewrite H end.
  apply html_special_false in H as (E & _).
  cbn [append ampersands_are_entities]. now rewrite E.
Qed.

Lemma entity_of_inj (x y : ascii) (r1 r2 : string) :
  (entity_of x ++ r1 = entity_of y ++ r2)%string -> x = y /\ r1 = r2.
Proof.
  intros H.
  entity_cases x; entity_cases y; cbn in H;
    repeat match goal with
           | E : entity_of _ = _ |- _ => rewrite E in H; cbn in H
           end;
    try discriminate;
    try (injection H as <-; now split);
    try (injection H as -> ?; discriminate);
    try (injection H as <- ?; discriminate).
Qed.

Lemma length_app_string (a b : string) :
  String.length (a ++ b) = (String.length a + String.length b)%nat.
Proof. induction a as [|x a IH]; simpl; [reflexivity | now rewrite IH]. Qed.

Lemma length_entity_of (c : ascii) :
  (1 <= String.length (entity_of c))%nat /\
  (html_special c = true -> (1 < String.length (entity_of c))%nat).
Proof.
  entity_cases c; cbn; try (split; [lia | intros _; lia]).
  match goal with H : entity_of c = _ |- _ => rewrite H end.
  split; [simpl; lia | congruence].
Qed.

Lemma length_escapeHtml (text : string) :
  (String.length text <= String.length (escapeHtml text))%nat /\
  (has_special text = true ->
   (String.length text < String.length (escapeHtml text))%nat).
Proof.
  induction text as [|c r [IH1 IH2]]; [split; [reflexivity | discriminate]|].
  rewrite escapeHtml_cons, length_app_string.
  destruct (length_entity_of c) as [H1 H2]. cbn [String.length has_special].
  split; [lia|].
  intros H. apply orb_true_iff in H as [H|H]; [specialize (H2 H) | specialize (IH2 H)]; lia.
Qed.

Lemma escapeHtml_plain (text : string) :
  has_special text = false -> escapeHtml text = text.
Proof.
  induction text as [|c r IH]; [reflexivity|].
  cbn [has_special]. intros H. apply orb_false_iff in H as [Hc Hr].
  rewrite escapeHtml_cons, (IH Hr).
  entity_cases c; try discriminate.
  match goal with H : entity_of c = _ |- _ => now rewrite H end.
Qed.

Lemma escapeHtml_inj (a b : string) :
  escapeHtml a = escapeHtml b -> a = b.
Proof.
  revert b. induction a as [|x a IH]; intros [|y b] H.
  - reflexivity.
  - exfalso. pose proof (length_escapeHtml (String y b)) as [Hl _].
    rewrite <- H in Hl. simpl in Hl. lia.
  - exfalso. pose proof (length_escapeHtml (String x a)) as [Hl _].
    rewrite H in Hl. simpl in Hl. lia.
  - rewrite !escapeHtml_cons in H. apply entity_of_inj in H as [-> H].
    f_equal. now apply IH.
Qed.

(** X1.  The five replacements in a row act as one pass that replaces
    each of the five characters by its entity: an ampersand written by
    a replacement is never escaped again. *)
Theorem escapeHtml_single_pass (text : string) :
  escapeHtml text = escape_each text.
Proof.
  induction text as [|c r IH]; [reflexivity|].
  rewrite escapeHtml_cons, IH. reflexivity.
Qed.

(** X2.  The result of [escapeHtml] holds none of the characters
    [<], [>], the double quote and the apostrophe, and every ampersand
    in it starts one of the five entities. *)
Theorem escapeHtml_no_markup (text : string) :
  occurs "<" (escapeHtml text) = false /\
  occurs ">" (escapeHtml text) = false /\
  occurs dq (escapeHtml text) = false /\
  occurs "'" (escapeHtml text) = false /\
  ampersands_are_entities (escapeHtml text) = true.
Proof.
  induction text as [|c r (IH1 & IH2 & IH3 & IH4 & IH5)];
    [repeat split|].
  rewrite escapeHtml_cons, !occurs_app, ampersands_entity_of.
  rewrite IH1, IH2, IH3, IH4, IH5, !orb_false_r.
  repeat split; apply occurs_entity_of; (reflexivity || discriminate).
Qed.

(** X3.  [escapeHtml] loses nothing: two texts have the same escaping
    exactly when they are the same text. *)
Theorem escapeHtml_injective (a b : string) :
  String.eqb (escapeHtml a) (escapeHtml b) = String.eqb a b.
Proof.
  apply bool_eq_iff. rewrite !String.eqb_eq. split.
  - apply escapeHtml_inj.
  - now intros ->.
Qed.

(** X4.  Escaping distributes over concatenation: a page assembled
    from escaped parts is the escaping of the assembled text. *)
Theorem escapeHtml_app (a b : string) :
  escapeHtml (a ++ b) = (escapeHtml a ++ escapeHtml b)%string.
Proof. unfold escapeHtml. now rewrite !replace_all_app. Qed.

(** X5.  [escapeHtml] never shortens a text, and it returns the text
    unchanged exactly when the text holds none of the five characters. *)
Theorem escapeHtml_unchanged (text : string) :
  (String.length text <= String.length (escapeHtml text))%nat /\
  String.eqb (escapeHtml text) text = negb (has_special text).
Proof.
  split; [apply length_escapeHtml|].
  destruct (has_special text) eqn:H; simpl.
  - apply String.eqb_neq. intros E.
    pose proof (proj2 (length_escapeHtml text) H) as Hl.
    rewrite E in Hl. lia.
  - apply String.eqb_eq. now apply escapeHtml_plain.
Qed.
(* ================================================================= *)
(** ** JSON text embedded in the page *)

(** A match on a character literal, as a test with [after]. *)
Lemma match_minus (A : Type) (s : string) (X : string -> A) (Y : A) :
  match s with String "-" r => X r | _ => Y end
  = match after "-" s with Some r => X r | None => Y end.
Proof.
  destruct s as [|c r]; [reflexivity|].
  destruct c as [[] [] [] [] [] [] [] []]; reflexivity.
Qed.

Lemma match_zero (A : Type) (s : string) (X : string -> A) (Y : A) :
  match s with String "0" r => X r | _ => Y end
  = match after "0" s with Some r => X r | None => Y end.
Proof.
  destruct s as [|c r]; [reflexivity|].
  destruct c as [[] [] [] [] [] [] [] []]; reflexivity.
Qed.

Lemma match_dot (A : Type) (s : string) (X : string -> A) (Y : A) :
  match s with String "." r => X r | _ => Y end
  = match after "." s with Some r => X r | None => Y end.
Proof.
  destruct s as [|c r]; [reflexivity|].
  destruct c as [[] [] [] [] [] [] [] []]; reflexivity.
Qed.

Lemma match_sign (A : Type) (s : string) (X X' : string -> A) (Y : A) :
  match s with String "-" r => X r | String "+" r => X' r | _ => Y end
  = match after "-" s with
    | Some r => X r
    | None => match after "+" s with Some r => X' r | None => Y end
    end.
Proof.
  destruct s as [|c r]; [reflexivity|].
  destruct c as [[] [] [] [] [] [] [] []]; reflexivity.
Qed.

(** [parse_number] with its matches on character literals written as
    tests. *)
Lemma parse_number_tests (s : string) :
  parse_number s =
  let (neg, s1) := match after "-" s with
                   | Some r => (true, r)
                   | None => (false, s)
                   end in
  let (int, s2) := match after "0" s1 with
                   | Some r => ("0"%string, r)
                   | None => span_digits s1
                   end in
  if String.eqb int EmptyString then None
  else
    let frac := match after "." s2 with
                | Some r =>
                    let (d, t) := span_digits r in
                    if String.eqb d EmptyString then None else Some (d, t)
                | None => Some (EmptyString, s2)
                end in
    match frac with
    | None => None
    | Some (fr, s3) =>
        let exp := match s3 with
                   | String c r =>
                       if Ascii.eqb c "e" || Ascii.eqb c "E" then
                         let (sg, r1) :=
                           match after "-" r with
                           | Some t => (-1, t)
                           | None => match after "+" r with
                                     | Some t => (1, t)
                                     | None => (1, r)
                                     end
                           end in
                         let (d, t) := span_digits r1 in
                         if String.eqb d EmptyString then None
                         else Some (sg * digits_value 0 d, t)
                       else Some (0, s3)
                   | EmptyString => Some (0, s3)
                   end in
        match exp with
        | None => None
        | Some (ex, s4) =>
            let m := digits_value 0 (int ++ fr) in
            Some (normalize (if neg then - m else m)
                            (ex - Z.of_nat (String.length fr)), s4)
        end
    end.
Proof.
  unfold parse_number.
  rewrite (match_minus _ s (fun r => (true, r)) (false, s)).
  destruct (match after "-" s with Some r => (true, r) | None => (false, s) end)
    as [neg s1].
  rewrite (match_zero _ s1 (fun r => ("0"%string, r)) (span_digits s1)).
  destruct (match after "0" s1 with Some r => _ | None => _ end) as [int s2].
  destruct (String.eqb int EmptyString); [reflexivity|].
  rewrite (match_dot _ s2
             (fun r => let (d, t) := span_digits r in
                       if String.eqb d EmptyString then None else Some (d, t))
             (Some (EmptyString, s2))).
  destruct (match after "." s2 with Some r => _ | None => _ end) as [[fr s3]|];
    [|reflexivity].
  destruct s3 as [|c r]; [reflexivity|].
  destruct (Ascii.eqb c "e" || Ascii.eqb c "E"); [|reflexivity].
  rewrite (match_sign _ r (fun t => (-1, t)) (fun t => (1, t)) (1, r)).
  reflexivity.
Qed.

(** What [escapeJsonForHtml] does at the head of a text. *)
Lemma escapeJsonForHtml_cons (c : ascii) (r : string) :
  escapeJsonForHtml (String c r) =
  if Ascii.eqb c "<" then ("\u003c" ++ escapeJsonForHtml r)%string
  else String c (escapeJsonForHtml r).
Proof. reflexivity. Qed.

Lemma escapeJsonForHtml_other (c : ascii) (r : string) :
  Ascii.eqb c "<" = false ->
  escapeJsonForHtml (String c r) = String c (escapeJsonForHtml r).
Proof. intros H. now rewrite escapeJsonForHtml_cons, H. Qed.

Lemma escapeJsonForHtml_lt (r : string) :
  escapeJsonForHtml (String "<" r) = ("\u003c" ++ escapeJsonForHtml r)%string.
Proof. reflexivity. Qed.

(** The view of a text the parser proofs use: empty, starting with [<],
    or starting with another character. *)
Lemma head_cases (s : string) :
  s = EmptyString \/ (exists r, s = String "<" r) \/
  (exists c r, s = String c r /\ Ascii.eqb c "<" = false).
Proof.
  destruct s as [|c r]; [now left|]. right.
  destruct (Ascii.eqb c "<") eqn:E.
  - apply Ascii.eqb_eq in E. subst. left. now exists r.
  - right. now exists c, r.
Qed.

Ltac head_cases s :=
  let r := fresh "r" in let c := fresh "c" in let E := fresh "E" in
  destruct (head_cases s) as [->|[(r & ->)|(c & r & -> & E)]];
  [ | rewrite ?escapeJsonForHtml_lt | rewrite ?(escapeJsonForHtml_other _ _ E) ].

Lemma after_escaped (k : ascii) (s : string) :
  Ascii.eqb k "<" = false -> Ascii.eqb k "\" = false ->
  after k (escapeJsonForHtml s) = option_map escapeJsonForHtml (after k s).
Proof.
  intros H1 H2. head_cases s; [reflexivity| |].
  - cbn [append]. unfold after.
    now rewrite (Ascii.eqb_sym "\"%char k), H2, (Ascii.eqb_sym "<"%char k), H1.
  - unfold after. now destruct (Ascii.eqb c k).
Qed.

Lemma skip_ws_escaped (s : string) :
  skip_ws (escapeJsonForHtml s) = escapeJsonForHtml (skip_ws s).
Proof.
  induction s as [|c r IH]; [reflexivity|].
  destruct (Ascii.eqb c "<") eqn:E.
  - apply Ascii.eqb_eq in E. subst. reflexivity.
  - rewrite (escapeJsonForHtml_other _ _ E). cbn [skip_ws].
    destruct (is_json_ws c); [exact IH | now rewrite (escapeJsonForHtml_other _ _ E)].
Qed.

Lemma span_digits_escaped (s : string) :
  span_digits (escapeJsonForHtml s) =
  let (d, t) := span_digits s in (d, escapeJsonForHtml t).
Proof.
  induction s as [|c r IH]; [reflexivity|].
  destruct (Ascii.eqb c "<") eqn:E.
  - apply Ascii.eqb_eq in E. subst. reflexivity.
  - rewrite (escapeJsonForHtml_other _ _ E). cbn [span_digits].
    destruct (is_digit c).
    + rewrite IH. now destruct (span_digits r).
    + now rewrite (escapeJsonForHtml_other _ _ E).
Qed.

Lemma parse_number_escaped (s : string) :
  parse_number (escapeJsonForHtml s) =
  match parse_number s with
  | Some (n, r) => Some (n, escapeJsonForHtml r)
  | None => None
  end.
Proof.
  rewrite !parse_number_tests.
  rewrite (after_escaped "-") by reflexivity.
  destruct (after "-" s) as [s1|]; cbn [option_map].
  all: match goal with
       | |- context [after "0" (escapeJsonForHtml ?x)] =>
           rewrite (after_escaped "0" x) by reflexivity;
           destruct (after "0" x) as [s2|]; cbn [option_map];
           [| rewrite (span_digits_escaped x);
              destruct (span_digits x) as [int s2]]
       end.
  all: match goal with
       | |- context [String.eqb ?i EmptyString] =>
           destruct (String.eqb i EmptyString); [reflexivity|]
       end.
  all: match goal with
       | |- context [after "." (escapeJsonForHtml ?x)] =>
           rewrite (after_escaped "." x) by reflexivity;
           destruct (after "." x) as [s3|]; cbn [option_map];
           [ rewrite (span_digits_escaped s3);
             destruct (span_digits s3) as [fr s4];
             destruct (String.eqb fr EmptyString); [reflexivity|]
           | ]
       end.
  all: match goal with
       | |- context [match escapeJsonForHtml ?x with String _ _ => _ | EmptyString => _ end] =>
           head_cases x; [reflexivity | reflexivity |]
       end.
  all: destruct (Ascii.eqb c "e" || Ascii.eqb c "E");
    [| now rewrite (escapeJsonForHtml_other _ _ E)].
  all: rewrite (after_escaped "-") by reflexivity;
    destruct (after "-" r) as [t|]; cbn [option_map];
    [| rewrite (after_escaped "+") by reflexivity;
       destruct (after "+" r) as [t|]; cbn [option_map] ].
  all: match goal with
       | |- context [span_digits (escapeJsonForHtml ?x)] =>
           rewrite (span_digits_escaped x);
           destruct (span_digits x) as [d t'];
           destruct (String.eqb d EmptyString); reflexivity
       end.
Qed.

Lemma hex4_escaped (s : string) :
  hex4 (escapeJsonForHtml s) =
  match hex4 s with
  | Some (x, r) => Some (x, escapeJsonForHtml r)
  | None => None
  end.
Proof.
  head_cases s; [reflexivity | destruct r as [|? [|? [|? ?]]]; reflexivity |].
  rename c into a, r into s.
  head_cases s; [reflexivity | |].
  { destruct r as [|? [|? ?]]; unfold hex4; cbn [append];
      destruct (hex_digit a); reflexivity. }
  rename c into b, r into s.
  head_cases s; [reflexivity | |].
  { destruct r as [|? ?]; unfold hex4; cbn [append];
      destruct (hex_digit a); try reflexivity;
      destruct (hex_digit b); reflexivity. }
  rename c into c', r into s.
  head_cases s; [reflexivity | |].
  { unfold hex4; cbn [append].
    destruct (hex_digit a); try reflexivity;
      destruct (hex_digit b); try reflexivity;
      destruct (hex_digit c'); reflexivity. }
  unfold hex4.
  destruct (hex_digit a), (hex_digit b), (hex_digit c'), (hex_digit c); reflexivity.
Qed.

Lemma match_backslash_u (A : Type) (s : string) (X : string -> A) (Y : A) :
  match s with String "\" (String "u" r) => X r | _ => Y end
  = match after "\" s with
    | Some t => match after "u" t with Some r => X r | None => Y end
    | None => Y
    end.
Proof.
  destruct s as [|c s]; [reflexivity|].
  destruct c as [[] [] [] [] [] [] [] []]; try reflexivity.
  destruct s as [|c s]; [reflexivity|].
  destruct c as [[] [] [] [] [] [] [] []]; reflexivity.
Qed.

Lemma unicode_escape_tests (s : string) :
  unicode_escape s =
  match hex4 s with
  | None => None
  | Some (hi, r) =>
      if (55296 <=? hi) && (hi <=? 56319) then
        match after "\" r with
        | Some t =>
            match after "u" t with
            | Some r1 =>
                match hex4 r1 with
                | Some (lo, r2) =>
                    if (56320 <=? lo) && (lo <=? 57343)
                    then Some (65536 + 1024 * (hi - 55296) + (lo - 56320), r2)
                    else Some (hi, r)
                | None => Some (hi, r)
                end
            | None => Some (hi, r)
            end
        | None => Some (hi, r)
        end
      else Some (hi, r)
  end.
Proof.
  unfold unicode_escape.
  destruct (hex4 s) as [[hi r]|]; [|reflexivity].
  destruct ((55296 <=? hi) && (hi <=? 56319)); [|reflexivity].
  apply (match_backslash_u _ r
           (fun r1 => match hex4 r1 with
                      | Some (lo, r2) =>
                          if (56320 <=? lo) && (lo <=? 57343)
                          then Some (65536 + 1024 * (hi - 55296) + (lo - 56320), r2)
                          else Some (hi, r)
                      | None => Some (hi, r)
                      end)
           (Some (hi, r))).
Qed.

Lemma unicode_escape_escaped (s : string) :
  unicode_escape (escapeJsonForHtml s) =
  match unicode_escape s with
  | Some (cp, r) => Some (cp, escapeJsonForHtml r)
  | None => None
  end.
Proof.
  rewrite !unicode_escape_tests. rewrite hex4_escaped.
  destruct (hex4 s) as [[hi r]|]; [|reflexivity].
  destruct ((55296 <=? hi) && (hi <=? 56319)); [|reflexivity].
  destruct (head_cases r) as [->|[(r' & ->)|(c & r' & -> & E)]];
    [reflexivity | reflexivity |].
  rewrite (escapeJsonForHtml_other _ _ E). unfold after at 1 3.
  destruct (Ascii.eqb c "\");
    [|now rewrite (escapeJsonForHtml_other _ _ E)].
  rewrite (after_escaped "u") by reflexivity.
  destruct (after "u" r') as [r1|]; cbn [option_map];
    [|now rewrite (escapeJsonForHtml_other _ _ E)].
  rewrite hex4_escaped. destruct (hex4 r1) as [[lo r2]|];
    [|now rewrite (escapeJsonForHtml_other _ _ E)].
  destruct ((56320 <=? lo) && (lo <=? 57343));
    [reflexivity | now rewrite (escapeJsonForHtml_other _ _ E)].
Qed.

Lemma parse_string_body_step (fuel : nat) (c : ascii) (r : string) :
  parse_string_body (S fuel) (String c r) =
  if Ascii.eqb c dq then Some (EmptyString, r)
  else if Ascii.eqb c "\" then
    match r with
    | EmptyString => None
    | String e r1 =>
        let simple (x : Z) :=
          match parse_string_body fuel r1 with
          | Some (t, r2) => Some (String (chr x) t, r2)
          | None => None
          end in
        if Ascii.eqb e dq then simple 34
        else if Ascii.eqb e "\" then simple 92
        else if Ascii.eqb e "/" then simple 47
        else if Ascii.eqb e "b" then simple 8
        else if Ascii.eqb e "f" then simple 12
        else if Ascii.eqb e "n" then simple 10
        else if Ascii.eqb e "r" then simple 13
        else if Ascii.eqb e "t" then simple 9
        else if Ascii.eqb e "u" then
          match unicode_escape r1 with
          | Some (cp, r2) =>
              match parse_string_body fuel r2 with
              | Some (t, r3) => Some ((utf8_encode cp ++ t)%string, r3)
              | None => None
              end
          | None => None
          end
        else None
    end
  else if code c <? 32 then None
  else
    match parse_string_body fuel r with
    | Some (t, r1) => Some (String c t, r1)
    | None => None
    end.
Proof. reflexivity. Qed.

Lemma parse_string_body_lt (fuel : nat) (r : string) :
  parse_string_body (S fuel) (String "<" r) =
  match parse_string_body fuel r with
  | Some (t, r1) => Some (String "<" t, r1)
  | None => None
  end.
Proof. reflexivity. Qed.

Lemma parse_string_body_u003c (fuel : nat) (r : string) :
  parse_string_body (S fuel) ("\u003c" ++ r) =
  match parse_string_body fuel r with
  | Some (t, r1) => Some (String "<" t, r1)
  | None => None
  end.
Proof. reflexivity. Qed.

Lemma parse_string_body_escaped (fuel : nat) :
  forall s t r,
    parse_string_body fuel s = Some (t, r) ->
    parse_string_body fuel (escapeJsonForHtml s) = Some (t, escapeJsonForHtml r).
Proof.
  induction fuel as [|fuel IH]; intros s t r H; [discriminate|].
  destruct (head_cases s) as [->|[(s' & ->)|(c & s' & -> & E)]]; [discriminate| |].
  - rewrite escapeJsonForHtml_lt, parse_string_body_u003c.
    rewrite parse_string_body_lt in H.
    destruct (parse_string_body fuel s') as [[t' r']|] eqn:Hb; [|discriminate].
    injection H as <- <-. now rewrite (IH _ _ _ Hb).
  - rewrite (escapeJsonForHtml_other _ _ E).
    rewrite parse_string_body_step in H |- *.
    destruct (Ascii.eqb c dq); [now injection H as <- <-|].
    destruct (Ascii.eqb c "\").
    + destruct (head_cases s') as [->|[(r' & ->)|(e & r' & -> & E')]];
        [discriminate | discriminate |].
      rewrite (escapeJsonForHtml_other _ _ E'). cbv zeta in H |- *.
      repeat match type of H with
             | (if ?b then _ else _) = _ => destruct b
             end;
        try discriminate;
        try (destruct (parse_string_body fuel r') as [[t' r1]|] eqn:Hb;
             [|discriminate]; injection H as <- <-; now rewrite (IH _ _ _ Hb)).
      rewrite unicode_escape_escaped.
      destruct (unicode_escape r') as [[cp r2]|]; [|discriminate].
      destruct (parse_string_body fuel r2) as [[t' r3]|] eqn:Hb; [|discriminate].
      injection H as <- <-. now rewrite (IH _ _ _ Hb).
    + destruct (code c <? 32); [discriminate|].
      destruct (parse_string_body fuel s') as [[t' r1]|] eqn:Hb; [|discriminate].
      injection H as <- <-. now rewrite (IH _ _ _ Hb).
Qed.

Lemma parse_string_body_more (fuel : nat) :
  forall s x,
    parse_string_body fuel s = Some x -> parse_string_body (S fuel) s = Some x.
Proof.
  induction fuel as [|fuel IH]; intros s x H; [discriminate|].
  destruct s as [|c s]; [discriminate|].
  rewrite parse_string_body_step in H. rewrite (parse_string_body_step (S fuel)).
  destruct (Ascii.eqb c dq); [assumption|].
  destruct (Ascii.eqb c "\").
  - destruct s as [|e r']; [discriminate|]. cbv zeta in H |- *.
    repeat match type of H with
           | (if ?b then _ else _) = _ => destruct b
           end;
      try discriminate;
      try (destruct (parse_string_body fuel r') as [[t' r1]|] eqn:Hb;
           [|discriminate]; now rewrite (IH _ _ Hb)).
    destruct (unicode_escape r') as [[cp r2]|]; [|discriminate].
    destruct (parse_string_body fuel r2) as [[t' r3]|] eqn:Hb; [|discriminate].
    now rewrite (IH _ _ Hb).
  - destruct (code c <? 32); [discriminate|].
    destruct (parse_string_body fuel s) as [[t' r1]|] eqn:Hb; [|discriminate].
    now rewrite (IH _ _ Hb).
Qed.

Lemma parse_string_body_mono (fuel fuel' : nat) (s : string) x :
  (fuel <= fuel')%nat ->
  parse_string_body fuel s = Some x -> parse_string_body fuel' s = Some x.
Proof.
  induction 1 as [|m _ IH]; [trivial|].
  intros H. apply parse_string_body_more. now apply IH.
Qed.

Lemma length_escapeJsonForHtml (s : string) :
  (String.length s <= String.length (escapeJsonForHtml s))%nat.
Proof.
  induction s as [|c r IH]; [reflexivity|].
  rewrite escapeJsonForHtml_cons. destruct (Ascii.eqb c "<"); simpl; lia.
Qed.

Lemma prefix_escaped (w : string) :
  forall s,
    occurs "<" w = false -> String.prefix w s = true ->
    String.prefix w (escapeJsonForHtml s) = true /\
    drop (String.length w) (escapeJsonForHtml s)
    = escapeJsonForHtml (drop (String.length w) s).
Proof.
  induction w as [|a w IH]; intros s Hw Hp.
  - split; [now destruct (escapeJsonForHtml s) | reflexivity].
  - destruct s as [|b s]; [discriminate|]. cbn [String.prefix] in Hp.
    destruct (ascii_dec a b) as [<-|]; [|discriminate].
    cbn [occurs] in Hw. apply orb_false_iff in Hw as [Ha Hw].
    rewrite (escapeJsonForHtml_other _ _ Ha). cbn [String.prefix String.length drop].
    destruct (ascii_dec a a) as [_|]; [|congruence]. now apply IH.
Qed.

Lemma literal_escaped (w : string) (v : Json) (s : string) x r :
  occurs "<" w = false ->
  literal w v s = Some (x, r) ->
  literal w v (escapeJsonForHtml s) = Some (x, escapeJsonForHtml r).
Proof.
  unfold literal. intros Hw H.
  destruct (String.prefix w s) eqn:Hp; [|discriminate].
  injection H as <- <-.
  destruct (prefix_escaped w s Hw Hp) as [-> ->]. reflexivity.
Qed.

Lemma parse_value_step (fuel : nat) (s : string) :
  parse_value (S fuel) s =
  match skip_ws s with
  | EmptyString => None
  | String c r =>
      if Ascii.eqb c "{" then
        match after "}" (skip_ws r) with
        | Some r' => Some (VObj [], r')
        | None => parse_members fuel r []
        end
      else if Ascii.eqb c "[" then
        match after "]" (skip_ws r) with
        | Some r' => Some (VArr [], r')
        | None => parse_elements fuel r []
        end
      else if Ascii.eqb c dq then
        match parse_string_body (String.length r) r with
        | Some (t, r') => Some (VStr t, r')
        | None => None
        end
      else if Ascii.eqb c "t" then literal "true" (VBool true) (String c r)
      else if Ascii.eqb c "f" then literal "false" (VBool false) (String c r)
      else if Ascii.eqb c "n" then literal "null" VNull (String c r)
      else
        match parse_number (String c r) with
        | Some (n, r') => Some (VNum n, r')
        | None => None
        end
  end.
Proof. reflexivity. Qed.

Lemma parse_elements_step (fuel : nat) (s : string) (acc : list Json) :
  parse_elements (S fuel) s acc =
  match parse_value fuel s with
  | Some (v, r) =>
      match after "," (skip_ws r) with
      | Some r' => parse_elements fuel r' (acc ++ [v])
      | None =>
          match after "]" (skip_ws r) with
          | Some r' => Some (VArr (acc ++ [v]), r')
          | None => None
          end
      end
  | None => None
  end.
Proof. reflexivity. Qed.

Lemma parse_members_step (fuel : nat) (s : string) (acc : props) :
  parse_members (S fuel) s acc =
  match after dq (skip_ws s) with
  | Some r =>
      match parse_string_body (String.length r) r with
      | Some (k, r1) =>
          match after ":" (skip_ws r1) with
          | Some r2 =>
              match parse_value fuel r2 with
              | Some (v, r3) =>
                  match after "," (skip_ws r3) with
                  | Some r4 => parse_members fuel r4 (define acc k v)
                  | None =>
                      match after "}" (skip_ws r3) with
                      | Some r4 => Some (VObj (define acc k v), r4)
                      | None => None
                      end
                  end
              | None => None
              end
          | None => None
          end
      | None => None
      end
  | None => None
  end.
Proof. reflexivity. Qed.

(** More fuel does not change a result. *)
Lemma parse_more (fuel : nat) :
  (forall s x, parse_value fuel s = Some x -> parse_value (S fuel) s = Some x) /\
  (forall s acc x,
      parse_elements fuel s acc = Some x -> parse_elements (S fuel) s acc = Some x) /\
  (forall s acc x,
      parse_members fuel s acc = Some x -> parse_members (S fuel) s acc = Some x).
Proof.
  induction fuel as [|fuel (IHv & IHe & IHm)];
    [repeat split; intros; discriminate|].
  split; [|split].
  - intros s x H. rewrite parse_value_step in H. rewrite (parse_value_step (S fuel)).
    destruct (skip_ws s) as [|c r]; [discriminate|].
    destruct (Ascii.eqb c "{").
    { destruct (after "}" (skip_ws r)); [assumption | now apply IHm]. }
    destruct (Ascii.eqb c "[").
    { destruct (after "]" (skip_ws r)); [assumption | now apply IHe]. }
    assumption.
  - intros s acc x H. rewrite parse_elements_step in H.
    rewrite (parse_elements_step (S fuel)).
    destruct (parse_value fuel s) as [[v r]|] eqn:Hv; [|discriminate].
    rewrite (IHv _ _ Hv).
    destruct (after "," (skip_ws r)); [now apply IHe | assumption].
  - intros s acc x H. rewrite parse_members_step in H.
    rewrite (parse_members_step (S fuel)).
    destruct (after dq (skip_ws s)) as [r|]; [|discriminate].
    destruct (parse_string_body (String.length r) r) as [[k r1]|]; [|discriminate].
    destruct (after ":" (skip_ws r1)) as [r2|]; [|discriminate].
    destruct (parse_value fuel r2) as [[v r3]|] eqn:Hv; [|discriminate].
    rewrite (IHv _ _ Hv).
    destruct (after "," (skip_ws r3)); [now apply IHm | assumption].
Qed.

Lemma parse_value_mono (fuel fuel' : nat) (s : string) x :
  (fuel <= fuel')%nat ->
  parse_value fuel s = Some x -> parse_value fuel' s = Some x.
Proof.
  induction 1 as [|m _ IH]; [trivial|].
  intros H. apply parse_more. now apply IH.
Qed.

Lemma parse_string_escaped (s : string) t r :
  parse_string_body (String.length s) s = Some (t, r) ->
  parse_string_body (String.length (escapeJsonForHtml s)) (escapeJsonForHtml s)
  = Some (t, escapeJsonForHtml r).
Proof.
  intros H. apply parse_string_body_escaped in H.
  exact (parse_string_body_mono _ _ _ _ (length_escapeJsonForHtml s) H).
Qed.

Lemma parse_escaped (fuel : nat) :
  (forall s v r,
      parse_value fuel s = Some (v, r) ->
      parse_value fuel (escapeJsonForHtml s) = Some (v, escapeJsonForHtml r)) /\
  (forall s acc v r,
      parse_elements fuel s acc = Some (v, r) ->
      parse_elements fuel (escapeJsonForHtml s) acc
      = Some (v, escapeJsonForHtml r)) /\
  (forall s acc v r,
      parse_members fuel s acc = Some (v, r) ->
      parse_members fuel (escapeJsonForHtml s) acc
      = Some (v, escapeJsonForHtml r)).
Proof.
  induction fuel as [|fuel (IHv & IHe & IHm)];
    [repeat split; intros; discriminate|].
  split; [|split].
  - intros s v r0 H. rewrite parse_value_step in H |- *.
    rewrite skip_ws_escaped.
    destruct (head_cases (skip_ws s)) as [Hs|[(r & Hs)|(c & r & Hs & E)]];
      rewrite Hs in H |- *; [discriminate | discriminate |].
    rewrite (escapeJsonForHtml_other _ _ E).
    destruct (Ascii.eqb c "{").
    { rewrite skip_ws_escaped, (after_escaped "}") by reflexivity.
      destruct (after "}" (skip_ws r)); cbn [option_map];
        [now injection H as <- <- | now apply IHm]. }
    destruct (Ascii.eqb c "[").
    { rewrite skip_ws_escaped, (after_escaped "]") by reflexivity.
      destruct (after "]" (skip_ws r)); cbn [option_map];
        [now injection H as <- <- | now apply IHe]. }
    destruct (Ascii.eqb c dq).
    { destruct (parse_string_body (String.length r) r) as [[t r']|] eqn:Hb;
        [|discriminate].
      injection H as <- <-. now rewrite (parse_string_escaped _ _ _ Hb). }
    rewrite <- (escapeJsonForHtml_other _ _ E).
    destruct (Ascii.eqb c "t"); [now apply literal_escaped|].
    destruct (Ascii.eqb c "f"); [now apply literal_escaped|].
    destruct (Ascii.eqb c "n"); [now apply literal_escaped|].
    rewrite parse_number_escaped.
    destruct (parse_number (String c r)) as [[n r']|]; [|discriminate].
    now injection H as <- <-.
  - intros s acc v r0 H. rewrite parse_elements_step in H |- *.
    destruct (parse_value fuel s) as [[v' r]|] eqn:Hv; [|discriminate].
    rewrite (IHv _ _ _ Hv).
    rewrite skip_ws_escaped, (after_escaped ",") by reflexivity.
    destruct (after "," (skip_ws r)); cbn [option_map]; [now apply IHe|].
    rewrite (after_escaped "]") by reflexivity.
    destruct (after "]" (skip_ws r)); cbn [option_map]; [|discriminate].
    now injection H as <- <-.
  - intros s acc v r0 H. rewrite parse_members_step in H |- *.
    rewrite skip_ws_escaped, (after_escaped dq) by reflexivity.
    destruct (after dq (skip_ws s)) as [r|]; cbn [option_map]; [|discriminate].
    destruct (parse_string_body (String.length r) r) as [[k r1]|] eqn:Hs;
      [|discriminate].
    rewrite (parse_string_escaped _ _ _ Hs).
    rewrite skip_ws_escaped, (after_escaped ":") by reflexivity.
    destruct (after ":" (skip_ws r1)) as [r2|]; cbn [option_map]; [|discriminate].
    destruct (parse_value fuel r2) as [[v' r3]|] eqn:Hv; [|discriminate].
    rewrite (IHv _ _ _ Hv).
    rewrite skip_ws_escaped, (after_escaped ",") by reflexivity.
    destruct (after "," (skip_ws r3)); cbn [option_map]; [now apply IHm|].
    rewrite (after_escaped "}") by reflexivity.
    destruct (after "}" (skip_ws r3)); cbn [option_map]; [|discriminate].
    now injection H as <- <-.
Qed.

Lemma occurs_replace_all (c : ascii) (rep text : string) :
  occurs c rep = false -> occurs c (replace_all c rep text) = false.
Proof.
  intros Hrep. induction text as [|x r IH]; [reflexivity|].
  cbn [replace_all]. destruct (Ascii.eqb x c) eqn:E.
  - now rewrite occurs_app, Hrep, IH.
  - cbn [occurs]. now rewrite E, IH.
Qed.

Lemma replace_all_absent (c : ascii) (rep text : string) :
  occurs c text = false -> replace_all c rep text = text.
Proof.
  induction text as [|x r IH]; [reflexivity|].
  cbn [occurs replace_all]. intros H. apply orb_false_iff in H as [-> H].
  now rewrite IH.
Qed.

(** X6.  The result of [escapeJsonForHtml] holds no [<], so it cannot
    close the script element it is written into, and a text without
    [<], and only such a text, is returned as it is. *)
Theorem escapeJsonForHtml_no_lt (jsonString : string) :
  occurs "<" (escapeJsonForHtml jsonString) = false /\
  String.eqb (escapeJsonForHtml jsonString) jsonString
  = negb (occurs "<" jsonString).
Proof.
  assert (H : occurs "<" (escapeJsonForHtml jsonString) = false)
    by now apply occurs_replace_all.
  split; [exact H|].
  destruct (occurs "<" jsonString) eqn:Ho; cbn [negb].
  - apply String.eqb_neq. intros Heq. rewrite Heq in H. congruence.
  - apply String.eqb_eq. now apply replace_all_absent.
Qed.

(** X7.  [JSON.parse] reads the escaped text as it reads the text: a
    JSON text that parses to a value still parses to that value after
    [escapeJsonForHtml]. *)
Theorem escapeJsonForHtml_transparent (jsonString : string) (v : Json) :
  JSON_parse jsonString = Some v ->
  JSON_parse (escapeJsonForHtml jsonString) = Some v.
Proof.
  unfold JSON_parse. intros H.
  destruct (parse_value _ jsonString) as [[v' r]|] eqn:Hp; [|discriminate].
  destruct (String.eqb (skip_ws r) EmptyString) eqn:He; [|discriminate].
  injection H as ->.
  apply (proj1 (parse_escaped _)) in Hp.
  apply (parse_value_mono _ (2 * String.length (escapeJsonForHtml jsonString) + 2))
    in Hp; [|pose proof (length_escapeJsonForHtml jsonString); lia].
  rewrite Hp, skip_ws_escaped.
  apply String.eqb_eq in He. now rewrite He.
Qed.

Lemma escapeJsonForHtml_transparent_witness :
  JSON_parse (js "{'a':['<b>',1]}") = Some (parsed "{'a':['<b>',1]}") /\
  occurs "<" (js "{'a':['<b>',1]}") = true /\
  JSON_parse (escapeJsonForHtml (js "{'a':['<b>',1]}"))
  = Some (VObj [("a"%string, VArr [VStr "<b>"; num 1])]).
Proof.
  split; [reflexivity|]. split; [reflexivity|].
  apply (escapeJsonForHtml_transparent (js "{'a':['<b>',1]}")). reflexivity.
Defined.
(* ================================================================= *)
(** ** White space and [trim] *)

Lemma prefix_iff (w s : string) :
  String.prefix w s = true <-> exists r, s = (w ++ r)%string.
Proof.
  revert s. induction w as [|a w IH]; intros s.
  - split; [intros _; now exists s | intros _; now destruct s].
  - destruct s as [|b s]; cbn [String.prefix].
    + split; [discriminate | intros (r & Hr); discriminate].
    + destruct (ascii_dec a b) as [<-|Hab].
      * rewrite IH. split; intros (r & Hr); exists r.
        -- cbn. now rewrite Hr.
        -- cbn in Hr. now injection Hr.
      * split; [discriminate | intros (r & Hr); cbn in Hr; congruence].
Qed.

Lemma drop_app_length (w r : string) : drop (String.length w) (w ++ r) = r.
Proof. induction w as [|a w IH]; [now destruct r | exact IH]. Qed.

Lemma prefix_comparable (w1 w2 r1 r2 : string) :
  (w1 ++ r1 = w2 ++ r2)%string ->
  String.prefix w1 w2 = true \/ String.prefix w2 w1 = true.
Proof.
  revert w2. induction w1 as [|a w1 IH]; intros [|b w2] H.
  - now left.
  - now left.
  - right. reflexivity.
  - cbn in H. injection H as <- H. cbn [String.prefix].
    destruct (ascii_dec a a) as [_|]; [|congruence]. now apply IH.
Qed.

Lemma js_whitespace_prefix_free (w1 w2 : string) :
  In w1 js_whitespace -> In w2 js_whitespace ->
  String.prefix w1 w2 = true -> w1 = w2.
Proof.
  assert (H : forallb (fun a => forallb (fun b =>
                implb (String.prefix a b) (String.eqb a b)) js_whitespace)
                js_whitespace = true) by (vm_compute; reflexivity).
  intros H1 H2 Hp. rewrite forallb_forall in H. specialize (H _ H1).
  rewrite forallb_forall in H. specialize (H _ H2).
  rewrite Hp in H. now apply String.eqb_eq.
Qed.

Lemma js_whitespace_nonempty (w : string) :
  In w js_whitespace -> (0 < String.length w)%nat.
Proof.
  assert (H : forallb (fun a => Nat.ltb 0 (String.length a)) js_whitespace = true)
    by (vm_compute; reflexivity).
  intros Hw. rewrite forallb_forall in H. now apply Nat.ltb_lt, H.
Qed.

Lemma strip_ws_Some (s r : string) :
  strip_ws s = Some r <-> exists w, In w js_whitespace /\ s = (w ++ r)%string.
Proof.
  unfold strip_ws. split.
  - destruct (find _ js_whitespace) as [w|] eqn:Hf; [|discriminate].
    intros [= <-]. apply find_some in Hf as [Hin Hp].
    apply prefix_iff in Hp as (r & ->). exists w.
    now rewrite drop_app_length.
  - intros (w & Hin & ->).
    destruct (find _ js_whitespace) as [w'|] eqn:Hf.
    + apply find_some in Hf as [Hin' Hp]. apply prefix_iff in Hp as (r' & Hr').
      assert (w' = w) as ->.
      { destruct (prefix_comparable _ _ _ _ Hr') as [H|H].
        - symmetry. now apply js_whitespace_prefix_free.
        - now apply js_whitespace_prefix_free. }
      now rewrite drop_app_length.
    + exfalso. apply (find_none _ _ Hf) in Hin.
      assert (String.prefix w (w ++ r) = true) by (apply prefix_iff; now exists r).
      congruence.
Qed.

Lemma strip_ws_shorter (s r : string) :
  strip_ws s = Some r -> (String.length r < String.length s)%nat.
Proof.
  intros H. apply strip_ws_Some in H as (w & Hin & ->).
  rewrite length_app_string. apply js_whitespace_nonempty in Hin. lia.
Qed.

Lemma strip_ws_app (a a' b : string) :
  strip_ws a = Some a' -> strip_ws (a ++ b) = Some (a' ++ b)%string.
Proof.
  intros H. apply strip_ws_Some in H as (w & Hin & ->).
  apply strip_ws_Some. exists w. split; [assumption | apply string_app_assoc].
Qed.

Lemma trimStart_fuel_more (fuel : nat) :
  forall s, (String.length s <= fuel)%nat ->
            trimStart_fuel (S fuel) s = trimStart_fuel fuel s.
Proof.
  induction fuel as [|fuel IH]; intros s Hlen.
  - destruct s; [reflexivity | simpl in Hlen; lia].
  - cbn [trimStart_fuel] in *. destruct (strip_ws s) as [r|] eqn:Hs; [|reflexivity].
    apply IH. apply strip_ws_shorter in Hs. lia.
Qed.

Lemma trimStart_fuel_enough (fuel : nat) (s : string) :
  (String.length s <= fuel)%nat -> trimStart_fuel fuel s = trimStart s.
Proof.
  unfold trimStart. induction 1 as [|m Hle IH]; [reflexivity|].
  now rewrite trimStart_fuel_more.
Qed.

Lemma trimStart_step (s : string) :
  trimStart s = match strip_ws s with Some r => trimStart r | None => s end.
Proof.
  rewrite <- (trimStart_fuel_enough (S (String.length s))) by lia.
  cbn [trimStart_fuel]. destruct (strip_ws s) as [r|] eqn:Hs; [|reflexivity].
  apply trimStart_fuel_enough. apply strip_ws_shorter in Hs. lia.
Qed.

(** Induction on the length of a string. *)
Lemma string_length_ind (P : string -> Prop) :
  (forall s, (forall r, (String.length r < String.length s)%nat -> P r) -> P s) ->
  forall s, P s.
Proof.
  intros H s. remember (String.length s) as n eqn:Hn.
  revert s Hn. induction n as [n IH] using lt_wf_ind.
  intros s ->. apply H. intros r Hr. now apply (IH _ Hr).
Qed.

Lemma strip_ws_trimStart (s : string) : strip_ws (trimStart s) = None.
Proof.
  induction s as [s IH] using string_length_ind.
  rewrite trimStart_step. destruct (strip_ws s) as [r|] eqn:Hs; [|assumption].
  apply IH. now apply strip_ws_shorter.
Qed.

Lemma trimStart_fixed (s : string) : strip_ws s = None -> trimStart s = s.
Proof. intros H. now rewrite trimStart_step, H. Qed.

Lemma trimStart_app_blank (a b : string) :
  trimStart a = EmptyString -> trimStart (a ++ b) = trimStart b.
Proof.
  induction a as [a IH] using string_length_ind. intros Ha.
  rewrite trimStart_step in Ha. destruct (strip_ws a) as [a'|] eqn:Hs.
  - rewrite (trimStart_step (a ++ b)), (strip_ws_app _ _ b Hs).
    apply IH; [now apply strip_ws_shorter | assumption].
  - now subst.
Qed.

Lemma trimEnd_split (t : string) :
  exists rest, t = (trimEnd t ++ rest)%string /\ trimStart rest = EmptyString.
Proof.
  induction t as [|c r (rest & Hr & Hb)]; [now exists EmptyString|].
  cbn [trimEnd]. destruct (String.eqb (trimStart (String c r)) EmptyString) eqn:E.
  - apply String.eqb_eq in E. now exists (String c r).
  - exists rest. split; [cbn; congruence | assumption].
Qed.

Lemma trimEnd_trimEnd (t : string) : trimEnd (trimEnd t) = trimEnd t.
Proof.
  induction t as [|c r IH]; [reflexivity|].
  cbn [trimEnd]. destruct (String.eqb (trimStart (String c r)) EmptyString) eqn:E;
    [reflexivity|].
  cbn [trimEnd]. rewrite IH.
  destruct (String.eqb (trimStart (String c (trimEnd r))) EmptyString) eqn:E';
    [|reflexivity].
  exfalso. apply String.eqb_eq in E'. apply String.eqb_neq in E. apply E.
  destruct (trimEnd_split r) as (rest & Hr & Hb).
  rewrite Hr at 1.
  change (String c (trimEnd r ++ rest)) with (String c (trimEnd r) ++ rest)%string.
  now rewrite (trimStart_app_blank _ _ E').
Qed.

Lemma strip_ws_trimEnd (t : string) :
  strip_ws t = None -> strip_ws (trimEnd t) = None.
Proof.
  intros H. destruct (strip_ws (trimEnd t)) as [r|] eqn:Hs; [|reflexivity].
  destruct (trimEnd_split t) as (rest & Ht & _).
  apply (strip_ws_app _ _ rest) in Hs. rewrite <- Ht in Hs. congruence.
Qed.

Lemma trim_trim (s : string) : trim (trim s) = trim s.
Proof.
  unfold trim.
  rewrite (trimStart_fixed (trimEnd (trimStart s)))
    by apply strip_ws_trimEnd, strip_ws_trimStart.
  apply trimEnd_trimEnd.
Qed.
(* ================================================================= *)
(** ** More on [matchesAllFilters] and [filterLines] *)

Lemma matchesAllFilters_true (E : Engine) (json : jsval (host E))
      (filters : list Filter) :
  matchesAllFilters E json filters = Some true <->
  forall f, In f filters -> filter_passes E json f = Some true.
Proof.
  induction filters as [|f rest IH]; cbn [matchesAllFilters].
  - split; [intros _ f [] | reflexivity].
  - destruct (filter_passes E json f) as [[|]|] eqn:Hf.
    + rewrite IH. split.
      * intros H g [<-|Hg]; [assumption | now apply H].
      * intros H g Hg. apply H. now right.
    + split; [discriminate|]. intros H.
      specialize (H f (or_introl eq_refl)). congruence.
    + split; [discriminate|]. intros H.
      specialize (H f (or_introl eq_refl)). congruence.
Qed.

Lemma selected_same_filters (E : Engine) (filters filters' : list Filter)
      (line : string) :
  incl filters filters' -> incl filters' filters ->
  selected E filters line = selected E filters' line.
Proof.
  intros H1 H2. unfold selected. f_equal.
  destruct (JSON_parse (trim line)) as [json|]; [|reflexivity].
  assert (H : matchesAllFilters E (JData json) filters = Some true <->
              matchesAllFilters E (JData json) filters' = Some true).
  { rewrite !matchesAllFilters_true. split; intros H f Hf; apply H; auto. }
  destruct (matchesAllFilters E (JData json) filters) as [[|]|],
           (matchesAllFilters E (JData json) filters') as [[|]|];
    try reflexivity;
    try (destruct H as [H _]; specialize (H eq_refl); discriminate);
    try (destruct H as [_ H]; specialize (H eq_refl); discriminate).
Qed.

Lemma filterLines_fold (E : Engine) (filters : list Filter) (lines : list string) :
  forall result,
    fold_left (filterLines_step E filters) lines result =
    result ++ map trim (filter (selected E filters) lines).
Proof.
  induction lines as [|line rest IH]; intros result; cbn [fold_left filter].
  - now rewrite app_nil_r.
  - rewrite IH, filterLines_step_selected, <- app_assoc.
    now destruct (selected E filters line).
Qed.

Lemma filterLines_filter (E : Engine) (lines : list string)
      (filters : list Filter) :
  filterLines E lines filters = map trim (filter (selected E filters) lines).
Proof. unfold filterLines. now rewrite filterLines_fold. Qed.

Lemma selected_trim (E : Engine) (filters : list Filter) (line : string) :
  selected E filters (trim line) = selected E filters line.
Proof. unfold selected. now rewrite trim_trim. Qed.

Lemma selected_app (E : Engine) (fs gs : list Filter) (line : string) :
  selected E (fs ++ gs) line = selected E fs line && selected E gs line.
Proof.
  unfold selected.
  destruct (negb (String.eqb (trim line) EmptyString)); [|reflexivity].
  cbn [andb]. destruct (JSON_parse (trim line)) as [json|]; [|reflexivity].
  assert (H : matchesAllFilters E (JData json) (fs ++ gs) = Some true <->
              matchesAllFilters E (JData json) fs = Some true /\
              matchesAllFilters E (JData json) gs = Some true).
  { rewrite !matchesAllFilters_true. split.
    - intros H. split; intros f Hf; apply H, in_or_app; tauto.
    - intros [H1 H2] f Hf. apply in_app_or in Hf as [Hf|Hf]; auto. }
  destruct (matchesAllFilters E (JData json) (fs ++ gs)) as [[|]|],
           (matchesAllFilters E (JData json) fs) as [[|]|],
           (matchesAllFilters E (JData json) gs) as [[|]|];
    try reflexivity;
    try (destruct H as [H _]; specialize (H eq_refl); destruct H; discriminate);
    try (destruct H as [_ H]; specialize (H (conj eq_refl eq_refl)); discriminate).
Qed.

Lemma filter_map_commute {A B : Type} (f : A -> B) (P : B -> bool) (l : list A) :
  filter P (map f l) = map f (filter (fun x => P (f x)) l).
Proof.
  induction l as [|x l IH]; [reflexivity|].
  cbn [map filter]. rewrite IH. now destruct (P (f x)).
Qed.

(** X8.  [matchesAllFilters] returns [true] exactly when every filter
    of the list passes on its own: the order of the filters and
    repetitions among them do not matter for acceptance. *)
Theorem matchesAllFilters_conjunction (E : Engine) (json : jsval (host E))
        (filters : list Filter) :
  matchesAllFilters E json filters = Some true <->
  forall f, In f filters -> matchesAllFilters E json [f] = Some true.
Proof.
  rewrite matchesAllFilters_true. split; intros H f Hf.
  - apply matchesAllFilters_true. intros g [<-|[]]. now apply H.
  - specialize (H f Hf). rewrite matchesAllFilters_true in H.
    apply H. now left.
Qed.

(** X9.  [matchesAllFilters] stops at the first filter that fails: the
    filters after it are not evaluated, so an exception one of them
    would throw is not thrown. *)
Theorem matchesAllFilters_short_circuit (E : Engine) (json : jsval (host E))
        (before after : list Filter) (f : Filter) :
  matchesAllFilters E json before = Some true ->
  matchesAllFilters E json [f] = Some false ->
  matchesAllFilters E json (before ++ f :: after) = Some false.
Proof.
  intros Hb Hf. induction before as [|g before IH]; cbn [app matchesAllFilters] in *.
  - destruct (filter_passes E json f) as [[|]|]; congruence.
  - destruct (filter_passes E json g) as [[|]|]; try discriminate. now apply IH.
Qed.

Lemma matchesAllFilters_short_circuit_witness :
  matchesAllFilters bare_engine (JData (parsed "{'a':1,'o':{'toString':2}}"))
    [mkFilter "a" "2"; mkFilter "o" "x"] = Some false /\
  matchesAllFilters bare_engine (JData (parsed "{'a':1,'o':{'toString':2}}"))
    [mkFilter "o" "x"; mkFilter "a" "2"] = None.
Proof.
  split; [|reflexivity].
  apply (matchesAllFilters_short_circuit bare_engine _ [] [mkFilter "o" "x"]
           (mkFilter "a" "2")); reflexivity.
Defined.

(** X10.  The result of [filterLines] depends on the filters only as a
    set: two filter lists with the same members, in whatever order and
    however often repeated, select the same lines. *)
Theorem filterLines_filter_set (E : Engine) (lines : list string)
        (filters filters' : list Filter) :
  incl filters filters' -> incl filters' filters ->
  filterLines E lines filters = filterLines E lines filters'.
Proof.
  intros H1 H2. rewrite !filterLines_filter. f_equal.
  apply filter_ext. intros line. now apply selected_same_filters.
Qed.

Lemma filterLines_filter_set_witness :
  filterLines bare_engine
    [js "{'a':1,'b':'x'}"; js "{'a':1,'b':'y'}"; js " {'a':2,'b':'x'} "]
    [mkFilter "b" "x"; mkFilter "a" "1"; mkFilter "b" "x"]
  = filterLines bare_engine
    [js "{'a':1,'b':'x'}"; js "{'a':1,'b':'y'}"; js " {'a':2,'b':'x'} "]
    [mkFilter "a" "1"; mkFilter "b" "x"].
Proof.
  apply filterLines_filter_set; intros f Hf; cbn in Hf |- *; tauto.
Defined.

(** X11.  [filterLines] treats every line on its own: the result for a
    document in two parts is the result for the first part followed by
    the result for the second, and it never holds more lines than the
    document. *)
Theorem filterLines_app (E : Engine) (lines lines' : list string)
        (filters : list Filter) :
  filterLines E (lines ++ lines') filters
  = filterLines E lines filters ++ filterLines E lines' filters
  /\ (List.length (filterLines E lines filters) <= List.length lines)%nat.
Proof.
  rewrite !filterLines_filter. split.
  - now rewrite filter_app, map_app.
  - rewrite length_map. apply filter_length_le.
Qed.

(** X12.  Filters can be applied in stages: filtering by [fs ++ gs] is
    filtering by [fs] and then filtering the lines that were returned
    by [gs].  In particular the returned lines are already trimmed, and
    filtering the result again with the same filters changes nothing. *)
Theorem filterLines_staged (E : Engine) (lines : list string)
        (fs gs : list Filter) :
  filterLines E lines (fs ++ gs) = filterLines E (filterLines E lines fs) gs
  /\ filterLines E (filterLines E lines fs) fs = filterLines E lines fs
  /\ map trim (filterLines E lines fs) = filterLines E lines fs.
Proof.
  assert (Hstage : forall hs,
             filterLines E (filterLines E lines fs) hs
             = map trim (filter (fun l => selected E hs l && selected E fs l) lines)).
  { intros hs. rewrite !filterLines_filter, filter_map_commute, map_map.
    rewrite filter_andb.
    rewrite (filter_ext (fun x => selected E hs (trim x)) (selected E hs))
      by apply selected_trim.
    apply map_ext. intros l. apply trim_trim. }
  split; [|split].
  - rewrite Hstage, filterLines_filter. f_equal.
    apply filter_ext. intros l. rewrite selected_app. apply andb_comm.
  - rewrite Hstage, filterLines_filter. f_equal.
    apply filter_ext. intros l. now destruct (selected E fs l).
  - rewrite filterLines_filter, map_map. apply map_ext. intros l. apply trim_trim.
Qed.
(* ================================================================= *)
(** ** More on [getNestedValue] *)

Lemma walk_path_app_None (E : Engine) (l1 l2 : list string) (v : jsval (host E)) :
  walk_path E v l1 = None -> walk_path E v (l1 ++ l2) = None.
Proof.
  revert v. induction l1 as [|k r IH]; intros v; cbn [walk_path app].
  - discriminate.
  - destruct v as [|d|h]; [discriminate | |].
    + destruct d; try apply IH. discriminate.
    + destruct (host_get E h k); [apply IH | reflexivity].
Qed.

Lemma lookup_replace (o : props) (k k' : string) (v : Json) :
  lookup (replace o k v) k' =
  if String.eqb k' k then (if hasOwnProperty o k then Some v else None)
  else lookup o k'.
Proof.
  unfold hasOwnProperty.
  induction o as [|[a x] o IH]; cbn [replace lookup keys map existsb fst].
  - now destruct (String.eqb k' k).
  - rewrite (String.eqb_sym k a). destruct (String.eqb a k) eqn:E1; cbn [lookup orb].
    + apply String.eqb_eq in E1. subst a.
      rewrite (String.eqb_sym k k'). now destruct (String.eqb k' k).
    + rewrite IH. destruct (String.eqb a k') eqn:E2; [|reflexivity].
      apply String.eqb_eq in E2. subst a. rewrite E1. reflexivity.
Qed.

Lemma lookup_app (o o' : props) (k : string) :
  lookup (o ++ o') k = match lookup o k with Some v => Some v | None => lookup o' k end.
Proof.
  induction o as [|[a x] o IH]; cbn [app lookup]; [reflexivity|].
  now destruct (String.eqb a k).
Qed.

Lemma lookup_insert_index (o : props) (i : Z) (k k' : string) (v : Json) :
  hasOwnProperty o k = false ->
  lookup (insert_index o i k v) k' = if String.eqb k' k then Some v else lookup o k'.
Proof.
  unfold hasOwnProperty.
  induction o as [|[a x] o IH]; cbn [insert_index lookup keys map existsb fst]; intros H.
  - rewrite (String.eqb_sym k k'). now destruct (String.eqb k' k).
  - apply orb_false_iff in H as [Ha H].
    assert (Hhead : lookup ((k, v) :: (a, x) :: o) k'
                    = if String.eqb k' k then Some v else lookup ((a, x) :: o) k').
    { cbn [lookup]. now rewrite (String.eqb_sym k k'). }
    destruct (array_index a) as [j|]; [|exact Hhead].
    destruct (j <? i); [|exact Hhead].
    cbn [lookup]. rewrite (IH H).
    destruct (String.eqb a k') eqn:E; [|reflexivity].
    apply String.eqb_eq in E. subst a. rewrite String.eqb_sym, Ha. reflexivity.
Qed.

(** Reading after [define]: the defined key holds the new value and
    every other key holds what it held. *)
Lemma lookup_define (o : props) (k k' : string) (v : Json) :
  lookup (define o k v) k' = if String.eqb k' k then Some v else lookup o k'.
Proof.
  unfold define. destruct (hasOwnProperty o k) eqn:H.
  - now rewrite lookup_replace, H.
  - destruct (array_index k) as [i|]; [now apply lookup_insert_index|].
    rewrite lookup_app. cbn [lookup]. rewrite (String.eqb_sym k k').
    destruct (String.eqb k' k) eqn:E.
    + apply String.eqb_eq in E. subst k'.
      apply hasOwnProperty_false, lookup_None in H. now rewrite H.
    + now destruct (lookup o k').
Qed.

Lemma split_dot_segments (s : string) :
  Forall (fun seg => dot_free seg = true) (split_dot s).
Proof.
  induction s as [|c r IH]; cbn [split_dot]; [now repeat constructor|].
  destruct (Ascii.eqb c ".") eqn:E; [now constructor|].
  destruct (split_dot r) as [|h t]; [repeat constructor; cbn; now rewrite E|].
  inversion IH as [|? ? Hh Ht]; subst.
  constructor; [cbn; now rewrite E, Hh | assumption].
Qed.

(** X13.  Paths compose: resolving [p.q] is resolving [p] and then
    resolving [q] from what was found, an exception included; in
    particular nothing can be resolved below [null] or a missing
    member, where the result is [undefined]. *)
Theorem getNestedValue_compose (E : Engine) (obj : jsval (host E))
        (p q : string) :
  getNestedValue E obj (p ++ String "." q) =
  match getNestedValue E obj p with
  | Some found => getNestedValue E found q
  | None => None
  end
  /\ getNestedValue E JUndefined q = Some JUndefined
  /\ getNestedValue E (JData VNull) q = Some JUndefined.
Proof.
  unfold getNestedValue. rewrite split_dot_app. split; [|split].
  - destruct (walk_path E obj (split_dot p)) as [found|] eqn:Hp.
    + now apply walk_path_app.
    + now apply walk_path_app_None.
  - pose proof (split_dot_nonempty q). now destruct (split_dot q).
  - pose proof (split_dot_nonempty q). now destruct (split_dot q).
Qed.

(** X14.  A key with a dot is always read as a path: an own property
    whose name is the whole key, dot included, is never looked at, so
    defining or overwriting such a property does not change what the
    key resolves to. *)
Theorem getNestedValue_dotted_key (E : Engine) (record : props)
        (k : string) (x : Json) :
  dot_free k = false ->
  (forall r r' name, inherited E (VObj r) name = inherited E (VObj r') name) ->
  getNestedValue E (JData (VObj (define record k x))) k
  = getNestedValue E (JData (VObj record)) k.
Proof.
  intros Hdot Hinh. unfold getNestedValue.
  pose proof (split_dot_segments k) as Hseg.
  pose proof (split_dot_nonempty k) as Hne0.
  destruct (split_dot k) as [|seg rest]; [contradiction|].
  inversion Hseg as [|? ? Hfree _]; subst.
  cbn [walk_path get_member]. rewrite lookup_define.
  assert (Hne : String.eqb seg k = false).
  { apply String.eqb_neq. intros ->. congruence. }
  rewrite Hne, (Hinh (define record k x) record). reflexivity.
Qed.

Lemma getNestedValue_dotted_key_witness :
  getNestedValue bare_engine
    (JData (VObj (define (members (parsed "{'a':{'b':1}}")) "a.b" (num 2)))) "a.b"
  = Some (JData (num 1)).
Proof.
  rewrite (getNestedValue_dotted_key bare_engine); reflexivity.
Defined.
(* ================================================================= *)
(** ** Objects are determined by their members and the order of their
       plain keys *)

Lemma key_before_index (k x : string) :
  is_index k = false -> key_before k x = true -> is_index x = false.
Proof.
  unfold is_index, key_before.
  destruct (array_index k), (array_index x); congruence.
Qed.

Lemma enumeration_order_split (l : list string) :
  enumeration_order l = true ->
  l = filter is_index l ++ filter (fun k => negb (is_index k)) l.
Proof.
  induction l as [|k r IH]; [reflexivity|].
  cbn [enumeration_order filter]. intros H. apply andb_true_iff in H as [Hk Hr].
  destruct (is_index k) eqn:Ek; cbn [negb].
  - cbn [app]. f_equal. now apply IH.
  - rewrite forallb_forall in Hk.
    assert (Hall : forall x, In x r -> is_index x = false)
      by (intros x Hx; apply (key_before_index k); auto).
    assert (H1 : filter is_index r = []).
    { clear -Hall. induction r as [|x r IH]; [reflexivity|]. cbn [filter].
      rewrite (Hall x (or_introl eq_refl)). apply IH. intros y Hy. apply Hall. now right. }
    assert (H2 : filter (fun k => negb (is_index k)) r = r).
    { clear -Hall. induction r as [|x r IH]; [reflexivity|]. cbn [filter].
      rewrite (Hall x (or_introl eq_refl)). cbn [negb]. f_equal.
      apply IH. intros y Hy. apply Hall. now right. }
    now rewrite H1, H2.
Qed.

Lemma key_before_irrefl (k : string) : is_index k = true -> key_before k k = false.
Proof.
  unfold is_index, key_before. destruct (array_index k); [|discriminate].
  intros _. apply Z.ltb_irrefl.
Qed.

Lemma key_before_asym (k x : string) :
  is_index k = true -> is_index x = true ->
  key_before k x = true -> key_before x k = true -> False.
Proof.
  unfold is_index, key_before.
  destruct (array_index k), (array_index x); try discriminate.
  intros _ _ H1 H2. apply Z.ltb_lt in H1, H2. lia.
Qed.

(** Two ascending lists of array indices with the same members are the
    same list. *)
Lemma index_keys_unique (l1 : list string) :
  forall l2,
    Forall (fun k => is_index k = true) l1 ->
    Forall (fun k => is_index k = true) l2 ->
    enumeration_order l1 = true -> enumeration_order l2 = true ->
    (forall k, In k l1 <-> In k l2) ->
    l1 = l2.
Proof.
  induction l1 as [|k1 r1 IH]; intros [|k2 r2] F1 F2 O1 O2 Hm.
  - reflexivity.
  - exfalso. apply (proj2 (Hm k2)). now left.
  - exfalso. apply (proj1 (Hm k1)). now left.
  - cbn [enumeration_order] in O1, O2.
    apply andb_true_iff in O1 as [B1 O1], O2 as [B2 O2].
    rewrite forallb_forall in B1, B2.
    inversion F1 as [|? ? I1 F1']; inversion F2 as [|? ? I2 F2']; subst.
    assert (k1 = k2) as <-.
    { destruct (proj1 (Hm k1) (or_introl eq_refl)) as [E|In1]; [now symmetry|].
      destruct (proj2 (Hm k2) (or_introl eq_refl)) as [E|In2]; [assumption|].
      exfalso. apply (key_before_asym k1 k2); auto. }
    f_equal. apply IH; auto.
    intros k. split; intros Hk.
    + destruct (proj1 (Hm k) (or_intror Hk)) as [<-|]; [|assumption].
      specialize (B1 _ Hk). rewrite key_before_irrefl in B1; [discriminate|assumption].
    + destruct (proj2 (Hm k) (or_intror Hk)) as [<-|]; [|assumption].
      specialize (B2 _ Hk). rewrite key_before_irrefl in B2; [discriminate|assumption].
Qed.

Lemma Forall_filter_true {A : Type} (P : A -> bool) (l : list A) :
  Forall (fun x => P x = true) (filter P l).
Proof. apply Forall_forall. intros x Hx. now apply filter_In in Hx. Qed.

Lemma keys_canonical (l1 l2 : list string) :
  enumeration_order l1 = true -> enumeration_order l2 = true ->
  (forall k, In k l1 <-> In k l2) ->
  filter (fun k => negb (is_index k)) l1 = filter (fun k => negb (is_index k)) l2 ->
  l1 = l2.
Proof.
  intros O1 O2 Hm Hp.
  rewrite (enumeration_order_split l1 O1), (enumeration_order_split l2 O2), Hp.
  f_equal. apply index_keys_unique; try apply Forall_filter_true.
  - rewrite (enumeration_order_split l1 O1) in O1.
    now apply enumeration_order_app in O1.
  - rewrite (enumeration_order_split l2 O2) in O2.
    now apply enumeration_order_app in O2.
  - intros k. rewrite !filter_In, Hm. reflexivity.
Qed.

Lemma props_ext (o1 : props) :
  forall o2,
    keys o1 = keys o2 -> NoDup (keys o1) ->
    (forall k, In k (keys o1) -> lookup o1 k = lookup o2 k) ->
    o1 = o2.
Proof.
  induction o1 as [|[k v] r1 IH]; intros [|[k' v'] r2] Hk Hnd Hl;
    try discriminate; [reflexivity|].
  cbn [keys map fst] in Hk. injection Hk as <- Hk.
  cbn [keys map fst] in Hnd. inversion Hnd as [|? ? Hnew Hnd']; subst.
  pose proof (Hl k (or_introl eq_refl)) as Hv. cbn [lookup] in Hv.
  rewrite String.eqb_refl in Hv. injection Hv as <-.
  f_equal. apply IH; auto.
  intros x Hx. specialize (Hl x (or_intror Hx)). cbn [lookup] in Hl.
  destruct (String.eqb k x) eqn:E; [|assumption].
  apply String.eqb_eq in E. subst x. contradiction.
Qed.

Lemma plain_keys_no_proto (o : props) :
  ~ In "__proto__"%string (keys o) ->
  filter (fun k => negb (is_index k)) (keys o) = plain_keys o.
Proof.
  intros Hp. unfold plain_keys. apply filter_ext_in. intros k Hk.
  unfold is_plain. destruct (String.eqb k "__proto__") eqn:E.
  - apply String.eqb_eq in E. subst. contradiction.
  - now rewrite andb_true_r.
Qed.

Lemma In_keys_lookup (o : props) (k : string) :
  In k (keys o) -> exists v, lookup o k = Some v.
Proof.
  intros H. destruct (lookup o k) as [v|] eqn:E; [now exists v|].
  apply lookup_None in E. contradiction.
Qed.

(** Two objects in enumeration order, without the key ["__proto__"],
    with the same plain keys in the same order and with the same value
    under every key, are equal. *)
Lemma props_canonical (o1 o2 : props) :
  NoDup (keys o1) ->
  enumeration_order (keys o1) = true -> enumeration_order (keys o2) = true ->
  ~ In "__proto__"%string (keys o1) -> ~ In "__proto__"%string (keys o2) ->
  plain_keys o1 = plain_keys o2 ->
  (forall k, In k (keys o2) -> In k (keys o1)) ->
  (forall k v, lookup o1 k = Some v -> lookup o2 k = Some v) ->
  o1 = o2.
Proof.
  intros Hnd O1 O2 P1 P2 Hp Hin Hl.
  assert (Hk : keys o1 = keys o2).
  { apply keys_canonical; auto.
    - intros k. split; [|apply Hin]. intros Hk.
      destruct (In_keys_lookup _ _ Hk) as (v & Hv).
      apply Hl in Hv. destruct (lookup_None o2 k) as [H _].
      destruct (in_dec string_dec k (keys o2)) as [|Hn]; [assumption|].
      apply lookup_None in Hn. congruence.
    - now rewrite !plain_keys_no_proto. }
  apply props_ext; auto.
  intros k Hin1. destruct (In_keys_lookup _ _ Hin1) as (v & Hv).
  now rewrite Hv, (Hl _ _ Hv).
Qed.
(* ================================================================= *)
(** ** More on [reorderJsonKeys] and [applyCustomOrder] *)

Lemma is_container_reorderJsonKeys (v : Json) :
  is_container (reorderJsonKeys v) = is_container v.
Proof. now destruct v. Qed.

Lemma keys_filter_by_key (P : string * Json -> bool) (Q : string -> bool) (o : props) :
  (forall e, In e o -> P e = Q (fst e)) ->
  keys (filter P o) = filter Q (keys o).
Proof.
  induction o as [|e o IH]; intros H; [reflexivity|].
  cbn [filter keys map]. rewrite <- (H e (or_introl eq_refl)).
  destruct (P e); cbn [keys map]; [f_equal|]; apply IH; intros x Hx; apply H; now right.
Qed.

Lemma filter_comm {A : Type} (P Q : A -> bool) (l : list A) :
  filter P (filter Q l) = filter Q (filter P l).
Proof.
  induction l as [|x l IH]; [reflexivity|]. cbn [filter].
  destruct (P x) eqn:EP, (Q x) eqn:EQ; cbn [filter]; rewrite ?EP, ?EQ, IH; reflexivity.
Qed.

Lemma filter_all {A : Type} (P : A -> bool) (l : list A) :
  (forall x, In x l -> P x = true) -> filter P l = l.
Proof.
  induction l as [|x l IH]; intros H; [reflexivity|]. cbn [filter].
  rewrite (H x (or_introl eq_refl)). f_equal. apply IH. intros y Hy. apply H. now right.
Qed.

Lemma filter_none {A : Type} (P : A -> bool) (l : list A) :
  (forall x, In x l -> P x = false) -> filter P l = [].
Proof.
  induction l as [|x l IH]; intros H; [reflexivity|]. cbn [filter].
  rewrite (H x (or_introl eq_refl)). apply IH. intros y Hy. apply H. now right.
Qed.

Lemma holds_primitive_entry (record : props) (e : string * Json) :
  NoDup (keys record) -> In e record ->
  negb (is_container (snd e)) = holds_primitive record (fst e).
Proof.
  intros Hnd He. unfold holds_primitive. destruct e as [k v]. cbn [fst snd].
  now rewrite (In_lookup _ _ _ Hnd He).
Qed.

Lemma keys_primitive_members (record : props) :
  NoDup (keys record) ->
  keys (primitive_members record) = filter (holds_primitive record) (keys record).
Proof.
  intros Hnd. apply keys_filter_by_key. intros e He.
  now apply holds_primitive_entry.
Qed.

Lemma keys_container_members (record : props) :
  NoDup (keys record) ->
  keys (container_members record)
  = filter (fun k => negb (holds_primitive record k)) (keys record).
Proof.
  intros Hnd. apply keys_filter_by_key. intros e He.
  rewrite <- (holds_primitive_entry record e Hnd He). now rewrite negb_involutive.
Qed.

Lemma spread_exact (src : props) :
  forall acc,
    NoDup (keys acc ++ keys src) ->
    enumeration_order (keys acc ++ keys src) = true ->
    spread acc src = acc ++ src.
Proof.
  unfold spread.
  induction src as [|[k v] r IH]; intros acc Hnd Ho; cbn [fold_left fst snd].
  - now rewrite app_nil_r.
  - cbn [keys map fst] in Hnd, Ho.
    rewrite define_snoc.
    + rewrite IH.
      * now rewrite <- app_assoc.
      * rewrite keys_app, <- app_assoc. exact Hnd.
      * rewrite keys_app, <- app_assoc. exact Ho.
    + apply NoDup_remove_2 in Hnd. intros H. apply Hnd, in_or_app. now left.
    + intros x Hx. apply enumeration_order_app in Ho as [_ Ho].
      apply Ho; [assumption | now left].
Qed.

Lemma enumeration_order_no_index (l : list string) :
  Forall (fun k => is_index k = false) l -> enumeration_order l = true.
Proof.
  induction 1 as [|k r Hk Hr IH]; [reflexivity|].
  cbn [enumeration_order]. rewrite IH, andb_true_r.
  apply forallb_forall. intros x Hx. apply key_before_plain.
  rewrite Forall_forall in Hr. specialize (Hr x Hx).
  unfold is_index in Hr. now destruct (array_index x).
Qed.

Lemma is_plain_no_index (k : string) : is_plain k = true -> is_index k = false.
Proof.
  unfold is_plain. intros H. apply andb_true_iff in H as [H _].
  now apply negb_true_iff.
Qed.

Lemma reorderJsonKeys_enumeration (record : props) :
  enumeration_order (keys (members (reorderJsonKeys (VObj record)))) = true.
Proof.
  rewrite reorderJsonKeys_members.
  apply enumeration_order_spread, enumeration_order_spread. reflexivity.
Qed.

Lemma reorderJsonKeys_no_proto (record : props) :
  ~ In "__proto__"%string (keys (members (reorderJsonKeys (VObj record)))).
Proof. intros H. apply reorderJsonKeys_keys_In in H. now destruct H. Qed.

Lemma reorderJsonKeys_lookup (record : props) (k : string) (v : Json) :
  NoDup (keys record) ->
  lookup record k = Some v -> k <> "__proto__"%string ->
  lookup (members (reorderJsonKeys (VObj record))) k = Some (reorderJsonKeys v).
Proof.
  intros Hnd Hl Hp.
  assert (Hin : In k (keys (members (reorderJsonKeys (VObj record))))).
  { apply reorderJsonKeys_keys_In. split; [|assumption].
    apply lookup_In in Hl. now apply (in_map fst) in Hl. }
  destruct (In_keys_lookup _ _ Hin) as (v' & Hv').
  destruct (reorderJsonKeys_values record k v' Hnd Hv') as (v0 & H0 & ->).
  congruence.
Qed.

(** X15.  For an object with distinct keys, [reorderJsonKeys] returns
    an object with distinct keys that holds every key of the input
    except ["__proto__"] and no other key, each with [reorderJsonKeys]
    of its original value. *)
Theorem reorderJsonKeys_key_parity (record : props) :
  NoDup (keys record) ->
  let out := members (reorderJsonKeys (VObj record)) in
  NoDup (keys out)
  /\ (forall k, In k (keys out) <-> In k (keys record) /\ k <> "__proto__"%string)
  /\ (forall k v, lookup record k = Some v -> k <> "__proto__"%string ->
                  lookup out k = Some (reorderJsonKeys v))
  /\ (forall k, lookup record k = None -> lookup out k = None).
Proof.
  intros Hnd out. split; [apply reorderJsonKeys_keys_NoDup|].
  split; [apply reorderJsonKeys_keys_In|].
  split; [intros k v; now apply reorderJsonKeys_lookup|].
  intros k Hk. apply lookup_None. intros Hin.
  apply reorderJsonKeys_keys_In in Hin as [Hin _].
  apply lookup_None in Hk. contradiction.
Qed.

Lemma reorderJsonKeys_key_parity_witness :
  NoDup (keys (members (parsed "{'b':{'y':[],'x':1},'__proto__':2,'a':3}")))
  /\ keys (members (reorderJsonKeys (parsed "{'b':{'y':[],'x':1},'__proto__':2,'a':3}")))
     = ["a"%string; "b"%string]
  /\ lookup (members (reorderJsonKeys
                        (parsed "{'b':{'y':[],'x':1},'__proto__':2,'a':3}"))) "b"
     = Some (parsed "{'x':1,'y':[]}").
Proof.
  assert (Hnd : NoDup (keys (members (parsed "{'b':{'y':[],'x':1},'__proto__':2,'a':3}")))).
  { vm_compute. repeat constructor; cbn; intuition discriminate. }
  split; [exact Hnd|]. split; [vm_compute; reflexivity|].
  pose proof (reorderJsonKeys_key_parity _ Hnd) as (_ & _ & H & _).
  specialize (H "b"%string (parsed "{'y':[],'x':1}")).
  vm_compute in H |- *. apply H; [reflexivity | discriminate].
Defined.

(** X16.  The key order [reorderJsonKeys] produces.  Array-index keys
    come first, in ascending order, whatever their values.  The other
    keys follow: those with a primitive value, then those with a
    container value, each group in its original order.  For an object
    without array-index keys and without the key ["__proto__"] the
    result is exactly the primitive members followed by the reordered
    container members. *)
Theorem reorderJsonKeys_key_order (record : props) :
  NoDup (keys record) ->
  let out := members (reorderJsonKeys (VObj record)) in
  enumeration_order (keys out) = true
  /\ plain_keys out
     = plain_keys (primitive_members record) ++ plain_keys (container_members record)
  /\ (Forall (fun k => is_plain k = true) (keys record) ->
      out = primitive_members record
            ++ map (fun e => (fst e, reorderJsonKeys (snd e))) (container_members record)).
Proof.
  intros Hnd out. split; [apply reorderJsonKeys_enumeration|].
  split; [now apply reorderJsonKeys_plain_keys|].
  intros Hplain. unfold out. rewrite reorderJsonKeys_members.
  assert (Hsub : forall P, Forall (fun k => is_plain k = true) (keys (filter P record))).
  { intros P. apply Forall_forall. intros k Hk. rewrite Forall_forall in Hplain.
    apply Hplain. apply in_map_iff in Hk as (e & <- & He).
    apply filter_In in He as [He _]. now apply in_map. }
  assert (Hproto : forall P, ~ In "__proto__"%string (keys (filter P record))).
  { intros P H. specialize (Hsub P). rewrite Forall_forall in Hsub.
    specialize (Hsub _ H). discriminate. }
  assert (Henum : forall l, Forall (fun k => is_plain k = true) l ->
                            enumeration_order l = true).
  { intros l Hl. apply enumeration_order_no_index.
    eapply Forall_impl; [|exact Hl]. intros k. apply is_plain_no_index. }
  rewrite (assign_loop_exact (fun v => v)), (assign_loop_exact reorderJsonKeys);
    cbn [keys map app];
    try apply Hproto; try (apply Henum, Hsub); try (apply keys_filter_NoDup, Hnd).
  cbn [app].
  assert (Hid : map (fun e : string * Json => (fst e, snd e)) (primitive_members record)
                = primitive_members record).
  { rewrite <- (map_id (primitive_members record)) at 2.
    apply map_ext. now intros [k v]. }
  rewrite Hid.
  set (C := map (fun e => (fst e, reorderJsonKeys (snd e))) (container_members record)).
  assert (HkC : keys C = keys (container_members record)).
  { unfold C, keys. rewrite map_map. reflexivity. }
  assert (Hall : NoDup (keys (primitive_members record) ++ keys C)
                 /\ enumeration_order (keys (primitive_members record) ++ keys C) = true).
  { rewrite HkC. split.
    - rewrite keys_primitive_members, keys_container_members by assumption.
      clear -Hnd. induction (keys record) as [|k l IH]; [constructor|].
      inversion Hnd as [|? ? Hk Hl]; subst. specialize (IH Hl). cbn [filter].
      destruct (holds_primitive record k); cbn [negb app].
      + constructor; [|assumption]. intros H. apply in_app_or in H as [H|H];
          apply filter_In in H; tauto.
      + apply NoDup_Add with (a := k) (l := filter (holds_primitive record) l
                                      ++ filter (fun k0 => negb (holds_primitive record k0)) l).
        * apply Add_app.
        * split; [assumption|].
          intros H. apply in_app_or in H as [H|H]; apply filter_In in H; tauto.
    - apply Henum. apply Forall_app. split; apply Hsub. }
  destruct Hall as [HndC HoC].
  rewrite (spread_exact (primitive_members record) []);
    [ | cbn [keys map app]; apply keys_filter_NoDup, Hnd
      | cbn [keys map app]; apply Henum, Hsub ].
  cbn [app]. now apply spread_exact.
Qed.

Lemma reorderJsonKeys_key_order_witness :
  NoDup (keys (members (parsed "{'o':{},'a':1,'l':[2],'b':'x'}")))
  /\ Forall (fun k => is_plain k = true)
            (keys (members (parsed "{'o':{},'a':1,'l':[2],'b':'x'}")))
  /\ members (reorderJsonKeys (parsed "{'o':{},'a':1,'l':[2],'b':'x'}"))
     = members (parsed "{'a':1,'b':'x','o':{},'l':[2]}").
Proof.
  assert (Hnd : NoDup (keys (members (parsed "{'o':{},'a':1,'l':[2],'b':'x'}")))).
  { vm_compute. repeat constructor; cbn; intuition discriminate. }
  assert (Hplain : Forall (fun k => is_plain k = true)
                          (keys (members (parsed "{'o':{},'a':1,'l':[2],'b':'x'}")))).
  { replace (keys (members (parsed "{'o':{},'a':1,'l':[2],'b':'x'}")))
      with ["o"; "a"; "l"; "b"]%string by (vm_compute; reflexivity).
    repeat constructor. }
  split; [exact Hnd|]. split; [exact Hplain|].
  pose proof (reorderJsonKeys_key_order _ Hnd) as (_ & _ & H).
  specialize (H Hplain). vm_compute in H |- *. exact H.
Defined.

Lemma holds_primitive_reorderJsonKeys (record : props) (k : string) :
  NoDup (keys record) ->
  In k (keys (members (reorderJsonKeys (VObj record)))) ->
  holds_primitive (members (reorderJsonKeys (VObj record))) k
  = holds_primitive record k.
Proof.
  intros Hnd Hin. unfold holds_primitive.
  destruct (In_keys_lookup _ _ Hin) as (v' & Hv'). rewrite Hv'.
  destruct (reorderJsonKeys_values record k v' Hnd Hv') as (v & -> & ->).
  now rewrite is_container_reorderJsonKeys.
Qed.

(** After [reorderJsonKeys] the plain keys with a primitive value are
    those of the input, in the same order, and so are those with a
    container value. *)
Lemma reorderJsonKeys_groups (record : props) :
  NoDup (keys record) ->
  let out := members (reorderJsonKeys (VObj record)) in
  plain_keys (primitive_members out) = plain_keys (primitive_members record)
  /\ plain_keys (container_members out) = plain_keys (container_members record).
Proof.
  intros Hnd out.
  pose proof (reorderJsonKeys_keys_NoDup record) as Hout. fold out in Hout.
  pose proof (reorderJsonKeys_plain_keys record Hnd) as Hplain. fold out in Hplain.
  set (hp := holds_primitive record).
  set (PA := plain_keys (primitive_members record)) in *.
  set (PB := plain_keys (container_members record)) in *.
  assert (HA : forall k, In k PA -> hp k = true).
  { intros k Hk. unfold PA, plain_keys in Hk. apply filter_In in Hk as [Hk _].
    rewrite (keys_primitive_members record Hnd) in Hk.
    now apply filter_In in Hk. }
  assert (HB : forall k, In k PB -> hp k = false).
  { intros k Hk. unfold PB, plain_keys in Hk. apply filter_In in Hk as [Hk _].
    rewrite (keys_container_members record Hnd) in Hk.
    apply filter_In in Hk as [_ Hk]. now apply negb_true_iff. }
  assert (Hhp : forall k, In k (plain_keys out) -> holds_primitive out k = hp k).
  { intros k Hk. apply filter_In in Hk as [Hk _].
    now apply holds_primitive_reorderJsonKeys. }
  split.
  - transitivity (filter hp (plain_keys out)).
    + unfold plain_keys. rewrite (keys_primitive_members out Hout).
      rewrite filter_comm. apply filter_ext_in. exact Hhp.
    + rewrite Hplain, filter_app, (filter_all hp PA HA), (filter_none hp PB HB).
      apply app_nil_r.
  - transitivity (filter (fun k => negb (hp k)) (plain_keys out)).
    + unfold plain_keys. rewrite (keys_container_members out Hout).
      rewrite filter_comm. apply filter_ext_in. intros k Hk. now rewrite Hhp.
    + rewrite Hplain, filter_app.
      rewrite (filter_none (fun k => negb (hp k)) PA),
              (filter_all (fun k => negb (hp k)) PB); [reflexivity | |].
      * intros k Hk. now rewrite (HB k Hk).
      * intros k Hk. now rewrite (HA k Hk).
Qed.

(** X17.  [reorderJsonKeys] is idempotent on well-formed values:
    reordering what it returned changes nothing. *)
Theorem reorderJsonKeys_idempotent (v : Json) :
  well_formed v -> reorderJsonKeys (reorderJsonKeys v) = reorderJsonKeys v.
Proof.
  induction v as [| b | n | s | items IH | record IH] using Json_ind;
    intros Hwf; try reflexivity.
  - inversion Hwf as [| | | | ? Hitems |]; subst.
    cbn [reorderJsonKeys]. rewrite map_map. f_equal.
    apply map_ext_in. intros x Hx. rewrite Forall_forall in IH, Hitems.
    now apply IH; [|apply Hitems].
  - inversion Hwf as [| | | | | ? Hnd Hord Hmem]; subst.
    change (reorderJsonKeys (VObj record))
      with (VObj (members (reorderJsonKeys (VObj record)))).
    set (out := members (reorderJsonKeys (VObj record))).
    change (reorderJsonKeys (VObj out))
      with (VObj (members (reorderJsonKeys (VObj out)))).
    f_equal.
    pose proof (reorderJsonKeys_keys_NoDup record) as Hout. fold out in Hout.
    apply props_canonical.
    + apply reorderJsonKeys_keys_NoDup.
    + apply reorderJsonKeys_enumeration.
    + apply reorderJsonKeys_enumeration.
    + apply reorderJsonKeys_no_proto.
    + apply reorderJsonKeys_no_proto.
    + rewrite (reorderJsonKeys_plain_keys out Hout).
      destruct (reorderJsonKeys_groups record Hnd) as [H1 H2].
      fold out in H1, H2. rewrite H1, H2.
      symmetry. now apply reorderJsonKeys_plain_keys.
    + intros k Hk. apply reorderJsonKeys_keys_In. split; [assumption|].
      intros ->. now apply (reorderJsonKeys_no_proto record).
    + intros k v'' Hl.
      destruct (reorderJsonKeys_values out k v'' Hout Hl) as (v' & Hv' & ->).
      destruct (reorderJsonKeys_values record k v' Hnd Hv') as (v & Hv & ->).
      rewrite Hv'. f_equal. symmetry.
      rewrite Forall_forall in IH, Hmem. apply lookup_In in Hv.
      now apply (IH _ Hv); [apply (Hmem _ Hv)].
Qed.

Lemma reorderJsonKeys_idempotent_witness :
  reorderJsonKeys (reorderJsonKeys (parsed "{'o':{'2':[],'1':0},'7':{},'a':1,'3':2}"))
  = parsed "{'3':2,'7':{},'a':1,'o':{'1':0,'2':[]}}".
Proof.
  rewrite reorderJsonKeys_idempotent; [reflexivity|].
  apply (JSON_parse_well_formed (js "{'o':{'2':[],'1':0},'7':{},'a':1,'3':2}")).
  reflexivity.
Defined.

Lemma applyCustomOrder_enumeration (record : props) (order : list string) :
  enumeration_order (keys (members (applyCustomOrder (VObj record) order))) = true.
Proof.
  rewrite applyCustomOrder_members.
  apply enumeration_order_spread, enumeration_order_spread. reflexivity.
Qed.

Lemma applyCustomOrder_no_proto (record : props) (order : list string) :
  ~ In "__proto__"%string (keys record) ->
  ~ In "__proto__"%string (keys (members (applyCustomOrder (VObj record) order))).
Proof. intros Hp H. now apply applyCustomOrder_keys_In in H. Qed.

(** X18.  With an empty order list [applyCustomOrder] changes nothing:
    a well-formed value in which no object has the key ["__proto__"] is
    returned as it is. *)
Theorem applyCustomOrder_empty_order (v : Json) :
  well_formed v -> proto_free v = true -> applyCustomOrder v [] = v.
Proof.
  induction v as [| b | n | s | items IH | record IH] using Json_ind;
    intros Hwf Hfree; try reflexivity.
  - inversion Hwf as [| | | | ? Hitems |]; subst.
    cbn [applyCustomOrder]. f_equal. rewrite <- (map_id items) at 2.
    apply map_ext_in. intros x Hx. rewrite Forall_forall in IH, Hitems.
    cbn [proto_free] in Hfree. rewrite forallb_forall in Hfree.
    now apply IH; [|apply Hitems|apply Hfree].
  - inversion Hwf as [| | | | | ? Hnd Hord Hmem]; subst.
    destruct (proto_free_members record Hfree) as [Hkey Hvals].
    change (applyCustomOrder (VObj record) [])
      with (VObj (members (applyCustomOrder (VObj record) []))).
    f_equal. apply props_canonical; auto.
    + apply applyCustomOrder_keys_NoDup.
    + apply applyCustomOrder_enumeration.
    + now apply applyCustomOrder_no_proto.
    + rewrite (applyCustomOrder_plain_keys record [] Hnd). cbn [dedup filter app].
      unfold plain_keys. apply filter_ext. intros k.
      cbn [includes existsb negb]. apply andb_true_r.
    + intros k Hk. apply applyCustomOrder_keys_In; [assumption|].
      intros ->. contradiction.
    + intros k v' Hl.
      destruct (applyCustomOrder_lookup record [] k v' Hnd Hl) as (v & Hv & ->).
      rewrite Hv. f_equal. apply lookup_In in Hv.
      rewrite Forall_forall in IH, Hmem, Hvals. symmetry.
      exact (IH _ Hv (Hmem _ Hv) (Hvals _ Hv)).
Qed.

Lemma applyCustomOrder_empty_order_witness :
  applyCustomOrder (parsed "{'b':[{'d':1,'c':2}],'a':null,'1':{}}") []
  = parsed "{'b':[{'d':1,'c':2}],'a':null,'1':{}}".
Proof.
  apply applyCustomOrder_empty_order; [|reflexivity].
  apply (JSON_parse_well_formed (js "{'b':[{'d':1,'c':2}],'a':null,'1':{}}")).
  reflexivity.
Defined.

(** X19.  [applyCustomOrder] is idempotent: on a well-formed value in
    which no object has the key ["__proto__"], applying the same order
    list to the result changes nothing. *)
Theorem applyCustomOrder_idempotent (v : Json) (order : list string) :
  well_formed v -> proto_free v = true ->
  applyCustomOrder (applyCustomOrder v order) order = applyCustomOrder v order.
Proof.
  induction v as [| b | n | s | items IH | record IH] using Json_ind;
    intros Hwf Hfree; try reflexivity.
  - inversion Hwf as [| | | | ? Hitems |]; subst.
    cbn [applyCustomOrder]. rewrite map_map. f_equal.
    apply map_ext_in. intros x Hx. rewrite Forall_forall in IH, Hitems.
    cbn [proto_free] in Hfree. rewrite forallb_forall in Hfree.
    now apply IH; [|apply Hitems|apply Hfree].
  - inversion Hwf as [| | | | | ? Hnd Hord Hmem]; subst.
    destruct (proto_free_members record Hfree) as [Hkey Hvals].
    change (applyCustomOrder (VObj record) order)
      with (VObj (members (applyCustomOrder (VObj record) order))).
    set (out := members (applyCustomOrder (VObj record) order)).
    change (applyCustomOrder (VObj out) order)
      with (VObj (members (applyCustomOrder (VObj out) order))).
    f_equal.
    pose proof (applyCustomOrder_keys_NoDup record order) as Hout. fold out in Hout.
    pose proof (applyCustomOrder_no_proto record order Hkey) as Hpout. fold out in Hpout.
    pose proof (applyCustomOrder_plain_keys record order Hnd) as Hplain.
    fold out in Hplain.
    assert (Hsame : forall k, is_plain k = true ->
                              hasOwnProperty out k = hasOwnProperty record k).
    { intros k Hk. apply bool_eq_iff. rewrite !hasOwnProperty_In.
      pose proof (applyCustomOrder_keys_In record order k) as [H1 H2]. fold out in H1, H2.
      split; [assumption|]. intros Hin. apply H2; [assumption|].
      intros ->. contradiction. }
    apply props_canonical.
    + apply applyCustomOrder_keys_NoDup.
    + apply applyCustomOrder_enumeration.
    + apply applyCustomOrder_enumeration.
    + now apply applyCustomOrder_no_proto.
    + assumption.
    + rewrite (applyCustomOrder_plain_keys out order Hout), Hplain. f_equal.
      * apply filter_ext. intros k. destruct (is_plain k) eqn:Ek; [|reflexivity].
        cbn [andb]. now apply Hsame.
      * rewrite (filter_andb is_plain (fun k => negb (includes order k))).
        rewrite filter_comm. fold (plain_keys out). rewrite Hplain, filter_app.
        rewrite (filter_none _ (filter _ (dedup order))).
        -- cbn [app]. apply filter_all. intros k Hk.
           apply filter_In in Hk as [_ Hk]. now apply andb_true_iff in Hk.
        -- intros k Hk. apply filter_In in Hk as [Hk _].
           apply (proj1 (In_dedup _ _)) in Hk.
           apply negb_false_iff, includes_In. exact Hk.
    + intros k Hk. apply applyCustomOrder_keys_In; [assumption|].
      intros ->. contradiction.
    + intros k v'' Hl.
      destruct (applyCustomOrder_lookup out order k v'' Hout Hl) as (v' & Hv' & ->).
      destruct (applyCustomOrder_lookup record order k v' Hnd Hv') as (v & Hv & ->).
      rewrite Hv'. f_equal. apply lookup_In in Hv.
      rewrite Forall_forall in IH, Hmem, Hvals. symmetry.
      exact (IH _ Hv (Hmem _ Hv) (Hvals _ Hv)).
Qed.

Lemma applyCustomOrder_idempotent_witness :
  applyCustomOrder
    (applyCustomOrder (parsed "{'a':1,'2':0,'b':{'c':3,'a':4},'c':5}") ["c"; "x"; "a"; "c"]%string)
    ["c"; "x"; "a"; "c"]%string
  = parsed "{'2':0,'c':5,'a':1,'b':{'c':3,'a':4}}".
Proof.
  rewrite applyCustomOrder_idempotent; [reflexivity| |reflexivity].
  apply (JSON_parse_well_formed (js "{'a':1,'2':0,'b':{'c':3,'a':4},'c':5}")).
  reflexivity.
Defined.

Lemma applyCustomOrder_lookup_In (record : props) (order : list string)
      (k : string) (v : Json) :
  NoDup (keys record) ->
  lookup record k = Some v -> k <> "__proto__"%string ->
  lookup (members (applyCustomOrder (VObj record) order)) k
  = Some (applyCustomOrder v order).
Proof.
  intros Hnd Hl Hp.
  assert (Hin : In k (keys (members (applyCustomOrder (VObj record) order)))).
  { apply applyCustomOrder_keys_In; [|assumption].
    apply lookup_In in Hl. now apply (in_map fst) in Hl. }
  destruct (In_keys_lookup _ _ Hin) as (v' & Hv').
  destruct (applyCustomOrder_lookup record order k v' Hnd Hv') as (v0 & H0 & ->).
  congruence.
Qed.

Lemma named_keys_In (order : list string) (record : props) (k : string) :
  In k (named_keys order record) <-> In k order /\ In k (keys record).
Proof.
  unfold named_keys. rewrite filter_In, In_dedup, hasOwnProperty_In. reflexivity.
Qed.

(** X26.  [applyCustomOrder] depends on the order list only through the
    names that are keys of the object at hand and the sequence of their
    first occurrences: two order lists that agree on this for every
    object of a well-formed value without the key ["__proto__"] give
    the same result.  Repeating a name or naming a key that no object
    has therefore changes nothing. *)
Theorem applyCustomOrder_named_keys (v : Json) (order order' : list string) :
  well_formed v -> proto_free v = true ->
  same_named_keys order order' v = true ->
  applyCustomOrder v order = applyCustomOrder v order'.
Proof.
  induction v as [| b | n | s | items IH | record IH] using Json_ind;
    intros Hwf Hfree Hsame; try reflexivity.
  - inversion Hwf as [| | | | ? Hitems |]; subst.
    cbn [applyCustomOrder]. f_equal. apply map_ext_in. intros x Hx.
    cbn [proto_free same_named_keys] in Hfree, Hsame.
    rewrite forallb_forall in Hfree, Hsame. rewrite Forall_forall in IH, Hitems.
    exact (IH _ Hx (Hitems _ Hx) (Hfree _ Hx) (Hsame _ Hx)).
  - inversion Hwf as [| | | | | ? Hnd Hord Hmem]; subst.
    destruct (proto_free_members record Hfree) as [Hkey Hvals].
    cbn [same_named_keys] in Hsame. apply andb_true_iff in Hsame as [Hnamed Hsame].
    destruct (list_eq_dec string_dec (named_keys order record)
                          (named_keys order' record)) as [Hnamed'|]; [|discriminate].
    clear Hnamed. rewrite forallb_forall in Hsame.
    change (applyCustomOrder (VObj record) order)
      with (VObj (members (applyCustomOrder (VObj record) order))).
    change (applyCustomOrder (VObj record) order')
      with (VObj (members (applyCustomOrder (VObj record) order'))).
    f_equal.
    assert (Hinc : forall k, In k (keys record) ->
                             includes order k = includes order' k).
    { intros k Hk. apply bool_eq_iff. rewrite !includes_In.
      pose proof (named_keys_In order record k) as H1.
      pose proof (named_keys_In order' record k) as H2.
      rewrite Hnamed' in H1. tauto. }
    apply props_canonical.
    + apply applyCustomOrder_keys_NoDup.
    + apply applyCustomOrder_enumeration.
    + apply applyCustomOrder_enumeration.
    + now apply applyCustomOrder_no_proto.
    + now apply applyCustomOrder_no_proto.
    + rewrite !applyCustomOrder_plain_keys by assumption. f_equal.
      * rewrite !(filter_andb is_plain (hasOwnProperty record)).
        fold (named_keys order record) (named_keys order' record).
        now rewrite Hnamed'.
      * apply filter_ext_in. intros k Hk. now rewrite (Hinc k Hk).
    + intros k Hk. apply applyCustomOrder_keys_In.
      * now apply applyCustomOrder_keys_In in Hk.
      * intros ->. now apply (applyCustomOrder_no_proto record order' Hkey).
    + intros k v' Hl.
      destruct (applyCustomOrder_lookup record order k v' Hnd Hl) as (x & Hx & ->).
      assert (Hp : k <> "__proto__"%string).
      { intros ->. apply Hkey. apply lookup_In in Hx. now apply (in_map fst) in Hx. }
      rewrite (applyCustomOrder_lookup_In record order' k x Hnd Hx Hp). f_equal.
      apply lookup_In in Hx. rewrite Forall_forall in IH, Hmem, Hvals. symmetry.
      exact (IH _ Hx (Hmem _ Hx) (Hvals _ Hx) (Hsame _ Hx)).
Qed.

Lemma applyCustomOrder_named_keys_witness :
  applyCustomOrder (parsed "{'a':1,'b':{'c':3,'a':4},'c':5}")
                   ["c"; "x"; "a"; "c"; "a"]%string
  = applyCustomOrder (parsed "{'a':1,'b':{'c':3,'a':4},'c':5}") ["c"; "a"]%string.
Proof.
  apply applyCustomOrder_named_keys; [|reflexivity|vm_compute; reflexivity].
  apply (JSON_parse_well_formed (js "{'a':1,'b':{'c':3,'a':4},'c':5}")).
  reflexivity.
Defined.
(* ================================================================= *)
(** ** More on [decodeUriStrings] *)

Lemma decode_uri_no_percent (fuel : nat) :
  forall s, occurs "%" s = false -> (String.length s <= fuel)%nat ->
            decode_uri fuel s = Some s.
Proof.
  induction fuel as [|fuel IH]; intros [|c r] Hs Hlen; try reflexivity.
  - simpl in Hlen. lia.
  - cbn [occurs] in Hs. apply orb_false_iff in Hs as [Hc Hr].
    cbn [decode_uri]. rewrite Hc. rewrite IH; [reflexivity | assumption |].
    simpl in Hlen. lia.
Qed.

Lemma decoded_of_no_percent (s : string) : occurs "%" s = false -> decoded_of s = s.
Proof.
  intros H. unfold decoded_of, decodeURIComponent.
  now rewrite decode_uri_no_percent.
Qed.

Lemma decodeUriStrings_plain_string (s : string) (maxDepth : Z) :
  plain_string s = true -> decodeUriStrings (VStr s) maxDepth = VStr s.
Proof.
  unfold plain_string. intros H. apply andb_true_iff in H as [Hp Hj].
  apply negb_true_iff in Hp, Hj.
  destruct (Z_lt_le_dec 0 maxDepth) as [Hpos|Hle];
    [|now apply decodeUriStrings_exhausted].
  rewrite decodeUriStrings_leaf; [| assumption |];
    rewrite (decoded_of_no_percent s Hp); auto.
Qed.

(** X20.  [decodeUriStrings] returns a value as it is when there is
    nothing to decode: a well-formed value in which no object has the
    key ["__proto__"] and no string leaf holds a percent sign or starts,
    after white space, with a brace or a bracket. *)
Theorem decodeUriStrings_nothing_to_decode (v : Json) (maxDepth : Z) :
  well_formed v -> proto_free v = true -> plain_leaves v = true ->
  decodeUriStrings v maxDepth = v.
Proof.
  destruct (Z_lt_le_dec 0 maxDepth) as [Hpos|Hle];
    [|intros _ _ _; now apply decodeUriStrings_exhausted].
  induction v as [| b | n | s | items IH | record IH] using Json_ind;
    intros Hwf Hfree Hplain;
    try (unfold decodeUriStrings;
         destruct (decodeUriStrings_positive maxDepth Hpos) as (k & -> & _);
         reflexivity).
  - now apply decodeUriStrings_plain_string.
  - inversion Hwf as [| | | | ? Hitems |]; subst.
    rewrite (decodeUriStrings_array _ _ Hpos). f_equal.
    rewrite <- (map_id items) at 2. apply map_ext_in. intros x Hx.
    cbn [proto_free plain_leaves] in Hfree, Hplain.
    rewrite forallb_forall in Hfree, Hplain. rewrite Forall_forall in IH, Hitems.
    now apply IH; [|apply Hitems|apply Hfree|apply Hplain].
  - inversion Hwf as [| | | | | ? Hnd Hord Hmem]; subst.
    destruct (proto_free_members record Hfree) as [Hkey Hvals].
    rewrite (decodeUriStrings_object_exact _ _ Hpos Hnd Hord Hkey). f_equal.
    rewrite <- (map_id record) at 2. apply map_ext_in. intros [k x] He.
    cbn [fst snd]. f_equal.
    cbn [plain_leaves] in Hplain. rewrite forallb_forall in Hplain.
    rewrite Forall_forall in IH, Hmem, Hvals.
    exact (IH _ He (Hmem _ He) (Hvals _ He) (Hplain _ He)).
Qed.

Lemma decodeUriStrings_nothing_to_decode_witness :
  decodeUriStrings (parsed "{'name':'Alice B','tags':['a+b',' x'],'n':{'k':null}}") 10
  = parsed "{'name':'Alice B','tags':['a+b',' x'],'n':{'k':null}}".
Proof.
  apply decodeUriStrings_nothing_to_decode; [|reflexivity|reflexivity].
  apply (JSON_parse_well_formed
           (js "{'name':'Alice B','tags':['a+b',' x'],'n':{'k':null}}")).
  reflexivity.
Defined.

Lemma list_max_Forall_le (l : list nat) (b : nat) :
  (list_max l <= b)%nat -> Forall (fun n => (n <= b)%nat) l.
Proof.
  induction l as [|n r IH]; [constructor|].
  cbn [list_max fold_right]. intros H.
  constructor; [lia|]. apply IH. unfold list_max. lia.
Qed.

(** When fewer unwraps than the budget are made along every path, a
    larger budget gives the same result. *)
Lemma decode_with_saturated (b : nat) :
  forall obj b',
    (snd (decode_traced b obj) < b)%nat -> (b <= b')%nat ->
    decode_with b' obj = decode_with b obj.
Proof.
  induction b as [|b IHb]; intros obj b' Hlt Hle; [lia|].
  destruct b' as [|b']; [lia|].
  revert Hlt.
  induction obj as [| bo | n | s | items IH | record IH] using Json_ind;
    intros Hlt; try reflexivity.
  - rewrite !decode_with_str. rewrite decode_traced_str in Hlt.
    destruct (looks_like_json (trimStart (decoded_of s))); [|reflexivity].
    destruct (JSON_parse (decoded_of s)) as [parsed|]; [|reflexivity].
    destruct (decode_traced b parsed) as [r n] eqn:Ht. cbn [snd] in Hlt.
    apply IHb; [rewrite Ht; cbn [snd]; lia | lia].
  - rewrite !decode_with_arr. rewrite decode_traced_arr in Hlt. cbn [snd] in Hlt.
    f_equal. apply map_ext_in. intros x Hx.
    rewrite Forall_forall in IH. apply (IH x Hx).
    assert (Hall := list_max_Forall_le _ b (proj1 (Nat.lt_succ_r _ _) Hlt)).
    rewrite Forall_forall in Hall.
    specialize (Hall (snd (decode_traced (S b) x))).
    apply Nat.lt_succ_r, Hall. rewrite map_map. apply in_map_iff. now exists x.
  - rewrite !decode_with_obj. rewrite decode_traced_obj in Hlt. cbn [snd] in Hlt.
    f_equal. apply fold_left_ext_in. apply Forall_forall. intros e He acc.
    unfold assign_entry. f_equal.
    rewrite Forall_forall in IH. apply (IH e He).
    assert (Hall := list_max_Forall_le _ b (proj1 (Nat.lt_succ_r _ _) Hlt)).
    rewrite Forall_forall in Hall.
    specialize (Hall (snd (decode_traced (S b) (snd e)))).
    apply Nat.lt_succ_r, Hall. rewrite map_map. apply in_map_iff. now exists e.
Qed.

(** X21.  The depth limit matters only when it is reached: if along
    every path fewer embedded JSON texts are unwrapped than [maxDepth]
    allows, every larger limit gives the same result. *)
Theorem decodeUriStrings_limit_not_reached (obj : Json) (maxDepth maxDepth' : Z) :
  Z.of_nat (snd (decode_traced (Z.to_nat maxDepth) obj)) < maxDepth ->
  maxDepth <= maxDepth' ->
  decodeUriStrings obj maxDepth' = decodeUriStrings obj maxDepth.
Proof.
  intros Hlt Hle. unfold decodeUriStrings.
  apply decode_with_saturated; lia.
Qed.

Lemma decodeUriStrings_limit_not_reached_witness :
  decodeUriStrings (parsed "{'q':'%7B%22a%22%3A%22%255Bx%22%7D'}") 1000
  = parsed "{'q':{'a':'[x'}}".
Proof.
  rewrite (decodeUriStrings_limit_not_reached _ 2 1000);
    [reflexivity | vm_compute; reflexivity | lia].
Defined.

Lemma decodeUriStrings_alters_strings_only_witness :
  decodeUriStrings (parsed "{'u':'a%20b','n':[1,'%5B2%5D',true]}") 10
  = parsed "{'u':'a b','n':[1,[2],true]}".
Proof.
  rewrite decodeUriStrings_alters_strings_only; [reflexivity | lia | | reflexivity].
  apply (JSON_parse_well_formed (js "{'u':'a%20b','n':[1,'%5B2%5D',true]}")).
  reflexivity.
Defined.
(* ================================================================= *)
(** ** The panel *)

Lemma filterLines_In (E : Engine) (lines : list string) (filters : list Filter)
      (l : string) :
  In l (filterLines E lines filters) ->
  trim l = l /\ l <> EmptyString /\
  exists json, JSON_parse l = Some json
               /\ matchesAllFilters E (JData json) filters = Some true.
Proof.
  rewrite filterLines_filter. intros H. apply in_map_iff in H as (x & <- & Hx).
  apply filter_In in Hx as [_ Hsel]. unfold selected in Hsel.
  apply andb_true_iff in Hsel as [Hne Hsel].
  split; [apply trim_trim|]. split.
  - apply negb_true_iff, String.eqb_neq in Hne. exact Hne.
  - destruct (JSON_parse (trim x)) as [json|]; [|discriminate].
    exists json. split; [reflexivity|].
    now destruct (matchesAllFilters E (JData json) filters) as [[|]|].
Qed.

(** X23.  Every line that [filterLines] returns is rendered by
    [update] as a value, never as an empty line or a parse error,
    whatever the toggles are, and the value rendered comes from a JSON
    value that satisfies all the filters. *)
Theorem filterLines_lines_render (E : Engine) (lines : list string)
        (filters : list Filter) (st : PreviewState) (l : string) :
  In l (filterLines E lines filters) ->
  exists json shown,
    JSON_parse l = Some json
    /\ matchesAllFilters E (JData json) filters = Some true
    /\ update st l = Parsed shown
    /\ (customOrder st = [] -> reorderKeys st = false -> uriDecode st = false ->
        shown = json).
Proof.
  intros H. apply filterLines_In in H as (Ht & Hne & json & Hp & Hm).
  unfold update. rewrite Ht.
  apply String.eqb_neq in Hne. rewrite Hne, Hp.
  exists json. eexists. split; [reflexivity|]. split; [assumption|].
  split; [reflexivity|].
  intros -> -> ->. reflexivity.
Qed.

Lemma filterLines_lines_render_witness :
  exists json shown,
    JSON_parse (js "{'s':'on','n':1}") = Some json
    /\ matchesAllFilters bare_engine (JData json) [mkFilter "s" "on"] = Some true
    /\ update (mkPreviewState true false true [] []) (js "{'s':'on','n':1}")
       = Parsed shown
    /\ (customOrder (mkPreviewState true false true [] []) = [] ->
        reorderKeys (mkPreviewState true false true [] []) = false ->
        uriDecode (mkPreviewState true false true [] []) = false ->
        shown = json).
Proof.
  apply (filterLines_lines_render bare_engine
           [js "  {'s':'on','n':1} "; js "{'s':'off'}"; "oops"%string]).
  vm_compute. now left.
Defined.

Lemma PreviewPanel_update_frame (editors : nat -> TextEditor) (p : PreviewPanel)
      (editor : nat) :
  state (PreviewPanel_update editors p editor) = state p
  /\ globalState (PreviewPanel_update editors p editor) = globalState p
  /\ requests (PreviewPanel_update editors p editor) = requests p.
Proof. unfold PreviewPanel_update. now destruct (panel p). Qed.

Lemma refresh_frame (editors : nat -> TextEditor) (p : PreviewPanel) :
  state (refresh editors p) = state p
  /\ globalState (refresh editors p) = globalState p
  /\ requests (refresh editors p) = requests p.
Proof.
  unfold refresh. destruct (lastEditor p); [apply PreviewPanel_update_frame | auto].
Qed.

(** The custom order of the state is the one [globalState] holds. *)
Lemma react_stored_order (E : Engine) (p : PreviewPanel) (e : Event) :
  customOrder (state p) = customOrder (state (constructor (globalState p))) ->
  customOrder (state (react E p e))
  = customOrder (state (constructor (globalState (react E p e)))).
Proof.
  intros H. destruct e as [editors active | editors editor | editors message |];
    cbn [react].
  - unfold show. destruct active as [editor|]; [|assumption].
    destruct (PreviewPanel_update_frame editors
                {| state := state p; globalState := globalState p; panel := true;
                   lastEditor := lastEditor p; html := html p;
                   requests := requests p |} editor) as (-> & Hg & _).
    cbn [constructor state customOrder] in *. now rewrite Hg.
  - destruct (PreviewPanel_update_frame editors p editor) as (-> & Hg & _).
    cbn [constructor state customOrder] in *. now rewrite Hg.
  - destruct message as [v | v | v | v | v |]; cbn [handleMessage];
      try (match goal with
           | |- context [refresh editors ?q] =>
               destruct (refresh_frame editors q) as (-> & Hg & _);
               cbn [constructor state customOrder] in *; rewrite Hg
           end; cbn; assumption || reflexivity).
    + cbn [with_state lastEditor]. destruct (lastEditor p) as [editor|];
        [|cbn; assumption].
      match goal with
      | |- context [PreviewPanel_update editors ?q editor] =>
          destruct (PreviewPanel_update_frame editors q editor) as (-> & Hg & _);
          cbn [constructor state customOrder] in *; rewrite Hg
      end.
      destruct (0 <? List.length v)%nat; cbn; assumption.
    + assumption.
  - cbn. assumption.
Qed.

(** X24.  The custom order survives the panel: after any sequence of
    commands, window events and webview messages, a panel constructed
    from what [globalState] then holds starts with the custom order the
    old panel had, while its toggles and filters start cleared. *)
Theorem customOrder_persisted (E : Engine) (stored : option (list string))
        (events : list Event) :
  let restarted := constructor (globalState (run E stored events)) in
  customOrder (state restarted) = customOrder (state (run E stored events))
  /\ reorderKeys (state restarted) = false
  /\ wordWrap (state restarted) = false
  /\ uriDecode (state restarted) = false
  /\ activeFilters (state restarted) = [].
Proof.
  cbv zeta. split; [|now repeat split].
  unfold run. symmetry.
  assert (H0 : customOrder (state (constructor stored))
               = customOrder (state (constructor (globalState (constructor stored)))))
    by reflexivity.
  revert H0. generalize (constructor stored).
  induction events as [|e events IH]; intros p Hp; [exact Hp|].
  cbn [fold_left]. apply IH. now apply react_stored_order.
Qed.

Lemma trimStart_suffix (s : string) : exists p, s = (p ++ trimStart s)%string.
Proof.
  induction s as [s IH] using string_length_ind.
  rewrite trimStart_step. destruct (strip_ws s) as [r|] eqn:Hs.
  - destruct (IH r (strip_ws_shorter _ _ Hs)) as (p & Hp).
    apply strip_ws_Some in Hs as (w & _ & ->).
    exists (w ++ p)%string. now rewrite string_app_assoc, <- Hp.
  - now exists EmptyString.
Qed.

Lemma occurs_trim (c : ascii) (s : string) :
  occurs c s = false -> occurs c (trim s) = false.
Proof.
  intros H. unfold trim.
  destruct (trimStart_suffix s) as (p & Hp).
  destruct (trimEnd_split (trimStart s)) as (rest & Hr & _).
  rewrite Hp, Hr, !occurs_app in H.
  apply orb_false_iff in H as [_ H]. now apply orb_false_iff in H.
Qed.

Lemma break_free_trim (s : string) : break_free s = true -> break_free (trim s) = true.
Proof.
  unfold break_free. intros H. apply andb_true_iff in H as [H1 H2].
  apply negb_true_iff in H1, H2.
  now rewrite (occurs_trim LF s H1), (occurs_trim CR s H2).
Qed.

(** A text without a line break, followed by a line feed, is a line. *)
Lemma text_lines_line (l rest : string) :
  break_free l = true ->
  text_lines (l ++ String LF rest) = l :: text_lines rest.
Proof.
  induction l as [|c r IH]; intros H; [reflexivity|].
  unfold break_free in H. cbn [occurs] in H.
  rewrite !negb_orb in H.
  apply andb_true_iff in H as [H1 H2].
  apply andb_true_iff in H1 as [Hc1 Hr1], H2 as [Hc2 Hr2].
  apply negb_true_iff in Hc1, Hc2.
  cbn [append text_lines]. rewrite Hc1, Hc2, IH; [reflexivity|].
  unfold break_free. now rewrite Hr1, Hr2.
Qed.

Lemma text_lines_single (l : string) : break_free l = true -> text_lines l = [l].
Proof.
  induction l as [|c r IH]; intros H; [reflexivity|].
  unfold break_free in H. cbn [occurs] in H.
  rewrite !negb_orb in H.
  apply andb_true_iff in H as [H1 H2].
  apply andb_true_iff in H1 as [Hc1 Hr1], H2 as [Hc2 Hr2].
  apply negb_true_iff in Hc1, Hc2.
  cbn [text_lines]. rewrite Hc1, Hc2, IH; [reflexivity|].
  unfold break_free. now rewrite Hr1, Hr2.
Qed.

(** Lines without line breaks, joined by line feeds, are the lines of
    the text. *)
Lemma text_lines_join (lines : list string) :
  lines <> [] ->
  Forall (fun l => break_free l = true) lines ->
  text_lines (String.concat (String LF EmptyString) lines) = lines.
Proof.
  induction lines as [|l rest IH]; intros Hne Hall; [contradiction|].
  inversion Hall as [|? ? Hl Hrest]; subst.
  destruct rest as [|l' rest]; [now apply text_lines_single|].
  change (String.concat (String LF EmptyString) (l :: l' :: rest))
    with (l ++ String LF (String.concat (String LF EmptyString) (l' :: rest)))%string.
  rewrite (text_lines_line _ _ Hl), IH; [reflexivity | discriminate | assumption].
Qed.

Lemma filterLines_break_free (E : Engine) (lines : list string)
      (filters : list Filter) :
  Forall (fun l => break_free l = true) lines ->
  Forall (fun l => break_free l = true) (filterLines E lines filters).
Proof.
  intros H. rewrite filterLines_filter. rewrite Forall_forall in *.
  intros l Hl. apply in_map_iff in Hl as (x & <- & Hx).
  apply filter_In in Hx as [Hx _]. apply break_free_trim. now apply H.
Qed.

Lemma createFilteredView_sound (E : Engine) (lines : list string)
      (filters : list Filter) :
  Forall (fun l => break_free l = true) lines ->
  sound_request
    (openTextDocument (String.concat (String LF EmptyString)
                                     (filterLines E lines filters))).
Proof.
  intros H. cbn [sound_request].
  destruct (filterLines E lines filters) as [|l rest] eqn:Hf; [now left|].
  right. rewrite text_lines_join;
    [| discriminate | rewrite <- Hf; now apply filterLines_break_free].
  apply Forall_forall. intros x Hx. rewrite <- Hf in Hx.
  apply filterLines_In in Hx as (Ht & Hne & json & Hp & _).
  split; [assumption|]. split; [assumption|]. now exists json.
Qed.

Lemma react_requests (E : Engine) (p : PreviewPanel) (e : Event) :
  documents_of_lines e ->
  Forall sound_request (requests p) ->
  Forall sound_request (requests (react E p e)).
Proof.
  intros He H. destruct e as [editors active | editors editor | editors message |];
    cbn [react].
  - unfold show. destruct active as [editor|]; [|assumption].
    match goal with
    | |- context [PreviewPanel_update editors ?q editor] =>
        destruct (PreviewPanel_update_frame editors q editor) as (_ & _ & ->)
    end. exact H.
  - now destruct (PreviewPanel_update_frame editors p editor) as (_ & _ & ->).
  - destruct message as [v | v | v | v | v |]; cbn [handleMessage];
      try (match goal with
           | |- context [refresh editors ?q] =>
               destruct (refresh_frame editors q) as (_ & _ & ->)
           end; exact H).
    + cbn [with_state lastEditor]. destruct (lastEditor p) as [editor|];
        [|exact H].
      match goal with
      | |- context [PreviewPanel_update editors ?q editor] =>
          destruct (PreviewPanel_update_frame editors q editor) as (_ & _ & ->)
      end.
      destruct (0 <? List.length v)%nat;
        cbn [createFilteredView with_request requests state activeFilters];
        apply Forall_app; (split; [exact H|]); (constructor; [|constructor]).
      * apply createFilteredView_sound. apply He.
      * exact I.
    + exact H.
  - exact H.
Qed.

(** X25.  If the documents the panel reads are lists of lines (no line
    holds a line break), then whatever commands, window events and
    webview messages the panel has seen, every document it asked to
    open as a filtered view is either empty (no line matched) or made
    of lines that are each a trimmed, non-empty text that parses as
    JSON. *)
Theorem filtered_views_sound (E : Engine) (stored : option (list string))
        (events : list Event) :
  Forall documents_of_lines events ->
  Forall sound_request (requests (run E stored events)).
Proof.
  unfold run.
  assert (H0 : Forall sound_request (requests (constructor stored))) by constructor.
  revert H0. generalize (constructor stored).
  induction events as [|e events IH]; intros p Hp Hev; [exact Hp|].
  inversion Hev as [|? ? He Hrest]; subst.
  cbn [fold_left]. apply IH; [|assumption]. now apply react_requests.
Qed.

Lemma filtered_views_sound_witness :
  requests (run bare_engine None
                [ev_show sample_editors (Some 0%nat);
                 ev_message sample_editors (setFilters [mkFilter "s" "on"]);
                 ev_message sample_editors (setFilters [mkFilter "s" "none"])])
  = [openTextDocument (js "{'s':'on','n':1}" ++ String LF (js "{'n':2,'s':'on'}"));
     openTextDocument ""]
  /\ Forall sound_request
            (requests (run bare_engine None
                           [ev_show sample_editors (Some 0%nat);
                            ev_message sample_editors (setFilters [mkFilter "s" "on"]);
                            ev_message sample_editors (setFilters [mkFilter "s" "none"])])).
Proof.
  split; [vm_compute; reflexivity|].
  apply filtered_views_sound.
  repeat (constructor; [try exact I; intros editor; repeat constructor|]).
  constructor.
Defined.
(* ================================================================= *)
(** ** The unit tests of [htmlUtils] and a session of the panel *)

Example test_escapeHtml :
  escapeHtml "a & b" = "a &amp; b"%string
  /\ escapeHtml "<div>" = "&lt;div&gt;"%string
  /\ escapeHtml "a > b" = "a &gt; b"%string
  /\ escapeHtml (js "'hello'") = "&quot;hello&quot;"%string
  /\ escapeHtml "it's" = "it&#039;s"%string
  /\ escapeHtml (js "<script>alert('xss')</script>")
     = "&lt;script&gt;alert(&quot;xss&quot;)&lt;/script&gt;"%string
  /\ escapeHtml "" = ""%string
  /\ escapeHtml "hello world 123" = "hello world 123"%string
  /\ escapeHtml "<<>>" = "&lt;&lt;&gt;&gt;"%string
  /\ escapeHtml "a & b & c" = "a &amp; b &amp; c"%string.
Proof. repeat split; vm_compute; reflexivity. Qed.

Example test_escapeJsonForHtml :
  escapeJsonForHtml "<" = "\u003c"%string
  /\ escapeJsonForHtml (js "{'html':'</script>'}")
     = js "{'html':'\u003c/script>'}"
  /\ JSON_parse (escapeJsonForHtml (js "{'html':'<b>bold</b>','script':'</script>'}"))
     = Some (parsed "{'html':'<b>bold</b>','script':'</script>'}")
  /\ escapeJsonForHtml (js "{'name':'Alice','count':42}")
     = js "{'name':'Alice','count':42}"
  /\ escapeJsonForHtml "<<<" = "\u003c\u003c\u003c"%string
  /\ escapeJsonForHtml "" = ""%string.
Proof. repeat split; vm_compute; reflexivity. Qed.

(** A session: the preview is opened on the second line of a document,
    the webview asks for a filter and then for a custom order. *)
Example scenario_panel :
  requests (run bare_engine (Some ["s"%string])
                [ev_show sample_editors (Some 0%nat);
                 ev_message sample_editors (setFilters [mkFilter "s" "on"]);
                 ev_message sample_editors (setCustomOrder ["n"%string])])
  = [openTextDocument (js "{'s':'on','n':1}" ++ String LF (js "{'n':2,'s':'on'}"))]
  /\ globalState (run bare_engine (Some ["s"%string])
                      [ev_show sample_editors (Some 0%nat);
                       ev_message sample_editors (setFilters [mkFilter "s" "on"]);
                       ev_message sample_editors (setCustomOrder ["n"%string])])
     = Some ["n"%string]
  /\ option_map json
       (html (run bare_engine (Some ["s"%string])
                  [ev_show sample_editors (Some 0%nat);
                   ev_message sample_editors (setFilters [mkFilter "s" "on"]);
                   ev_message sample_editors (setCustomOrder ["n"%string])]))
     = Some (Parsed (parsed "{'n':2,'s':'on'}"))
  /\ option_map lineNumber
       (html (run bare_engine (Some ["s"%string])
                  [ev_show sample_editors (Some 0%nat);
                   ev_message sample_editors (setFilters [mkFilter "s" "on"]);
                   ev_message sample_editors (setCustomOrder ["n"%string])]))
     = Some 2%nat.
Proof. repeat split; vm_compute; reflexivity. Qed.

(** ** The scenarios of the specification *)

Example scenario_reorder :
  reorderJsonKeys
    (parsed "{'zeta':{'nested':true},'alpha':1,'beta':'hello','gamma':[1,2],'delta':null}")
  = parsed "{'alpha':1,'beta':'hello','delta':null,'zeta':{'nested':true},'gamma':[1,2]}".
Proof. vm_compute. reflexivity. Qed.

Example scenario_custom_order :
  keys (members (applyCustomOrder
                   (parsed "{'name':'Alice','id':1,'status':'active','email':'a@b.com','role':'admin'}")
                   ["id"; "name"; "email"]))
  = ["id"; "name"; "email"; "status"; "role"].
Proof. vm_compute. reflexivity. Qed.

Example scenario_filterLines :
  filterLines bare_engine
    [js "{'id':1,'status':'active'}"; js "{'id':2,'status':'inactive'}"]
    [mkFilter "status" "active"]
  = [js "{'id':1,'status':'active'}"].
Proof. vm_compute. reflexivity. Qed.

Example scenario_decode_url :
  decodeUriStrings_default (VStr "https%3A%2F%2Fexample.com")
  = VStr "https://example.com".
Proof. vm_compute. reflexivity. Qed.

Example scenario_decode_embedded :
  decodeUriStrings_default (VObj [("filter", VStr (js "{'customerId':8109}"))])
  = VObj [("filter", VObj [("customerId", num 8109)])].
Proof. vm_compute. reflexivity. Qed.

Example scenario_resolve :
  getNestedValue bare_engine (JData (parsed "{'user':{'name':'Alice'}}")) "user.name"
  = Some (JData (VStr "Alice"))
  /\ getNestedValue bare_engine (JData (parsed "{'a':1}")) "a.b" = Some JUndefined.
Proof. vm_compute. split; reflexivity. Qed.

Example decode_stops_at_depth_1 :
  decodeUriStrings (VStr (js "{'data':'{\'deep\':true}'}")) 1
  = VObj [("data", VStr (js "{'deep':true}"))].
Proof. vm_compute. reflexivity. Qed.

(** ** The tests of the repository *)

Example test_reorder_expected :
  reorderJsonKeys
    (parsed "{'zeta':{'nested':true},'alpha':1,'beta':'hello','gamma':[1,2],'delta':null,'epsilon':{'deep':{'value':42}}}")
  = parsed "{'alpha':1,'beta':'hello','delta':null,'zeta':{'nested':true},'gamma':[1,2],'epsilon':{'deep':{'value':42}}}".
Proof. vm_compute. reflexivity. Qed.

Example test_custom_order_expected :
  applyCustomOrder
    (parsed "{'name':'Alice','id':1,'status':'active','email':'alice@example.com','role':'admin'}")
    ["id"; "name"; "email"]
  = parsed "{'id':1,'name':'Alice','email':'alice@example.com','status':'active','role':'admin'}".
Proof. vm_compute. reflexivity. Qed.

Example test_custom_order_missing_names :
  keys (members (applyCustomOrder
                   (parsed "{'name':'Alice','id':1,'status':'active','email':'alice@example.com','role':'admin'}")
                   ["nonexistent"; "id"; "also_missing"]))
  = ["id"; "name"; "status"; "email"; "role"].
Proof. vm_compute. reflexivity. Qed.

Example test_custom_order_nested :
  applyCustomOrder
    (parsed "{'id':1,'user':{'role':'admin','name':'Alice','id':100},'status':'active'}")
    ["id"; "name"]
  = parsed "{'id':1,'user':{'id':100,'name':'Alice','role':'admin'},'status':'active'}".
Proof. vm_compute. reflexivity. Qed.

Example test_custom_order_nulls :
  keys (members (applyCustomOrder (parsed "{'c':null,'a':1,'b':null}") ["b"; "a"]))
  = ["b"; "a"; "c"].
Proof. vm_compute. reflexivity. Qed.

Example test_getNestedValue :
  let nested :=
    JData (parsed "{'id':1,'user':{'name':'Alice','email':'alice@example.com'},'tags':['admin','user']}") in
  getNestedValue bare_engine nested "user.email" = Some (JData (VStr "alice@example.com"))
  /\ getNestedValue bare_engine nested "tags.0" = Some (JData (VStr "admin"))
  /\ getNestedValue bare_engine nested "tags.1" = Some (JData (VStr "user"))
  /\ getNestedValue bare_engine nested "user.missing" = Some JUndefined
  /\ getNestedValue bare_engine (JData VNull) "key" = Some JUndefined
  /\ getNestedValue bare_engine JUndefined "key" = Some JUndefined
  /\ getNestedValue bare_engine (JData (parsed "{'a':null}")) "a" = Some (JData VNull)
  /\ getNestedValue bare_engine (JData (parsed "{'a':null}")) "a.b" = Some JUndefined.
Proof. vm_compute. repeat split; reflexivity. Qed.

Example test_matchesAllFilters :
  let simple := JData (parsed "{'id':1,'name':'Alice','active':true}") in
  matchesAllFilters bare_engine simple [] = Some true
  /\ matchesAllFilters bare_engine simple [mkFilter "name" "Alice"] = Some true
  /\ matchesAllFilters bare_engine simple [mkFilter "name" "Bob"] = Some false
  /\ matchesAllFilters bare_engine simple [mkFilter "missing" "anything"] = Some false
  /\ matchesAllFilters bare_engine simple [mkFilter "id" "1"] = Some true
  /\ matchesAllFilters bare_engine simple [mkFilter "active" "true"] = Some true
  /\ matchesAllFilters bare_engine simple [mkFilter "nonexistent" "undefined"] = Some false
  /\ matchesAllFilters bare_engine (JData (parsed "{'id':1,'name':null,'data':null}"))
                       [mkFilter "name" "null"] = Some true.
Proof. vm_compute. repeat split; reflexivity. Qed.

Example test_filterLines_invalid_lines :
  filterLines bare_engine
    ["{invalid json}"; js "{'status':'active','id':99}"; "not json at all";
     js "{'status':'active','id':100}"]
    [mkFilter "status" "active"]
  = [js "{'status':'active','id':99}"; js "{'status':'active','id':100}"].
Proof. vm_compute. reflexivity. Qed.

Example test_filterLines_nested_and_trimmed :
  filterLines bare_engine
    [js "  {'id':1,'status':'active','user':{'name':'Alice','role':'admin'}}  ";
     js "{'id':2,'status':'inactive','user':{'name':'Bob','role':'user'}}";
     ""; "  ";
     js "{'id':4,'status':'active','user':{'name':'Diana','role':'admin'}}"]
    [mkFilter "status" "active"; mkFilter "user.role" "admin"]
  = [js "{'id':1,'status':'active','user':{'name':'Alice','role':'admin'}}";
     js "{'id':4,'status':'active','user':{'name':'Diana','role':'admin'}}"].
Proof. vm_compute. reflexivity. Qed.

Example test_decode_invalid_sequences :
  decodeUriStrings_default (VStr "%ZZ") = VStr "%ZZ"
  /\ decodeUriStrings_default (VStr "%") = VStr "%"
  /\ decodeUriStrings_default (VStr "%2") = VStr "%2"
  /\ decodeUriStrings_default (VStr "hello%20world") = VStr "hello world"
  /\ decodeUriStrings_default (VStr "") = VStr ""
  /\ decodeUriStrings_default (parsed "{'bad':'%ZZ','nested':{'also_bad':'%'}}")
     = parsed "{'bad':'%ZZ','nested':{'also_bad':'%'}}".
Proof. vm_compute. repeat split; reflexivity. Qed.

Example test_decode_url_encoded_json :
  decodeUriStrings_default (VStr "%7B%22ids%22%3A%5B1%2C2%5D%2C%22name%22%3A%22test%22%7D")
  = parsed "{'ids':[1,2],'name':'test'}".
Proof. vm_compute. reflexivity. Qed.

(** Decoding runs on the reordered value: the string under ["a"] is a
    primitive when the keys are reordered and becomes an object
    afterwards, so it stays in front of ["b"]. *)
Example update_decodes_after_reordering :
  update (mkPreviewState true false true [] []) (js "{'n':{},'a':'%7B%7D','b':1}")
  = Parsed (VObj [("a", VObj []); ("b", num 1); ("n", VObj [])]).
Proof. vm_compute. reflexivity. Qed.

(** ** Where the code departs from the claims *)

(** C1.  A parsed line can have a key ["__proto__"].  Both reordering
    functions copy it with an assignment, which does not create an own
    property, so the key and its value are missing from the output: the
    key set is not preserved. *)
Theorem reorder_drops_proto_key :
  JSON_parse (js "{'__proto__':1,'a':2}")
  = Some (VObj [("__proto__", num 1); ("a", num 2)])
  /\ keys (members (VObj [("__proto__", num 1); ("a", num 2)])) = ["__proto__"; "a"]
  /\ reorderJsonKeys (VObj [("__proto__", num 1); ("a", num 2)])
     = VObj [("a", num 2)]
  /\ applyCustomOrder (VObj [("__proto__", num 1); ("a", num 2)]) ["a"]
     = VObj [("a", num 2)]
  /\ applyCustomOrder (VObj [("__proto__", num 1); ("a", num 2)]) ["__proto__"]
     = VObj [("a", num 2)].
Proof. vm_compute. repeat split; reflexivity. Qed.

(** C2.  A key that is an array index is enumerated before every other
    key, whatever it holds: in the output for [{"a":1,"0":{}}] the key
    ["0"], which holds an object, comes before the key ["a"], which
    holds a number. *)
Theorem reorder_index_key_first :
  JSON_parse (js "{'a':1,'0':{}}") = Some (VObj [("0", VObj []); ("a", num 1)])
  /\ keys (members (reorderJsonKeys (VObj [("0", VObj []); ("a", num 1)])))
     = ["0"; "a"]
  /\ lookup (members (reorderJsonKeys (VObj [("0", VObj []); ("a", num 1)]))) "0"
     = Some (VObj [])
  /\ lookup (members (reorderJsonKeys (VObj [("0", VObj []); ("a", num 1)]))) "a"
     = Some (num 1)
  /\ occurs_before
       (keys (members (reorderJsonKeys (VObj [("0", VObj []); ("a", num 1)]))))
       "a" "0" = false.
Proof. vm_compute. repeat split; reflexivity. Qed.

(** C6.  [decodeUriStrings] copies every member with an assignment as
    well: the key ["__proto__"] and the number it holds are missing from
    the output. *)
Theorem decode_drops_proto_key :
  JSON_parse (js "{'__proto__':5,'a':'x'}")
  = Some (VObj [("__proto__", num 5); ("a", VStr "x")])
  /\ decodeUriStrings_default (VObj [("__proto__", num 5); ("a", VStr "x")])
     = VObj [("a", VStr "x")]
  /\ lookup (members (decodeUriStrings_default
                        (VObj [("__proto__", num 5); ("a", VStr "x")])))
            "__proto__"
     = None.
Proof. vm_compute. repeat split; reflexivity. Qed.

(** C3 fails as stated when the order list repeats a key: ["b"] stands
    before the second ["a"] in the list, both are keys of the object,
    and ["b"] does not come before ["a"] in the output.  It also fails
    for a key that is an array index, ["b"] standing before ["0"] in
    the list and after it in the output, and for the key ["__proto__"],
    which is named first in the list and missing from the output. *)
Lemma applyCustomOrder_repeated_key :
  occurs_before ["a"; "b"; "a"] "b" "a" = true
  /\ keys (members (applyCustomOrder (VObj [("a", num 1); ("b", num 2)])
                                     ["a"; "b"; "a"]))
     = ["a"; "b"]
  /\ occurs_before
       (keys (members (applyCustomOrder (VObj [("a", num 1); ("b", num 2)])
                                        ["a"; "b"; "a"])))
       "b" "a" = false
  /\ keys (members (applyCustomOrder (VObj [("0", num 1); ("b", num 2)])
                                     ["b"; "0"]))
     = ["0"; "b"]
  /\ keys (members (applyCustomOrder (VObj [("__proto__", num 1); ("b", num 2)])
                                     ["__proto__"; "b"]))
     = ["b"].
Proof. vm_compute. repeat split; reflexivity. Qed.

(** C4 fails as stated for a string that is JSON text: percent-decoding
    of [["%"]] fails, and the result is the parsed array, not the
    original string. *)
Lemma decode_malformed_json_text :
  decodeURIComponent (js "['%']") = None
  /\ decodeUriStrings_default (VStr (js "['%']")) = VArr [VStr "%"].
Proof. vm_compute. split; reflexivity. Qed.

(** C7 fails as stated for the segment [length], which is not numeric
    and resolves to the number of elements. *)
Lemma getNestedValue_array_length :
  array_index "length" = None
  /\ getNestedValue bare_engine
       (JData (VObj [("tags", VArr [VStr "admin"; VStr "user"])])) "tags"
     = Some (JData (VArr [VStr "admin"; VStr "user"]))
  /\ getNestedValue bare_engine
       (JData (VObj [("tags", VArr [VStr "admin"; VStr "user"])])) "tags.length"
     = Some (JData (num 2)).
Proof. vm_compute. repeat split; reflexivity. Qed.

(** C10 fails as stated for an object with an own key [toString]: the
    conversion throws, so the filter value [[object Object]] is not
    matched; an array that holds such an object is not converted
    either. *)
Lemma matchesAllFilters_toString_key :
  getNestedValue bare_engine (JData (VObj [("a", VObj [("toString", num 1)])])) "a"
  = Some (JData (VObj [("toString", num 1)]))
  /\ matchesAllFilters bare_engine
       (JData (VObj [("a", VObj [("toString", num 1)])]))
       [mkFilter "a" "[object Object]"]
     = None
  /\ matchesAllFilters bare_engine
       (JData (VObj [("a", VArr [VObj [("toString", num 1)]])]))
       [mkFilter "a" "[object Object]"]
     = None.
Proof. vm_compute. repeat split; reflexivity. Qed.

(** ** The theorems at concrete inputs *)

(** C3 on an object with three keys, two of them named in the list,
    and on an object inside an array inside an object. *)
Lemma applyCustomOrder_precedence_witness :
  occurs_before
    (keys (members (applyCustomOrder
                      (VObj [("name", VStr "Alice"); ("id", num 1); ("role", VStr "admin")])
                      ["id"; "name"])))
    "id" "name" = true
  /\ well_formed (parsed "{'list':[{'b':1,'a':{'c':2,'a':3}}],'z':0}")
  /\ custom_ordered ["a"] (parsed "{'list':[{'b':1,'a':{'c':2,'a':3}}],'z':0}")
                    (parsed "{'list':[{'a':{'a':3,'c':2},'b':1}],'z':0}").
Proof.
  assert (Hnd : NoDup (keys [("name", VStr "Alice"); ("id", num 1); ("role", VStr "admin")])).
  { simpl. repeat constructor; simpl; intuition discriminate. }
  assert (Hwf : well_formed (parsed "{'list':[{'b':1,'a':{'c':2,'a':3}}],'z':0}")).
  { apply (JSON_parse_well_formed (js "{'list':[{'b':1,'a':{'c':2,'a':3}}],'z':0}")).
    reflexivity. }
  pose proof (applyCustomOrder_precedence _ ["id"; "name"] Hnd) as H.
  split; [| split; [exact Hwf |]].
  - apply (proj1 H); try reflexivity; simpl; tauto.
  - pose proof (applyCustomOrder_precedence _ ["a"] Hnd) as (_ & _ & _ & _ & _ & _ & _ & _ & _ & Hdeep).
    exact (Hdeep _ Hwf).
Defined.

(** C4 on the string of the test "leaves invalid %ZZ sequence as-is". *)
Lemma decodeUriStrings_malformed_witness :
  decodeUriStrings (VStr "%ZZ") 10 = VStr "%ZZ".
Proof.
  apply (proj1 (decodeUriStrings_malformed "%ZZ" 10 eq_refl)).
  right. left. reflexivity.
Defined.

(** C5 on the string of the test "returns input unchanged at
    maxDepth=0", with the budgets 0 and 1. *)
Lemma decodeUriStrings_budget_witness :
  decodeUriStrings (VStr (js "{'key':'value'}")) 0 = VStr (js "{'key':'value'}")
  /\ decodeUriStrings (VStr (js "{'key':'value'}")) 1
     = decodeUriStrings (VObj [("key", VStr "value")]) 0.
Proof.
  destruct decodeUriStrings_budget as (H0 & _ & _ & Hunwrap & _).
  split.
  - apply H0. lia.
  - apply (Hunwrap _ 1); [lia | reflexivity | reflexivity].
Defined.

(** C7 on an array of two strings: an index, and a name that nothing
    holds. *)
Lemma getNestedValue_array_witness :
  getNestedValue bare_engine (JData (VArr [VStr "admin"; VStr "user"])) "1"
  = Some (JData (VStr "user"))
  /\ getNestedValue bare_engine (JData (VArr [VStr "admin"; VStr "user"])) "first"
     = Some JUndefined.
Proof.
  destruct (getNestedValue_array bare_engine [VStr "admin"; VStr "user"])
    as (Hidx & _ & Hother & _).
  split.
  - apply (Hidx "1" 1); reflexivity.
  - apply (Hother "first"); [reflexivity | discriminate | discriminate].
Defined.

(** C9 with both [reorderKeys] and a custom order set. *)
Lemma update_custom_order_wins_witness :
  update (mkPreviewState true false false ["id"] []) (js " {'tags':[],'id':7} ")
  = Parsed (VObj [("id", num 7); ("tags", VArr [])]).
Proof.
  apply (proj1 (update_custom_order_wins
                  (mkPreviewState true false false ["id"] [])
                  (js " {'tags':[],'id':7} ")
                  (VObj [("tags", VArr []); ("id", num 7)])
                  ltac:(vm_compute; discriminate)
                  ltac:(vm_compute; reflexivity))).
  discriminate.
Defined.

(** C10 on the array [[1,2]] and the filter value [1,2]. *)
Lemma matchesAllFilters_container_witness :
  matchesAllFilters bare_engine (JData (VObj [("ids", VArr [num 1; num 2])]))
                    [mkFilter "ids" "1,2"] = Some true.
Proof.
  apply (proj1 (matchesAllFilters_container bare_engine
                  (JData (VObj [("ids", VArr [num 1; num 2])]))
                  (mkFilter "ids" "1,2"))
               [num 1; num 2] ["1"; "2"]%string).
  - reflexivity.
  - repeat constructor.
  - reflexivity.
Defined.
